(** * The bundler command-line tool (src/cli.ts): model and verification

    The program is a menu loop over one text file ([.env] in the working
    directory).  It is embedded here as a state-and-exception monad over
    the file, the terminal input still to come and the terminal output
    produced so far.  JavaScript built-ins the program calls ([includes],
    [split], [replace] with a regular expression, [parseInt], [Math.floor],
    ...) are given as executable functions.

    The configuration module (config.ts), which reads the same kind of
    file when the bundler itself is loaded, is embedded as a function of
    the file and of the two library calls its initialisers make.

    Part I holds the definitions, Part II the lemmas and theorems about
    the operations one by one, Part III properties of the operations taken
    together and of the configuration module. *)

From Stdlib Require Import String DecimalString.
From Stdlib Require DecimalNat.
From Stdlib Require Import List Ascii ZArith NArith Lia Bool Arith.
From Stdlib Require Import Floats.SpecFloat.
Import ListNotations.

Set Implicit Arguments.

(* ===================================================================== *)
(** * Part I: definitions *)
(* ===================================================================== *)

(** ** JavaScript strings

    A string is the list of its characters.  Characters are 8-bit
    (Latin-1): a text that holds any other character is outside the model.
    Of the characters the program tells apart, that leaves out the line
    separators U+2028 and U+2029, which are line terminators for the dot of
    a regular expression, and the white space beyond U+00A0, which [trim]
    and [parseInt] skip; what is proved about a text is proved for the
    texts without them. *)

Definition str := list ascii.

Definition LF : ascii := "010"%char.
Definition CR : ascii := "013"%char.

(** Source literals are written as in the source; the only escape the
    source uses inside string literals is backslash-n. *)
Fixpoint unescape (s : str) : str :=
  match s with
  | "\"%char :: "n"%char :: t => LF :: unescape t
  | c :: t => c :: unescape t
  | [] => []
  end.

Definition js (s : string) : str := unescape (list_ascii_of_string s).

Arguments js s%_string.

(** [s.startsWith(p)] *)
Fixpoint startsWith (s p : str) {struct p} : bool :=
  match p, s with
  | [], _ => true
  | _ :: _, [] => false
  | c :: p', d :: s' => Ascii.eqb c d && startsWith s' p'
  end.

(** [s.includes(n)] *)
Fixpoint includes (s n : str) : bool :=
  startsWith s n ||
  match s with
  | [] => false
  | _ :: s' => includes s' n
  end.

(** [s === t] on strings *)
Fixpoint streq (s t : str) : bool :=
  match s, t with
  | [], [] => true
  | c :: s', d :: t' => Ascii.eqb c d && streq s' t'
  | _, _ => false
  end.

(** [s.split(sep)] for a one-character separator *)
Fixpoint split (sep : ascii) (s : str) : list str :=
  match s with
  | [] => [[]]
  | c :: s' =>
      if Ascii.eqb c sep then [] :: split sep s'
      else match split sep s' with
           | [] => [[c]]
           | l :: ls => (c :: l) :: ls
           end
  end.

(** [ls.join(sep)] *)
Fixpoint join (sep : str) (ls : list str) : str :=
  match ls with
  | [] => []
  | l :: ls' =>
      match ls' with
      | [] => l
      | _ :: _ => l ++ sep ++ join sep ls'
      end
  end.

(** [s.slice(0, n)] and [s.slice(-n)] *)
Definition sliceTo (n : nat) (s : str) : str := firstn n s.
Definition sliceLast (n : nat) (s : str) : str := skipn (length s - n) s.

(** [s.toLowerCase()]: the capital letters of the 8-bit range *)
Definition lowerChar (c : ascii) : ascii :=
  let n := nat_of_ascii c in
  if ((65 <=? n) && (n <=? 90)) ||
     ((192 <=? n) && (n <=? 222) && negb (n =? 215))
  then ascii_of_nat (n + 32) else c.

Definition toLowerCase (s : str) : str := map lowerChar s.

(** A string is falsy exactly when it is empty: [if (s)] and [s || d]. *)
Definition truthy (s : str) : bool :=
  match s with [] => false | _ :: _ => true end.

Definition orElse (s d : str) : str := if truthy s then s else d.

(** Decimal digits of a natural number: the template literal of an array
    length or of an index.  Such numbers are below 2^32, where the
    number-to-string conversion prints the integer. *)
Definition decimal (n : nat) : str :=
  list_ascii_of_string (NilZero.string_of_uint (Nat.to_uint n)).

(** ** Regular expressions

    The program uses [/KEY=.*/] (for four keys) and
    [/WALLET_\d+_PRIVATE_KEY/g].  Both are sequences of single characters,
    character classes and starred classes; [\d+] is [\d\d*]. *)

Inductive cclass :=
| Chr (c : ascii)     (* the character itself *)
| Dot                 (* [.]: anything but a line terminator *)
| Digit.              (* [\d] *)

Inductive piece :=
| One (a : cclass)
| Star (a : cclass).

Definition regex := list piece.

Definition isDigit (c : ascii) : bool :=
  let n := nat_of_ascii c in (48 <=? n) && (n <=? 57).

(** The line terminators among the 8-bit characters: line feed and
    carriage return.  (JavaScript has two more, U+2028 and U+2029.) *)
Definition isLineTerminator (c : ascii) : bool :=
  Ascii.eqb c LF || Ascii.eqb c CR.

Definition accepts (a : cclass) (c : ascii) : bool :=
  match a with
  | Chr d => Ascii.eqb c d
  | Dot => negb (isLineTerminator c)
  | Digit => isDigit c
  end.

Definition literal (s : str) : regex := map (fun c => One (Chr c)) s.

(** Greedy star with backtracking: the longest run first, then shorter
    ones, each followed by the rest of the pattern [k]. *)
Fixpoint matchStar (a : cclass) (k : str -> option str) (s : str) : option str :=
  match s with
  | c :: s' =>
      if accepts a c then
        match matchStar a k s' with
        | Some rest => Some rest
        | None => k s
        end
      else k s
  | [] => k []
  end.

(** Match the pattern at the start of [s]; the result is what follows the
    match. *)
Fixpoint matchHere (r : regex) (s : str) : option str :=
  match r with
  | [] => Some s
  | One a :: r' =>
      match s with
      | c :: s' => if accepts a c then matchHere r' s' else None
      | [] => None
      end
  | Star a :: r' => matchStar a (matchHere r') s
  end.

(** The leftmost match: the text before it, the match, the text after it. *)
Fixpoint exec (r : regex) (s : str) : option (str * str * str) :=
  match matchHere r s with
  | Some rest => Some ([], firstn (length s - length rest) s, rest)
  | None =>
      match s with
      | [] => None
      | c :: s' =>
          match exec r s' with
          | Some (before, matched, after) => Some (c :: before, matched, after)
          | None => None
          end
      end
  end.

(** The replacement text of [String.prototype.replace] for a pattern
    without capture groups: [$$], [$&], [$`] and [$'] are special, any
    other dollar sign stands for itself. *)
Fixpoint getSubstitution (matched before after template : str) : str :=
  match template with
  | "$"%char :: "$"%char :: t => "$"%char :: getSubstitution matched before after t
  | "$"%char :: "&"%char :: t => matched ++ getSubstitution matched before after t
  | "$"%char :: "`"%char :: t => before ++ getSubstitution matched before after t
  | "$"%char :: "'"%char :: t => after ++ getSubstitution matched before after t
  | c :: t => c :: getSubstitution matched before after t
  | [] => []
  end.

(** [s.replace(r, replacement)] for a pattern without the [g] flag *)
Definition replace (s : str) (r : regex) (replacement : str) : str :=
  match exec r s with
  | None => s
  | Some (before, matched, after) =>
      before ++ getSubstitution matched before after replacement ++ after
  end.

(** [(s.match(r) || []).length] for a pattern with the [g] flag: matches are
    taken left to right, each search resuming where the last match ended
    (one character further after an empty match).  [skip] is the number of
    characters of [s] still covered by the last match. *)
Fixpoint countMatches (r : regex) (skip : nat) (s : str) : nat :=
  match skip with
  | S k =>
      match s with
      | [] => 0
      | _ :: s' => countMatches r k s'
      end
  | 0 =>
      match matchHere r s with
      | Some rest =>
          S (match s with
             | [] => 0
             | _ :: s' => countMatches r (length s - length rest - 1) s'
             end)
      | None =>
          match s with
          | [] => 0
          | _ :: s' => countMatches r 0 s'
          end
      end
  end.

Definition matchCount (s : str) (r : regex) : nat := countMatches r 0 s.

(** ** JavaScript numbers

    A [number] is an IEEE-754 binary64 value; arithmetic rounds to nearest,
    ties to even. *)

Definition number := spec_float.

Definition prec : Z := 53.
Definition emax : Z := 1024.

Definition ofZ (z : Z) : number := binary_normalize prec emax z 0 false.

Definition mul : number -> number -> number := SFmul prec emax.
Definition div : number -> number -> number := SFdiv prec emax.
Definition add : number -> number -> number := SFadd prec emax.

(** [x < y], [x > y], [x <= y]: false when either side is NaN *)
Definition lt (x y : number) : bool := SFltb x y.
Definition gt (x y : number) : bool := SFltb y x.
Definition le (x y : number) : bool := SFleb x y.

(** [Math.floor] *)
Definition Math_floor (x : number) : number :=
  match x with
  | S754_finite s m e =>
      if (0 <=? e)%Z then x
      else
        match (cond_Zopp s (Zpos m) / 2 ^ (- e))%Z with
        | Z0 => S754_zero s
        | q => binary_normalize prec emax q 0 s
        end
  | _ => x
  end.

(** [Math.max] of two arguments: NaN if either is, and +0 above -0 *)
Definition Math_max (x y : number) : number :=
  match SFcompare x y with
  | None => S754_nan
  | Some Lt => y
  | Some Gt => x
  | Some Eq =>
      match x with
      | S754_zero true => y
      | _ => x
      end
  end.

(** *** Integers read from text

    [parseInt] yields NaN or an integer, kept here with its sign and
    magnitude (so that [-0] is not lost).  The number it stands for is
    [toNumber]; rounding is monotone and keeps every integer below 2^53, so
    the comparisons of the program, which are against 0, 100 and array
    lengths, are decided on the integer. *)

Inductive jsint :=
| NotANumber
| Int (neg : bool) (mag : N).

Definition intZ (neg : bool) (mag : N) : Z :=
  if neg then (- Z.of_N mag)%Z else Z.of_N mag.

Definition toNumber (j : jsint) : number :=
  match j with
  | NotANumber => S754_nan
  | Int neg N0 => S754_zero neg
  | Int neg (Npos p) => binary_round prec emax neg p 0
  end.

Definition isNaN (j : jsint) : bool :=
  match j with NotANumber => true | Int _ _ => false end.

(** [j < z], [j > z], [j <= z] for an integer [z] below 2^53 *)
Definition intLt (j : jsint) (z : Z) : bool :=
  match j with
  | NotANumber => false
  | Int neg mag => (intZ neg mag <? z)%Z
  end.

Definition intGt (j : jsint) (z : Z) : bool :=
  match j with
  | NotANumber => false
  | Int neg mag => (z <? intZ neg mag)%Z
  end.

Definition intLe (j : jsint) (z : Z) : bool :=
  match j with
  | NotANumber => false
  | Int neg mag => (intZ neg mag <=? z)%Z
  end.

Definition isWhiteSpace (c : ascii) : bool :=
  let n := nat_of_ascii c in
  ((9 <=? n) && (n <=? 13)) || (n =? 32) || (n =? 160).

Fixpoint trimStart (s : str) : str :=
  match s with
  | c :: s' => if isWhiteSpace c then trimStart s' else s
  | [] => []
  end.

Definition digitValue (radix : N) (c : ascii) : option N :=
  let n := N_of_ascii c in
  let v :=
    if ((48 <=? n) && (n <=? 57))%N then Some (n - 48)%N
    else if ((97 <=? n) && (n <=? 122))%N then Some (n - 87)%N
    else if ((65 <=? n) && (n <=? 90))%N then Some (n - 55)%N
    else None in
  match v with
  | Some d => if (d <? radix)%N then Some d else None
  | None => None
  end.

(** The value of the longest prefix of digits; [acc] is the value read so
    far, [None] while no digit has been read. *)
Fixpoint parseDigits (radix : N) (acc : option N) (s : str) : option N :=
  match s with
  | c :: s' =>
      match digitValue radix c with
      | Some d =>
          parseDigits radix
            (Some (radix * match acc with Some a => a | None => 0 end + d)%N) s'
      | None => acc
      end
  | [] => acc
  end.

(** [parseInt(s)] with no radix argument *)
Definition parseInt (s : str) : jsint :=
  let s1 := trimStart s in
  let '(neg, s2) :=
    match s1 with
    | "-"%char :: t => (true, t)
    | "+"%char :: t => (false, t)
    | _ => (false, s1)
    end in
  let '(radix, s3) :=
    match s2 with
    | "0"%char :: "x"%char :: t => (16%N, t)
    | "0"%char :: "X"%char :: t => (16%N, t)
    | _ => (10%N, s2)
    end in
  match parseDigits radix None s3 with
  | None => NotANumber
  | Some n => Int neg n
  end.

(** *** Numbers written as text *)

Definition decimalN (n : N) : str :=
  list_ascii_of_string (NilZero.string_of_uint (N.to_uint n)).

(** The integer a number is, when it is one *)
Definition integerValue (x : number) : option Z :=
  match x with
  | S754_zero _ => Some 0%Z
  | S754_finite s m e =>
      if (0 <=? e)%Z then Some (cond_Zopp s (Zpos m * 2 ^ e))%Z
      else if (Zpos m mod 2 ^ (- e) =? 0)%Z
           then Some (cond_Zopp s (Zpos m / 2 ^ (- e)))%Z
           else None
  | _ => None
  end.

(** What the language leaves to the engine: reading a decimal literal and
    choosing the digits of a number that is not an integer below 2^53. *)
Class Engine := {
  parseFloat : str -> number;
  toStringLong : number -> str
}.

Section Formatting.
Context {E : Engine}.

(** The text of a number in a template literal *)
Definition Number_toString (x : number) : str :=
  match x with
  | S754_nan => js "NaN"
  | S754_infinity false => js "Infinity"
  | S754_infinity true => js "-Infinity"
  | _ =>
      match integerValue x with
      | Some z =>
          if (Z.abs z <? 2 ^ 53)%Z
          then (if (z <? 0)%Z then js "-" else []) ++ decimalN (Z.abs_N z)
          else toStringLong x
      | None => toStringLong x
      end
  end.

(** The integer nearest to [x * 10^f] for a number [x >= 0], the larger one
    of two *)
Definition scaledNearest (x : number) (f : nat) : N :=
  match x with
  | S754_finite _ m e =>
      Z.to_N
        (if (0 <=? e)%Z then Zpos m * 2 ^ e * 10 ^ Z.of_nat f
         else (2 * Zpos m * 10 ^ Z.of_nat f + 2 ^ (- e)) / 2 ^ (1 - e))%Z
  | _ => 0%N
  end.

(** [x.toFixed(f)] *)
Definition toFixed (x : number) (f : nat) : str :=
  match x with
  | S754_nan | S754_infinity _ => Number_toString x
  | _ =>
      let sign := if lt x (S754_zero false) then js "-" else [] in
      let ax := SFabs x in
      if le (ofZ (10 ^ 21)) ax then sign ++ Number_toString ax
      else
        let digits := decimalN (scaledNearest ax f) in
        let padded := repeat "0"%char (f + 1 - length digits) ++ digits in
        let k := length padded in
        sign ++
        if f =? 0 then padded
        else firstn (k - f) padded ++ js "." ++ skipn (k - f) padded
  end.

End Formatting.

(** ** The state of the program and of its surroundings *)

Record SystemStatus := {
  walletConfigured : bool;
  rpcConfigured : bool;
  keypairsCreated : bool;
  poolBundleReady : bool;
  feeSettingsConfigured : bool
}.

Record FeeSettings := {
  minTipLamports : number;
  tipPercent : number;
  feeRecipient : str
}.

Record TransactionPreview := {
  baseFee : number;
  tipAmount : number;
  totalFee : number;
  estimatedCost : str
}.

(** What is found at [configPath]: nothing, a text file, or something that
    exists but cannot be read or written as a file (a directory). *)
Inductive file :=
| Missing
| Regular (content : str)
| Directory.

Inductive color := plain | cyan | yellow | green | red | gray | white.

(** What the terminal shows: [console.log(chalk.c(text))], the banner drawn
    by figlet, the question of a prompt, a cleared screen, and
    [console.error] of a caught exception. *)
Inductive event :=
| Log (c : color) (text : str)
| Figlet (c : color) (text : str)
| Ask (c : color) (text : str)
| ClearScreen
| ErrorLog (text : str) (detail : str).

Inductive error :=
| Error (message : str)
| TypeError (message : str)
| SystemError (message : str).

Definition message (e : error) : str :=
  match e with
  | Error m => m
  | TypeError m => m
  | SystemError m => m
  end.

Record state := {
  status : SystemStatus;        (* this.status *)
  feeSettings : FeeSettings;    (* this.feeSettings *)
  configFile : file;            (* the file system at this.configPath *)
  stdin : list str;             (* the lines the operator is still to type *)
  stdout : list event           (* printed so far, oldest first *)
}.

Definition withStatus (f : SystemStatus -> SystemStatus) (s : state) : state :=
  {| status := f (status s); feeSettings := feeSettings s;
     configFile := configFile s; stdin := stdin s; stdout := stdout s |}.

Definition withFeeSettings (v : FeeSettings) (s : state) : state :=
  {| status := status s; feeSettings := v;
     configFile := configFile s; stdin := stdin s; stdout := stdout s |}.

Definition withConfigFile (v : file) (s : state) : state :=
  {| status := status s; feeSettings := feeSettings s;
     configFile := v; stdin := stdin s; stdout := stdout s |}.

Definition withStdin (v : list str) (s : state) : state :=
  {| status := status s; feeSettings := feeSettings s;
     configFile := configFile s; stdin := v; stdout := stdout s |}.

Definition emit (e : event) (s : state) : state :=
  {| status := status s; feeSettings := feeSettings s;
     configFile := configFile s; stdin := stdin s; stdout := stdout s ++ [e] |}.

Definition setWalletConfigured (b : bool) (st : SystemStatus) : SystemStatus :=
  {| walletConfigured := b; rpcConfigured := rpcConfigured st;
     keypairsCreated := keypairsCreated st; poolBundleReady := poolBundleReady st;
     feeSettingsConfigured := feeSettingsConfigured st |}.

Definition setRpcConfigured (b : bool) (st : SystemStatus) : SystemStatus :=
  {| walletConfigured := walletConfigured st; rpcConfigured := b;
     keypairsCreated := keypairsCreated st; poolBundleReady := poolBundleReady st;
     feeSettingsConfigured := feeSettingsConfigured st |}.

Definition setKeypairsCreated (b : bool) (st : SystemStatus) : SystemStatus :=
  {| walletConfigured := walletConfigured st; rpcConfigured := rpcConfigured st;
     keypairsCreated := b; poolBundleReady := poolBundleReady st;
     feeSettingsConfigured := feeSettingsConfigured st |}.

Definition setPoolBundleReady (b : bool) (st : SystemStatus) : SystemStatus :=
  {| walletConfigured := walletConfigured st; rpcConfigured := rpcConfigured st;
     keypairsCreated := keypairsCreated st; poolBundleReady := b;
     feeSettingsConfigured := feeSettingsConfigured st |}.

Definition setFeeSettingsConfigured (b : bool) (st : SystemStatus) : SystemStatus :=
  {| walletConfigured := walletConfigured st; rpcConfigured := rpcConfigured st;
     keypairsCreated := keypairsCreated st; poolBundleReady := poolBundleReady st;
     feeSettingsConfigured := b |}.

(** ** The monad of the program

    A computation runs from a state to an outcome and a state.  It returns,
    throws, or stops: at a prompt when nothing more is typed, at
    [process.exit], or when the loop of the model has used its fuel.  The
    state survives a throw, as the effects of a JavaScript statement do. *)

Inductive halt :=
| AwaitingInput
| Exited (code : Z)
| OutOfFuel.

Inductive outcome (A : Type) :=
| Return (a : A)
| Throw (e : error)
| Halt (h : halt).

Arguments Return {A} a.
Arguments Throw {A} e.
Arguments Halt {A} h.

Definition M (A : Type) := state -> outcome A * state.

Definition ret {A} (a : A) : M A := fun s => (Return a, s).

Definition bind {A B} (m : M A) (f : A -> M B) : M B :=
  fun s =>
    match m s with
    | (Return a, s') => f a s'
    | (Throw e, s') => (Throw e, s')
    | (Halt h, s') => (Halt h, s')
    end.

Definition throw {A} (e : error) : M A := fun s => (Throw e, s).

Definition stop {A} (h : halt) : M A := fun s => (Halt h, s).

(** [try { m } catch (error) { handler }] *)
Definition tryCatch {A} (m : M A) (handler : error -> M A) : M A :=
  fun s =>
    match m s with
    | (Throw e, s') => handler e s'
    | r => r
    end.

Declare Scope js_scope.
Delimit Scope js_scope with js_m.
Bind Scope js_scope with M.

Notation "x <- m ;; k" := (bind m (fun x => k))
  (at level 61, m at next level, right associativity) : js_scope.
Notation "m ;; k" := (bind m (fun _ => k))
  (at level 61, right associativity) : js_scope.

Open Scope js_scope.

Definition get {A} (f : state -> A) : M A := fun s => (Return (f s), s).

Definition modify (f : state -> state) : M unit := fun s => (Return tt, f s).

(** [if (c) m] *)
Definition when (c : bool) (m : M unit) : M unit := if c then m else ret tt.

(** [xs.forEach((x, index) => body)] *)
Fixpoint forEach {A} (body : A -> nat -> M unit) (index : nat) (xs : list A) : M unit :=
  match xs with
  | [] => ret tt
  | x :: xs' => body x index ;; forEach body (S index) xs'
  end.

(** *** Terminal *)

Definition log (c : color) (text : string) : M unit :=
  modify (emit (Log c (js text))).

Definition logText (c : color) (text : str) : M unit :=
  modify (emit (Log c text)).

(** [console.log(chalk.c(text), detail)]: the two arguments are printed with
    a space between them *)
Definition logWith (c : color) (text : string) (detail : str) : M unit :=
  modify (emit (Log c (js text ++ js " " ++ detail))).

(** [prompt(chalk.c(question))]: the next line typed, without its end *)
Definition prompt (c : color) (question : string) : M str :=
  modify (emit (Ask c (js question))) ;;
  input <- get stdin ;;
  match input with
  | [] => stop AwaitingInput
  | line :: rest => modify (withStdin rest) ;; ret line
  end.

Definition clearScreen : M unit := modify (emit ClearScreen).

(** *** File system at [configPath] *)

Definition existsSync : M bool :=
  f <- get configFile ;;
  ret match f with Missing => false | _ => true end.

Definition readFileSync : M str :=
  f <- get configFile ;;
  match f with
  | Regular content => ret content
  | Missing => throw (SystemError (js "ENOENT: no such file or directory"))
  | Directory => throw (SystemError (js "EISDIR: illegal operation on a directory"))
  end.

Definition writeFileSync (content : str) : M unit :=
  f <- get configFile ;;
  match f with
  | Directory => throw (SystemError (js "EISDIR: illegal operation on a directory"))
  | _ => modify (withConfigFile (Regular content))
  end.

(** ** The class [CLI] *)

Definition LAMPORTS_PER_SOL : number := ofZ 1000000000.

(** The pattern [/KEY=.*/]; the keys are made of letters and underscores,
    which stand for themselves also in [new RegExp(`${key}=.*`)]. *)
Definition keyLine (key : str) : regex :=
  literal key ++ [One (Chr "="%char); Star Dot].

(** The pattern [/WALLET_\d+_PRIVATE_KEY/g] *)
Definition numberedWalletKey : regex :=
  literal (js "WALLET_") ++ [One Digit; Star Digit] ++ literal (js "_PRIVATE_KEY").

(** The field initialisers of the constructor *)
Definition initialStatus : SystemStatus :=
  {| walletConfigured := false; rpcConfigured := false; keypairsCreated := false;
     poolBundleReady := false; feeSettingsConfigured := false |}.

Definition defaultFeeSettings : FeeSettings :=
  {| minTipLamports := ofZ 10000; tipPercent := ofZ 50;
     feeRecipient := js "CebN5WGQ4jvEPvsVU4EoHEpgzq1VV7AbicfhtW4xC9iM" |}.

Definition loadStatus : M unit :=
  present <- existsSync ;;
  if present then
    config <- readFileSync ;;
    modify (withStatus (setWalletConfigured (includes config (js "WALLET_PRIVATE_KEY=")))) ;;
    modify (withStatus (setRpcConfigured (includes config (js "RPC_URL=")))) ;;
    modify (withStatus (setFeeSettingsConfigured
      (includes config (js "MIN_TIP_LAMPORTS=") &&
       includes config (js "TIP_PERCENT=") &&
       includes config (js "FEE_RECIPIENT="))))
  else ret tt.

(** [new CLI()]: the fields are initialised, then [loadStatus] runs. *)
Definition constructor : M unit :=
  modify (withStatus (fun _ => initialStatus)) ;;
  modify (withFeeSettings defaultFeeSettings) ;;
  loadStatus.

Definition displayHeader : M unit :=
  modify (emit (Figlet cyan (js "PumpFun Bundler"))) ;;
  log yellow "\nWelcome to PumpFun Bundler CLI\n".

Definition getStatusIndicator (configured : bool) : str :=
  if configured then js "✓" else js "✗".

Definition displayStatus : M unit :=
  st <- get status ;;
  log cyan "\nSystem Status:" ;;
  logText plain (getStatusIndicator (walletConfigured st) ++ js " Wallet Configuration") ;;
  logText plain (getStatusIndicator (rpcConfigured st) ++ js " RPC Configuration") ;;
  logText plain (getStatusIndicator (keypairsCreated st) ++ js " Keypairs Created") ;;
  logText plain (getStatusIndicator (poolBundleReady st) ++ js " Pool Bundle Ready") ;;
  logText plain (getStatusIndicator (feeSettingsConfigured st) ++ js " Fee Settings") ;;
  log plain "".

Definition displayMenu : M unit :=
  log green "\nMain Menu:" ;;
  log white "1. Configure Wallet" ;;
  log white "2. Configure RPC" ;;
  log white "3. Create Keypairs" ;;
  log white "4. Configure Fee Settings" ;;
  log white "5. Create Pool Bundle" ;;
  log white "6. View Configuration" ;;
  log white "7. Manage Wallets" ;;
  log red "8. Exit".

Definition pressEnterToContinue : M unit :=
  log gray "\nPress Enter to continue..." ;;
  _ <- prompt plain "" ;;
  ret tt.

Definition handleConfigureWallet : M unit :=
  log cyan "\n=== Configure Wallet ===" ;;
  log gray "Enter your wallet private key in base58 format." ;;
  log gray "This key will be used for deploying and managing your token." ;;
  walletKey <- prompt yellow "\nEnter your wallet private key: " ;;
  (if truthy walletKey then
     tryCatch
       (when (length walletKey <? 32) (throw (Error (js "Invalid key format"))) ;;
        present <- existsSync ;;
        envContent <- (if present then readFileSync else ret []) ;;
        let envContent :=
          if includes envContent (js "WALLET_PRIVATE_KEY=")
          then replace envContent (keyLine (js "WALLET_PRIVATE_KEY"))
                 (js "WALLET_PRIVATE_KEY=" ++ walletKey)
          else envContent ++ js "\nWALLET_PRIVATE_KEY=" ++ walletKey in
        writeFileSync envContent ;;
        modify (withStatus (setWalletConfigured true)) ;;
        log green "\n✓ Wallet configured successfully")
       (fun error => logWith red "\n✗ Error configuring wallet:" (message error))
   else log red "\n✗ Invalid wallet key") ;;
  pressEnterToContinue.

Definition handleConfigureRPC : M unit :=
  log cyan "\n=== Configure RPC ===" ;;
  log gray "Enter your Solana RPC URL." ;;
  log gray "You can use public RPCs or your own node." ;;
  rpcUrl <- prompt yellow "\nEnter your RPC URL: " ;;
  (if truthy rpcUrl then
     tryCatch
       (present <- existsSync ;;
        envContent <- (if present then readFileSync else ret []) ;;
        let envContent :=
          if includes envContent (js "RPC_URL=")
          then replace envContent (keyLine (js "RPC_URL")) (js "RPC_URL=" ++ rpcUrl)
          else envContent ++ js "\nRPC_URL=" ++ rpcUrl in
        writeFileSync envContent ;;
        modify (withStatus (setRpcConfigured true)) ;;
        log green "\n✓ RPC configured successfully")
       (fun error => logWith red "\n✗ Error configuring RPC:" (message error))
   else log red "\n✗ Invalid RPC URL") ;;
  pressEnterToContinue.

Section Handlers.
Context {E : Engine}.

Definition calculateTransactionPreview (this : FeeSettings) (amount : number)
  : TransactionPreview :=
  let baseFee := ofZ 5000 in
  let tipAmount :=
    Math_max (minTipLamports this)
             (Math_floor (mul amount (div (tipPercent this) (ofZ 100)))) in
  let totalFee := add baseFee tipAmount in
  {| baseFee := baseFee;
     tipAmount := tipAmount;
     totalFee := totalFee;
     estimatedCost := toFixed (div totalFee LAMPORTS_PER_SOL) 6 ++ js " SOL" |}.

Definition displayFeePreview (preview : TransactionPreview) : M unit :=
  log cyan "\n=== Transaction Fee Preview ===" ;;
  log gray "Estimated costs for this transaction:" ;;
  logText white (js "Base Fee: " ++ toFixed (div (baseFee preview) LAMPORTS_PER_SOL) 6 ++ js " SOL") ;;
  logText white (js "Tip Amount: " ++ toFixed (div (tipAmount preview) LAMPORTS_PER_SOL) 6 ++ js " SOL") ;;
  logText green (js "Total Estimated Cost: " ++ estimatedCost preview) ;;
  this <- get feeSettings ;;
  logText gray (js "Fee Recipient: " ++ feeRecipient this).

(** The body of the [forEach] over the three settings: replace the line of
    the key when the key is found, append a line otherwise. *)
Definition upsertSetting (envContent setting : str) : str :=
  let key := hd [] (split "="%char setting) in
  if includes envContent (key ++ js "=")
  then replace envContent (keyLine key) setting
  else envContent ++ js "\n" ++ setting.

Definition handleConfigureFees : M unit :=
  log cyan "\n=== Configure Fee Settings ===" ;;
  log gray "Configure your MEV bundle fee settings." ;;
  tryCatch
    (answer1 <- prompt yellow "\nEnter minimum tip in lamports (default: 10000): " ;;
     let minTipLamports := parseInt (orElse answer1 (js "10000")) in
     answer2 <- prompt yellow "Enter tip percentage (default: 50): " ;;
     let tipPercent := parseInt (orElse answer2 (js "50")) in
     answer3 <- prompt yellow "Enter fee recipient address (default: CebN5WGQ4jvEPvsVU4EoHEpgzq1VV7AbicfhtW4xC9iM): " ;;
     let feeRecipient := orElse answer3 (js "CebN5WGQ4jvEPvsVU4EoHEpgzq1VV7AbicfhtW4xC9iM") in
     when (intLt minTipLamports 0)
       (throw (Error (js "Minimum tip cannot be negative"))) ;;
     when (intLt tipPercent 0 || intGt tipPercent 100)
       (throw (Error (js "Tip percentage must be between 0 and 100"))) ;;
     when (length feeRecipient <? 32)
       (throw (Error (js "Invalid fee recipient address"))) ;;
     let sampleAmount := mul (ofZ 1) LAMPORTS_PER_SOL in
     this <- get feeSettings ;;
     displayFeePreview (calculateTransactionPreview this sampleAmount) ;;
     present <- existsSync ;;
     envContent <- (if present then readFileSync else ret []) ;;
     let settings :=
       [ js "MIN_TIP_LAMPORTS=" ++ Number_toString (toNumber minTipLamports);
         js "TIP_PERCENT=" ++ Number_toString (toNumber tipPercent);
         js "FEE_RECIPIENT=" ++ feeRecipient ] in
     let envContent := fold_left upsertSetting settings envContent in
     writeFileSync envContent ;;
     modify (withStatus (setFeeSettingsConfigured true)) ;;
     modify (withFeeSettings
       {| minTipLamports := toNumber minTipLamports;
          tipPercent := toNumber tipPercent;
          feeRecipient := feeRecipient |}) ;;
     log green "\n✓ Fee settings configured successfully")
    (fun error => logWith red "\n✗ Error configuring fee settings:" (message error)) ;;
  pressEnterToContinue.

End Handlers.

(** [xs[j - 1]]: undefined unless [j - 1] is an index of [xs] *)
Definition atMinusOne {A} (xs : list A) (j : jsint) : option A :=
  match j with
  | Int false (Npos p) => nth_error xs (Pos.to_nat p - 1)
  | _ => None
  end.

(** [line !== w], where [w] may be undefined *)
Definition differs (w : option str) (line : str) : bool :=
  match w with
  | Some v => negb (streq line v)
  | None => true
  end.

(** A value that may be undefined, inside a template literal *)
Definition template (v : option str) : str :=
  match v with
  | Some s => s
  | None => js "undefined"
  end.

Definition isWalletLine (line : str) : bool := startsWith line (js "WALLET_").

(** The function given to [walletLines.forEach]: [value] is undefined for a
    line without [=], and taking a slice of it throws. *)
Definition showWallet (line : str) (index : nat) : M unit :=
  let parts := split "="%char line in
  let key := hd [] parts in
  let value := nth_error parts 1 in
  let isPrimary := streq key (js "WALLET_PRIVATE_KEY") in
  logText white (js "\n" ++ decimal (index + 1) ++ js ". " ++
                 (if isPrimary then js "Primary Wallet" else js "Additional Wallet")) ;;
  match value with
  | None =>
      throw (TypeError (js "Cannot read properties of undefined (reading 'slice')"))
  | Some v =>
      logText gray (js "Public Key: " ++ sliceTo 8 v ++ js "..." ++ sliceLast 8 v)
  end.

Definition viewWallets : M unit :=
  log cyan "\n=== Configured Wallets ===" ;;
  present <- existsSync ;;
  if present then
    config <- readFileSync ;;
    let walletLines := filter isWalletLine (split LF config) in
    if length walletLines =? 0 then log yellow "\nNo wallets configured"
    else forEach showWallet 0 walletLines
  else log yellow "\nNo configuration file found".

Definition addWallet : M unit :=
  log cyan "\n=== Add New Wallet ===" ;;
  log gray "Enter the private key for the new wallet." ;;
  walletKey <- prompt yellow "\nEnter wallet private key: " ;;
  if truthy walletKey then
    tryCatch
      (when (length walletKey <? 32) (throw (Error (js "Invalid key format"))) ;;
       present <- existsSync ;;
       envContent <- (if present then readFileSync else ret []) ;;
       let walletCount := matchCount envContent numberedWalletKey in
       let newWalletKey := js "WALLET_" ++ decimal (walletCount + 1) ++ js "_PRIVATE_KEY" in
       let envContent := envContent ++ js "\n" ++ newWalletKey ++ js "=" ++ walletKey in
       writeFileSync envContent ;;
       log green "\n✓ Additional wallet added successfully")
      (fun error => logWith red "\n✗ Error adding wallet:" (message error))
  else ret tt.

Definition removeWallet : M unit :=
  log cyan "\n=== Remove Wallet ===" ;;
  viewWallets ;;
  answer <- prompt yellow "\nEnter the number of the wallet to remove: " ;;
  let walletIndex := parseInt (orElse answer (js "0")) in
  if intGt walletIndex 0 then
    tryCatch
      (envContent <- readFileSync ;;
       let lines := split LF envContent in
       let walletLines := filter isWalletLine lines in
       if intLe walletIndex (Z.of_nat (length walletLines)) then
         let walletToRemove := atMinusOne walletLines walletIndex in
         let envContent := join (js "\n") (filter (differs walletToRemove) lines) in
         writeFileSync envContent ;;
         log green "\n✓ Wallet removed successfully"
       else throw (Error (js "Invalid wallet number")))
      (fun error => logWith red "\n✗ Error removing wallet:" (message error))
  else ret tt.

Definition setPrimaryWallet : M unit :=
  log cyan "\n=== Set Primary Wallet ===" ;;
  viewWallets ;;
  answer <- prompt yellow "\nEnter the number of the wallet to set as primary: " ;;
  let walletIndex := parseInt (orElse answer (js "0")) in
  if intGt walletIndex 0 then
    tryCatch
      (envContent <- readFileSync ;;
       let lines := split LF envContent in
       let walletLines := filter isWalletLine lines in
       if intLe walletIndex (Z.of_nat (length walletLines)) then
         match atMinusOne walletLines walletIndex with
         | None =>
             throw (TypeError (js "Cannot read properties of undefined (reading 'split')"))
         | Some selectedWallet =>
             let value := nth_error (split "="%char selectedWallet) 1 in
             let envContent :=
               if includes envContent (js "WALLET_PRIVATE_KEY=")
               then replace envContent (keyLine (js "WALLET_PRIVATE_KEY"))
                      (js "WALLET_PRIVATE_KEY=" ++ template value)
               else envContent ++ js "\nWALLET_PRIVATE_KEY=" ++ template value in
             writeFileSync envContent ;;
             modify (withStatus (setWalletConfigured true)) ;;
             log green "\n✓ Primary wallet updated successfully"
         end
       else throw (Error (js "Invalid wallet number")))
      (fun error => logWith red "\n✗ Error setting primary wallet:" (message error))
  else ret tt.

Definition handleManageWallets : M unit :=
  log cyan "\n=== Wallet Management ===" ;;
  log gray "Manage your wallet configurations." ;;
  log white "\n1. View All Wallets" ;;
  log white "2. Add New Wallet" ;;
  log white "3. Remove Wallet" ;;
  log white "4. Set Primary Wallet" ;;
  log white "5. Back to Main Menu" ;;
  choice <- prompt yellow "\nChoose an option (1-5): " ;;
  if streq choice (js "1") then viewWallets ;; pressEnterToContinue
  else if streq choice (js "2") then addWallet ;; pressEnterToContinue
  else if streq choice (js "3") then removeWallet ;; pressEnterToContinue
  else if streq choice (js "4") then setPrimaryWallet ;; pressEnterToContinue
  else if streq choice (js "5") then ret tt
  else log red "\n✗ Invalid option" ;; pressEnterToContinue.

Section Menu.
Context {E : Engine}.

Definition handleCreateKeypairs : M unit :=
  st <- get status ;;
  if negb (walletConfigured st) || negb (rpcConfigured st) then
    log red "\n✗ Missing Requirements:" ;;
    when (negb (walletConfigured st)) (log yellow "- Wallet not configured") ;;
    when (negb (rpcConfigured st)) (log yellow "- RPC not configured") ;;
    pressEnterToContinue
  else
    log cyan "\n=== Create Keypairs ===" ;;
    log gray "Enter the number of keypairs to create." ;;
    log gray "These will be used for the pool bundle." ;;
    answer <- prompt yellow "\nEnter number of keypairs to create: " ;;
    let numKeypairs := parseInt answer in
    (if isNaN numKeypairs || intLe numKeypairs 0 then log red "\n✗ Invalid number"
     else
       tryCatch
         (modify (withStatus (setKeypairsCreated true)) ;;
          logText green (js "\n✓ Created " ++ Number_toString (toNumber numKeypairs) ++
                         js " keypairs successfully"))
         (fun error => logWith red "\n✗ Error creating keypairs:" (message error))) ;;
    pressEnterToContinue.

Definition handleCreatePoolBundle : M unit :=
  st <- get status ;;
  if negb (walletConfigured st) || negb (rpcConfigured st) || negb (keypairsCreated st) then
    log red "\n✗ Missing Requirements:" ;;
    when (negb (walletConfigured st)) (log yellow "- Wallet not configured") ;;
    when (negb (rpcConfigured st)) (log yellow "- RPC not configured") ;;
    when (negb (keypairsCreated st)) (log yellow "- Keypairs not created") ;;
    pressEnterToContinue
  else
    log cyan "\n=== Create Pool Bundle ===" ;;
    log green "All requirements met!" ;;
    log gray "\nThis will create a pool bundle with your configured settings." ;;
    answer <- prompt yellow "\nEnter transaction amount in SOL: " ;;
    let amount := parseFloat (orElse answer (js "0")) in
    when (gt amount (S754_zero false))
      (this <- get feeSettings ;;
       displayFeePreview (calculateTransactionPreview this (mul amount LAMPORTS_PER_SOL))) ;;
    proceed <- prompt yellow "\nProceed with pool bundle creation? (y/n): " ;;
    (if streq (toLowerCase proceed) (js "y") then
       tryCatch
         (modify (withStatus (setPoolBundleReady true)) ;;
          log green "\n✓ Pool bundle created successfully")
         (fun error => logWith red "\n✗ Error creating pool bundle:" (message error))
     else log yellow "\nPool bundle creation cancelled") ;;
    pressEnterToContinue.

Definition handleViewConfiguration : M unit :=
  log cyan "\n=== Current Configuration ===" ;;
  displayStatus ;;
  present <- existsSync ;;
  (if present then
     config <- readFileSync ;;
     log gray "\nConfiguration File Contents:" ;;
     logText gray config
   else log yellow "\nNo configuration file found") ;;
  pressEnterToContinue.

(** The loop of [start].  Every turn reads the menu choice, so a loop given
    more turns than there are lines to type never runs out of them. *)
Fixpoint menuLoop (fuel : nat) : M unit :=
  match fuel with
  | 0 => stop OutOfFuel
  | S fuel' =>
      clearScreen ;;
      displayHeader ;;
      displayStatus ;;
      displayMenu ;;
      answer <- prompt yellow "\nChoose an option (1-8): " ;;
      if streq answer (js "1") then handleConfigureWallet ;; menuLoop fuel'
      else if streq answer (js "2") then handleConfigureRPC ;; menuLoop fuel'
      else if streq answer (js "3") then handleCreateKeypairs ;; menuLoop fuel'
      else if streq answer (js "4") then handleConfigureFees ;; menuLoop fuel'
      else if streq answer (js "5") then handleCreatePoolBundle ;; menuLoop fuel'
      else if streq answer (js "6") then handleViewConfiguration ;; menuLoop fuel'
      else if streq answer (js "7") then handleManageWallets ;; menuLoop fuel'
      else if streq answer (js "8") then
        log yellow "\nThank you for using PumpFun Bundler!"
      else
        log red "\nInvalid option. Please choose a number between 1 and 8." ;;
        pressEnterToContinue ;;
        menuLoop fuel'
  end.

Definition start : M unit :=
  input <- get stdin ;;
  menuLoop (S (length input)).

(** [main] of main.ts: the instance is made and started; whatever is thrown
    is printed and the process exits with code 1. *)
Definition main : M unit :=
  tryCatch
    (constructor ;; start)
    (fun error =>
       modify (emit (ErrorLog (js "Fatal error:") (message error))) ;;
       stop (Exited 1)).

End Menu.

(** The process before [main]: nothing printed, the file [f] at the
    configuration path, the lines [input] to be typed. *)
Definition boot (f : file) (input : list str) : state :=
  {| status := initialStatus; feeSettings := defaultFeeSettings;
     configFile := f; stdin := input; stdout := [] |}.

(** The exit code of the process, once it has one: 0 when [main] returns. *)
Definition exitCode {A} (o : outcome A) : option Z :=
  match o with
  | Return _ => Some 0%Z
  | Halt (Exited code) => Some code
  | _ => None
  end.

(** ** The configuration module (config.ts)

    The module reads the [.env] file that lies next to it when it is
    loaded, and keeps three of its settings.  The keypairs and the
    connection it then builds come from the Solana library; of those the
    choice between a configured and a generated keypair is kept here, and
    whether the library call returns or throws. *)

(** [s.trim()] *)
Definition trimEnd (s : str) : str := rev (trimStart (rev s)).

Definition trim (s : str) : str := trimEnd (trimStart s).

(** The object [acc] of the [reduce], as the list of the assignments made
    to it, the latest first.  It starts as [{}], so assigning a string to
    [__proto__] does nothing; and the three names the module reads are not
    inherited, so reading one gives the latest assignment to it or
    undefined. *)
Definition envObject := list (str * str).

Definition assign (acc : envObject) (key value : str) : envObject :=
  if streq key (js "__proto__") then acc else (key, value) :: acc.

Fixpoint property (acc : envObject) (key : str) : option str :=
  match acc with
  | [] => None
  | (k, v) :: older => if streq k key then Some v else property older key
  end.

(** The function given to [reduce]: [key] and [value] are the first two of
    the trimmed parts of the line, and [value] is undefined for a line
    without [=]. *)
Definition readLine (acc : envObject) (line : str) : envObject :=
  let parts := map trim (split "="%char line) in
  match nth_error parts 0, nth_error parts 1 with
  | Some key, Some value =>
      if truthy key && truthy value then assign acc key value else acc
  | _, _ => acc
  end.

Definition envConfigOf (content : str) : envObject :=
  fold_left readLine (split LF content) [].

(** [envConfig.KEY || ""] *)
Definition orEmpty (v : option str) : str :=
  match v with
  | Some s => orElse s []
  | None => []
  end.

Record Settings := {
  walletKey : str;
  payerKey : str;
  rpcUrl : str
}.

Definition noSettings : Settings :=
  {| walletKey := []; payerKey := []; rpcUrl := [] |}.

(** The three variables after the module has read the file [f], and the
    error given to [console.warn] when reading it failed. *)
Definition loadSettings (f : file) : Settings * option error :=
  match f with
  | Missing => (noSettings, None)
  | Directory =>
      (noSettings, Some (SystemError (js "EISDIR: illegal operation on a directory")))
  | Regular content =>
      let envConfig := envConfigOf content in
      ({| walletKey := orEmpty (property envConfig (js "WALLET_PRIVATE_KEY"));
          payerKey := orEmpty (property envConfig (js "PAYER_PRIVATE_KEY"));
          rpcUrl := orEmpty (property envConfig (js "RPC_URL")) |}, None)
  end.

(** Where a keypair comes from: [Keypair.fromSecretKey(bs58.decode(key))]
    or [Keypair.generate()] *)
Inductive keySource :=
| FromSecretKey (key : str)
| Generated.

Definition keypairOf (key : str) : keySource :=
  if truthy key then FromSecretKey key else Generated.

(** The expressions that initialise [wallet], [payer] and [rpc]: the call
    each of them makes, as a function of the three variables.  Whether the
    call returns is settled by [loadModule] below. *)
Definition wallet (c : Settings) : keySource := keypairOf (walletKey c).
Definition payer (c : Settings) : keySource := keypairOf (payerKey c).

Definition rpc (c : Settings) : str :=
  orElse (rpcUrl c) (js "https://api.mainnet-beta.solana.com").

(** The initialisers run in the order of the source, and a call into the
    Solana library that throws ends the loading of the module there, before
    the exports that follow exist: [Keypair.fromSecretKey(bs58.decode(key))]
    for a text that is not the base-58 form of a secret key, and
    [new Connection(rpc, "confirmed")] for an endpoint the library does not
    take.  Which texts those are is the library's matter; the two calls are
    parameters here, each given by the texts it returns on.  The model ends
    with the connection: the public keys built after it are built from
    constants of the source and are left out. *)
Inductive initialiser :=
| WalletInitialiser
| PayerInitialiser
| ConnectionInitialiser.

Inductive module :=
| Exports (deployer feePayer : keySource) (endpoint : str)
| Thrown (origin : initialiser).

Section Module.

(** [Keypair.fromSecretKey(bs58.decode(key))] returns *)
Variable decodes : str -> bool.

(** [new Connection(endpoint, "confirmed")] returns *)
Variable connects : str -> bool.

Definition returns (k : keySource) : bool :=
  match k with
  | FromSecretKey key => decodes key
  | Generated => true
  end.

Definition loadModule (f : file) : module :=
  let c := fst (loadSettings f) in
  if negb (returns (wallet c)) then Thrown WalletInitialiser
  else if negb (returns (payer c)) then Thrown PayerInitialiser
  else if negb (connects (rpc c)) then Thrown ConnectionInitialiser
  else Exports (wallet c) (payer c) (rpc c).

End Module.

(** ** Vocabulary of the properties *)

(** An engine for running the program on concrete inputs: it reads every
    amount as NaN and prints nothing for the numbers left to it. *)
Definition plainEngine : Engine :=
  {| parseFloat := fun _ => S754_nan; toStringLong := fun _ => [] |}.

(** [n] occurs in [s] as a substring. *)
Definition occursIn (n s : str) : Prop := exists pre post, s = pre ++ n ++ post.

(** A status flag is derived from the file by substring search for the
    keys [keys]: after the constructor it is true exactly when each of them
    occurs in the content. *)
Definition derivedFrom (flag : SystemStatus -> bool) (keys : list str) : Prop :=
  forall content input,
    flag (status (snd (constructor (boot (Regular content) input)))) = true <->
    Forall (fun key => occursIn key content) keys.

(** The text the handlers work on: the content of the file, the empty text
    when there is no file. *)
Definition fileText (f : file) : option str :=
  match f with
  | Missing => Some []
  | Regular content => Some content
  | Directory => None
  end.

(** The key of a line: what stands before its first [=]. *)
Definition lineKey (line : str) : str := hd [] (split "="%char line).

(** The lines of a text that have the key [key] *)
Definition linesWithKey (key : str) (content : str) : list str :=
  filter (fun line => streq (lineKey line) key) (split LF content).

(** In the words of the claim about added wallets: the text [t] begins
    with [WALLET_<digits>_PRIVATE_KEY], and the number of places of a text
    at which such a name begins.  Neither definition uses the regular
    expression. *)
Definition beginsNumberedKey (t : str) : Prop :=
  exists digits rest,
    digits <> [] /\ Forall (fun c => isDigit c = true) digits /\
    t = js "WALLET_" ++ digits ++ js "_PRIVATE_KEY" ++ rest.

Fixpoint dropDigits (s : str) : str :=
  match s with
  | c :: s' => if isDigit c then dropDigits s' else s
  | [] => []
  end.

Definition numberedKeyAt (t : str) : bool :=
  startsWith t (js "WALLET_") &&
  match skipn 7 t with
  | c :: u => isDigit c && startsWith (dropDigits u) (js "_PRIVATE_KEY")
  | [] => false
  end.

Fixpoint occurrencesOfNumberedKey (s : str) : nat :=
  (if numberedKeyAt s then 1 else 0) +
  match s with
  | [] => 0
  | _ :: s' => occurrencesOfNumberedKey s'
  end.

Definition notW (c : ascii) : Prop := c <> "W"%char.

(** In the words of the claim about removed wallets: the lines without the
    line that is the [k]-th one beginning with [WALLET_], counting from 0;
    every other line stays, in its place. *)
Fixpoint dropKthWalletLine (k : nat) (lines : list str) : list str :=
  match lines with
  | [] => []
  | line :: rest =>
      if isWalletLine line then
        match k with
        | 0 => rest
        | S k' => line :: dropKthWalletLine k' rest
        end
      else line :: dropKthWalletLine k rest
  end.

(** The double with sign [s] and magnitude the integer [p], for [p] below
    2^53, written out: a mantissa of 53 bits and the exponent that goes
    with it. *)
Definition normalForm (s : bool) (p : positive) : number :=
  let d := Zpos (digits2_pos p) in
  S754_finite s (Z.to_pos (Zpos p * 2 ^ (53 - d))) (d - 53).

(** Equality of doubles as data (not [==]: NaN equals NaN here, and the
    two zeros differ) *)
Definition sameNumber (x y : number) : bool :=
  match x, y with
  | S754_zero a, S754_zero b => Bool.eqb a b
  | S754_infinity a, S754_infinity b => Bool.eqb a b
  | S754_nan, S754_nan => true
  | S754_finite a m e, S754_finite b n f => Bool.eqb a b && Pos.eqb m n && Z.eqb e f
  | _, _ => false
  end.

(** What a starred dot leaves of a text: the text from its first line
    terminator on. *)
Fixpoint restOfLine (s : str) : str :=
  match s with
  | c :: s' => if isLineTerminator c then s else restOfLine s'
  | [] => []
  end.

(** A state with more printed *)
Definition printing (events : list event) (s : state) : state :=
  {| status := status s; feeSettings := feeSettings s;
     configFile := configFile s; stdin := stdin s;
     stdout := stdout s ++ events |}.

Definition str_eq_dec : forall a b : str, {a = b} + {a <> b} :=
  list_eq_dec ascii_dec.

(** The integer an answer was read as, if it was read as one *)
Definition intValue (j : jsint) : option Z :=
  match j with
  | NotANumber => None
  | Int neg mag => Some (intZ neg mag)
  end.

(** No flag goes from true to false. *)
Definition statusLe (a b : SystemStatus) : Prop :=
  (walletConfigured a = true -> walletConfigured b = true) /\
  (rpcConfigured a = true -> rpcConfigured b = true) /\
  (keypairsCreated a = true -> keypairsCreated b = true) /\
  (poolBundleReady a = true -> poolBundleReady b = true) /\
  (feeSettingsConfigured a = true -> feeSettingsConfigured b = true).

(** A computation keeps the relation [R] between the state it starts from
    and the state it leaves, however it ends. *)
Definition preserves (R : state -> state -> Prop) {A} (m : M A) : Prop :=
  forall s, R s (snd (m s)).

(** A relation between the state before and the state after that is kept
    along a run: reflexive and transitive. *)
Class Invariant (R : state -> state -> Prop) : Prop := {
  inv_refl : forall s, R s s;
  inv_trans : forall a b c, R a b -> R b c -> R a c
}.

(** Relations that do not look at what is printed, at what is still to be
    typed, at the file, at the fee settings *)
Class IgnoresOutput (R : state -> state -> Prop) : Prop :=
  ignores_output : forall s e, R s (emit e s).
Class IgnoresInput (R : state -> state -> Prop) : Prop :=
  ignores_input : forall s v, R s (withStdin v s).
Class IgnoresFile (R : state -> state -> Prop) : Prop :=
  ignores_file : forall s v, R s (withConfigFile v s).
Class IgnoresFees (R : state -> state -> Prop) : Prop :=
  ignores_fees : forall s v, R s (withFeeSettings v s).

(** A computation never stops for want of fuel. *)
Definition outOfFuel {A} (o : outcome A) : bool :=
  match o with
  | Halt OutOfFuel => true
  | _ => false
  end.

Definition fuelled {A} (m : M A) : Prop :=
  forall s, outOfFuel (fst (m s)) = false.

(** Relations between the state before and the state after *)
Definition statusGrows (s s' : state) : Prop := statusLe (status s) (status s').
Definition sameStatus (s s' : state) : Prop := status s' = status s.
Definition sameFile (s s' : state) : Prop := configFile s' = configFile s.
Definition sameFees (s s' : state) : Prop := feeSettings s' = feeSettings s.
Definition inputShrinks (s s' : state) : Prop := length (stdin s') <= length (stdin s).
Definition outputGrows (s s' : state) : Prop :=
  exists more, stdout s' = stdout s ++ more.

(** Running forward: flags only rise, nothing is typed into the input,
    nothing printed is erased. *)
Definition runsForward (s s' : state) : Prop :=
  statusGrows s s' /\ inputShrinks s s' /\ outputGrows s s'.

(** What was printed between two states *)
Definition printedSince (s s' : state) : list event :=
  skipn (length (stdout s)) (stdout s').

(** The checklists of missing requirements, and the lines of
    [pressEnterToContinue] *)
Definition missingForKeypairs (st : SystemStatus) : list event :=
  Log red (js "\n✗ Missing Requirements:") ::
  (if walletConfigured st then [] else [Log yellow (js "- Wallet not configured")]) ++
  (if rpcConfigured st then [] else [Log yellow (js "- RPC not configured")]).

Definition missingForBundle (st : SystemStatus) : list event :=
  missingForKeypairs st ++
  (if keypairsCreated st then [] else [Log yellow (js "- Keypairs not created")]).

Definition pressEnterLines : list event :=
  [Log gray (js "\nPress Enter to continue..."); Ask plain (js "")].

(** An error message: a red line that starts with the cross. *)
Definition isErrorLine (e : event) : bool :=
  match e with
  | Log red text => startsWith text (js "\n✗")
  | _ => false
  end.

Definition reportsError (events : list event) : Prop :=
  exists e, In e events /\ isErrorLine e = true.

(** The line [line] assigns the value [value] to the key [key]: its first
    two parts, trimmed, are [key] and [value], and neither is empty. *)
Definition assigns (line key value : str) : Prop :=
  exists rawKey rawValue more,
    split "="%char line = rawKey :: rawValue :: more /\
    trim rawKey = key /\ trim rawValue = value /\ key <> [] /\ value <> [].

(** The value [value] is the one the lines give to [key]: some line
    assigns it, and no later line assigns anything to [key]. *)
Definition lastAssigned (lines : list str) (key value : str) : Prop :=
  exists before line after,
    lines = before ++ line :: after /\
    assigns line key value /\
    Forall (fun later => forall v, ~ assigns later key v) after.

(** What is still to be typed after a run is the end of what was to be
    typed before it. *)
Definition inputConsumed (s s' : state) : Prop :=
  exists used, stdin s = used ++ stdin s'.

(** The last line of a session that ends by the exit choice *)
Definition farewell : event :=
  Log yellow (js "\nThank you for using PumpFun Bundler!").

Definition endsWith (e : event) (events : list event) : Prop :=
  exists before, events = before ++ [e].

(** A computation never ends the process. *)
Definition exited {A} (o : outcome A) : bool :=
  match o with
  | Halt (Exited _) => true
  | _ => false
  end.

Definition staysAlive {A} (m : M A) : Prop :=
  forall s, exited (fst (m s)) = false.

(** A computation lets no exception through. *)
Definition threw {A} (o : outcome A) : bool :=
  match o with
  | Throw _ => true
  | _ => false
  end.

Definition catchesAll {A} (m : M A) : Prop :=
  forall s, threw (fst (m s)) = false.

(** A run leaves the status as it was or sets one flag, the one [set]
    sets, to true. *)
Definition raises (set : bool -> SystemStatus -> SystemStatus) (s s' : state) : Prop :=
  status s' = status s \/ status s' = set true (status s).

(** What [displayFeePreview] prints for a preview, on an instance whose fee
    settings are [this] *)
Definition previewLines {E : Engine} (preview : TransactionPreview) (this : FeeSettings)
  : list event :=
  [ Log cyan (js "\n=== Transaction Fee Preview ===");
    Log gray (js "Estimated costs for this transaction:");
    Log white (js "Base Fee: " ++ toFixed (div (baseFee preview) LAMPORTS_PER_SOL) 6 ++ js " SOL");
    Log white (js "Tip Amount: " ++ toFixed (div (tipAmount preview) LAMPORTS_PER_SOL) 6 ++ js " SOL");
    Log green (js "Total Estimated Cost: " ++ estimatedCost preview);
    Log gray (js "Fee Recipient: " ++ feeRecipient this) ].

(** The double [x] is at least the fraction [n / d], for a positive [d]. *)
Definition atLeast (x : number) (n d : Z) : bool :=
  match x with
  | S754_zero _ => (n <=? 0)%Z
  | S754_infinity s => negb s
  | S754_nan => false
  | S754_finite s m e =>
      if (0 <=? e)%Z then (n <=? d * (cond_Zopp s (Zpos m) * 2 ^ e))%Z
      else (n * 2 ^ (- e) <=? d * cond_Zopp s (Zpos m))%Z
  end.

(** The double [p / 100] of a whole percent: zero for no percent, else a
    53-bit mantissa [mq] and an exponent [e] with [mq * 2^e] between 2^-8
    and 1 and within half a unit in the last place of the fraction. *)
Definition percentRounded (p : Z) : bool :=
  match div (ofZ p) (ofZ 100) with
  | S754_zero false => (p =? 0)%Z
  | S754_finite false mq e =>
      ((2 ^ 52 <=? Zpos mq) && (Zpos mq <? 2 ^ 53) && (-60 <=? e) && (e <=? -52) &&
       (-50 <=? 100 * Zpos mq - p * 2 ^ (- e)) && (100 * Zpos mq - p * 2 ^ (- e) <=? 50) &&
       (0 <? p))%Z
  | _ => false
  end.

(** In the words of the claim about fee settings, the value that was
    entered: an answer written as a decimal numeral, with an optional
    minus sign and an optional point, stands for a number, given here as
    an integer [n] and a number of decimals [k], for [n / 10^k]. *)
Definition enteredValue (s : str) : option (Z * nat) :=
  let '(neg, body) :=
    match s with
    | "-"%char :: t => (true, t)
    | _ => (false, s)
    end in
  let numeral (digits : str) (decimals : nat) :=
    if forallb isDigit digits then
      match parseDigits 10 None digits with
      | Some n => Some (if neg then (- Z.of_N n)%Z else Z.of_N n, decimals)
      | None => None
      end
    else None in
  match split "."%char body with
  | [whole] => numeral whole 0
  | [whole; fraction] => numeral (whole ++ fraction) (length fraction)
  | _ => None
  end.

Definition valueBelow (v : Z * nat) (bound : Z) : Prop :=
  (fst v < bound * 10 ^ Z.of_nat (snd v))%Z.

Definition valueAbove (v : Z * nat) (bound : Z) : Prop :=
  (bound * 10 ^ Z.of_nat (snd v) < fst v)%Z.

(* ===================================================================== *)
(** * Part II: lemmas and theorems *)
(* ===================================================================== *)

Unset Implicit Arguments.

(** ** Reasoning about computations *)

Section Preservation.

Context (R : state -> state -> Prop) {HR : Invariant R}.

Lemma preserves_ret A (a : A) : preserves R (ret a).
Proof. intros s; apply inv_refl. Qed.

Lemma preserves_throw A (e : error) : preserves R (@throw A e).
Proof. intros s; apply inv_refl. Qed.

Lemma preserves_stop A (h : halt) : preserves R (@stop A h).
Proof. intros s; apply inv_refl. Qed.

Lemma preserves_get A (f : state -> A) : preserves R (get f).
Proof. intros s; apply inv_refl. Qed.

Lemma preserves_modify (f : state -> state) :
  (forall s, R s (f s)) -> preserves R (modify f).
Proof. intros H s; apply H. Qed.

Lemma preserves_bind A B (m : M A) (f : A -> M B) :
  preserves R m -> (forall a, preserves R (f a)) -> preserves R (bind m f).
Proof.
  intros Hm Hf s. unfold bind.
  specialize (Hm s). destruct (m s) as [[a | e | h] s']; simpl in *; trivial.
  apply inv_trans with s'; trivial. apply Hf.
Qed.

Lemma preserves_tryCatch A (m : M A) (handler : error -> M A) :
  preserves R m -> (forall e, preserves R (handler e)) ->
  preserves R (tryCatch m handler).
Proof.
  intros Hm Hh s. unfold tryCatch.
  specialize (Hm s). destruct (m s) as [[a | e | h] s']; simpl in *; trivial.
  apply inv_trans with s'; trivial. apply Hh.
Qed.

Lemma preserves_when (c : bool) (m : M unit) :
  preserves R m -> preserves R (when c m).
Proof. intros H; destruct c; simpl; trivial. apply preserves_ret. Qed.

Lemma preserves_forEach A (body : A -> nat -> M unit) (xs : list A) :
  (forall x i, preserves R (body x i)) ->
  forall index, preserves R (forEach body index xs).
Proof.
  intros Hb. induction xs as [| x xs IH]; intros index; simpl.
  - apply preserves_ret.
  - apply preserves_bind; [apply Hb | intros _; apply IH].
Qed.

(** The terminal *)

Context {HO : IgnoresOutput R}.

Lemma preserves_emit e : preserves R (modify (emit e)).
Proof. apply preserves_modify; intros; apply ignores_output. Qed.

Lemma preserves_log c text : preserves R (log c text).
Proof. apply preserves_emit. Qed.

Lemma preserves_logText c text : preserves R (logText c text).
Proof. apply preserves_emit. Qed.

Lemma preserves_logWith c text detail : preserves R (logWith c text detail).
Proof. apply preserves_emit. Qed.

Lemma preserves_clearScreen : preserves R clearScreen.
Proof. apply preserves_emit. Qed.

(** Reading the file system *)

Lemma preserves_existsSync : preserves R existsSync.
Proof.
  apply preserves_bind; [apply preserves_get | intros; apply preserves_ret].
Qed.

Lemma preserves_readFileSync : preserves R readFileSync.
Proof.
  apply preserves_bind; [apply preserves_get |].
  intros [| content |]; [apply preserves_throw | apply preserves_ret | apply preserves_throw].
Qed.

End Preservation.

(** The relations used below *)

Lemma statusLe_refl a : statusLe a a.
Proof. unfold statusLe; tauto. Qed.

Lemma statusLe_trans a b c : statusLe a b -> statusLe b c -> statusLe a c.
Proof. unfold statusLe; tauto. Qed.

#[export] Instance statusGrows_invariant : Invariant statusGrows.
Proof.
  split; unfold statusGrows; intros; eauto using statusLe_refl, statusLe_trans.
Qed.

#[export] Instance sameStatus_invariant : Invariant sameStatus.
Proof. split; unfold sameStatus; congruence. Qed.

#[export] Instance sameFile_invariant : Invariant sameFile.
Proof. split; unfold sameFile; congruence. Qed.

#[export] Instance sameFees_invariant : Invariant sameFees.
Proof. split; unfold sameFees; congruence. Qed.

#[export] Instance inputShrinks_invariant : Invariant inputShrinks.
Proof. split; unfold inputShrinks; intros; lia. Qed.

#[export] Instance outputGrows_invariant : Invariant outputGrows.
Proof.
  split.
  - intros s. exists []. symmetry. apply app_nil_r.
  - intros a b c [m1 H1] [m2 H2]. exists (m1 ++ m2).
    rewrite H2, H1, app_assoc. reflexivity.
Qed.

#[export] Instance runsForward_invariant : Invariant runsForward.
Proof.
  split.
  - intros s. split; [| split]; apply inv_refl.
  - intros a b c (H1 & H2 & H3) (K1 & K2 & K3).
    split; [| split]; eapply inv_trans; eassumption.
Qed.

Ltac untouched :=
  intros s v; red; simpl;
  first [ reflexivity | apply statusLe_refl | lia
        | exists []; symmetry; apply app_nil_r ].

#[export] Instance statusGrows_output : IgnoresOutput statusGrows.
Proof. untouched. Qed.
#[export] Instance statusGrows_input : IgnoresInput statusGrows.
Proof. untouched. Qed.
#[export] Instance statusGrows_file : IgnoresFile statusGrows.
Proof. untouched. Qed.
#[export] Instance statusGrows_fees : IgnoresFees statusGrows.
Proof. untouched. Qed.

#[export] Instance sameStatus_output : IgnoresOutput sameStatus.
Proof. untouched. Qed.
#[export] Instance sameStatus_input : IgnoresInput sameStatus.
Proof. untouched. Qed.
#[export] Instance sameStatus_file : IgnoresFile sameStatus.
Proof. untouched. Qed.
#[export] Instance sameStatus_fees : IgnoresFees sameStatus.
Proof. untouched. Qed.

#[export] Instance sameFile_output : IgnoresOutput sameFile.
Proof. untouched. Qed.
#[export] Instance sameFile_input : IgnoresInput sameFile.
Proof. untouched. Qed.
#[export] Instance sameFile_fees : IgnoresFees sameFile.
Proof. untouched. Qed.

#[export] Instance sameFees_output : IgnoresOutput sameFees.
Proof. untouched. Qed.
#[export] Instance sameFees_input : IgnoresInput sameFees.
Proof. untouched. Qed.
#[export] Instance sameFees_file : IgnoresFile sameFees.
Proof. untouched. Qed.

#[export] Instance inputShrinks_output : IgnoresOutput inputShrinks.
Proof. untouched. Qed.
#[export] Instance inputShrinks_file : IgnoresFile inputShrinks.
Proof. untouched. Qed.
#[export] Instance inputShrinks_fees : IgnoresFees inputShrinks.
Proof. untouched. Qed.

#[export] Instance runsForward_output : IgnoresOutput runsForward.
Proof.
  intros s e. split; [apply statusLe_refl | split; [red; simpl; lia |]].
  exists [e]. reflexivity.
Qed.

#[export] Instance runsForward_file : IgnoresFile runsForward.
Proof.
  intros s v. split; [apply statusLe_refl | split; [red; simpl; lia |]].
  exists []. symmetry. apply app_nil_r.
Qed.

#[export] Instance outputGrows_output : IgnoresOutput outputGrows.
Proof. intros s e. exists [e]. reflexivity. Qed.
#[export] Instance outputGrows_input : IgnoresInput outputGrows.
Proof. untouched. Qed.
#[export] Instance outputGrows_file : IgnoresFile outputGrows.
Proof. untouched. Qed.
#[export] Instance outputGrows_fees : IgnoresFees outputGrows.
Proof. untouched. Qed.

(** Writing the file, and reading a line *)

Ltac by_class := try (solve [typeclasses eauto]).

Lemma preserves_writeFileSync R {HR : Invariant R} {HF : IgnoresFile R} content :
  preserves R (writeFileSync content).
Proof.
  apply preserves_bind; by_class; [apply preserves_get; by_class |].
  intros [| c |]; try (apply preserves_throw; by_class);
    apply preserves_modify; intros; apply ignores_file.
Qed.

Lemma preserves_prompt R {HR : Invariant R} {HO : IgnoresOutput R} {HI : IgnoresInput R}
      c question :
  preserves R (prompt c question).
Proof.
  apply preserves_bind; by_class; [apply preserves_emit; by_class | intros _].
  apply preserves_bind; by_class; [apply preserves_get; by_class | intros [| line rest]].
  - apply preserves_stop; by_class.
  - apply preserves_bind; by_class; [| intros; apply preserves_ret; by_class].
    apply preserves_modify; intros; apply ignores_input.
Qed.

Lemma prompt_runsForward c question : preserves runsForward (prompt c question).
Proof.
  intros s. unfold prompt, bind, modify, get, stop, ret. simpl.
  destruct (stdin s) as [| line rest] eqn:H; simpl;
    (split; [apply statusLe_refl | split; [red; simpl; rewrite ?H; simpl; lia |]]);
    exists [Ask c (js question)]; reflexivity.
Qed.

(** One step of a proof that a computation keeps a relation: split a
    sequence, a handler, a conditional; close a primitive. *)
Ltac preserve_step :=
  match goal with
  | |- preserves _ (bind _ _) => apply preserves_bind; by_class; [| intros ?]
  | |- preserves _ (tryCatch _ _) => apply preserves_tryCatch; by_class; [| intros ?]
  | |- preserves _ (when _ _) => apply preserves_when; by_class
  | |- preserves _ (forEach _ _ _) => apply preserves_forEach; by_class; intros ? ?
  | |- preserves _ (ret _) => apply preserves_ret; by_class
  | |- preserves _ (throw _) => apply preserves_throw; by_class
  | |- preserves _ (stop _) => apply preserves_stop; by_class
  | |- preserves _ (get _) => apply preserves_get; by_class
  | |- preserves _ (log _ _) => apply preserves_log; by_class
  | |- preserves _ (logText _ _) => apply preserves_logText; by_class
  | |- preserves _ (logWith _ _ _) => apply preserves_logWith; by_class
  | |- preserves _ (modify (emit _)) => apply preserves_emit; by_class
  | |- preserves _ clearScreen => apply preserves_clearScreen; by_class
  | |- preserves _ existsSync => apply preserves_existsSync; by_class
  | |- preserves _ readFileSync => apply preserves_readFileSync; by_class
  | |- preserves runsForward (prompt _ _) => apply prompt_runsForward
  | |- preserves _ (prompt _ _) => apply preserves_prompt; by_class
  | |- preserves _ (writeFileSync _) => apply preserves_writeFileSync; by_class
  | |- preserves _ (if ?c then _ else _) => destruct c
  | |- preserves _ (match ?x with _ => _ end) => destruct x
  | |- preserves _ (let _ := _ in _) => cbv zeta
  end.

Ltac preserve := repeat preserve_step.

Lemma pressEnterToContinue_preserves R {HR : Invariant R} {HO : IgnoresOutput R}
      {HI : IgnoresInput R} :
  preserves R pressEnterToContinue.
Proof. unfold pressEnterToContinue. preserve. Qed.

(** Setting a flag to true only raises the status. *)
Lemma statusLe_setWalletConfigured st : statusLe st (setWalletConfigured true st).
Proof. unfold statusLe; simpl; tauto. Qed.
Lemma statusLe_setRpcConfigured st : statusLe st (setRpcConfigured true st).
Proof. unfold statusLe; simpl; tauto. Qed.
Lemma statusLe_setKeypairsCreated st : statusLe st (setKeypairsCreated true st).
Proof. unfold statusLe; simpl; tauto. Qed.
Lemma statusLe_setPoolBundleReady st : statusLe st (setPoolBundleReady true st).
Proof. unfold statusLe; simpl; tauto. Qed.
Lemma statusLe_setFeeSettingsConfigured st : statusLe st (setFeeSettingsConfigured true st).
Proof. unfold statusLe; simpl; tauto. Qed.

(** A change of the instance that the relation at hand allows *)
Ltac allowed_change :=
  apply preserves_modify; intros ?; red; simpl;
  repeat match goal with |- _ /\ _ => split end;
  try red; simpl;
  first [ reflexivity | lia | apply statusLe_refl
        | apply statusLe_setWalletConfigured | apply statusLe_setRpcConfigured
        | apply statusLe_setKeypairsCreated | apply statusLe_setPoolBundleReady
        | apply statusLe_setFeeSettingsConfigured
        | exists []; symmetry; apply app_nil_r ].

Ltac keeps := repeat first [ preserve_step | allowed_change ].

(** Every operation of the menu runs forward: it raises no flag back, types
    nothing into the input, and erases nothing printed. *)

Section Forward.

Context {E : Engine}.

Lemma handleConfigureWallet_forward : preserves runsForward handleConfigureWallet.
Proof. unfold handleConfigureWallet, pressEnterToContinue; keeps. Qed.

Lemma handleConfigureRPC_forward : preserves runsForward handleConfigureRPC.
Proof. unfold handleConfigureRPC, pressEnterToContinue; keeps. Qed.

Lemma handleConfigureFees_forward : preserves runsForward handleConfigureFees.
Proof.
  unfold handleConfigureFees, pressEnterToContinue, displayFeePreview; keeps.
Qed.

Lemma viewWallets_forward : preserves runsForward viewWallets.
Proof. unfold viewWallets, showWallet; keeps. Qed.

Lemma addWallet_forward : preserves runsForward addWallet.
Proof. unfold addWallet; keeps. Qed.

Lemma removeWallet_forward : preserves runsForward removeWallet.
Proof. unfold removeWallet, viewWallets, showWallet; keeps. Qed.

Lemma setPrimaryWallet_forward : preserves runsForward setPrimaryWallet.
Proof. unfold setPrimaryWallet, viewWallets, showWallet; keeps. Qed.

Lemma handleManageWallets_forward : preserves runsForward handleManageWallets.
Proof.
  pose proof viewWallets_forward. pose proof addWallet_forward.
  pose proof removeWallet_forward. pose proof setPrimaryWallet_forward.
  unfold handleManageWallets, pressEnterToContinue; keeps; assumption.
Qed.

Lemma handleCreateKeypairs_forward : preserves runsForward handleCreateKeypairs.
Proof. unfold handleCreateKeypairs, pressEnterToContinue; keeps. Qed.

Lemma handleCreatePoolBundle_forward : preserves runsForward handleCreatePoolBundle.
Proof.
  unfold handleCreatePoolBundle, pressEnterToContinue, displayFeePreview; keeps.
Qed.

Lemma handleViewConfiguration_forward : preserves runsForward handleViewConfiguration.
Proof.
  unfold handleViewConfiguration, pressEnterToContinue, displayStatus; keeps.
Qed.

Lemma menuLoop_forward fuel : preserves runsForward (menuLoop fuel).
Proof.
  pose proof handleConfigureWallet_forward. pose proof handleConfigureRPC_forward.
  pose proof handleCreateKeypairs_forward. pose proof handleConfigureFees_forward.
  pose proof handleCreatePoolBundle_forward. pose proof handleViewConfiguration_forward.
  pose proof handleManageWallets_forward.
  induction fuel as [| fuel IH]; simpl.
  - keeps.
  - unfold displayHeader, displayStatus, displayMenu, pressEnterToContinue;
      keeps; assumption.
Qed.

End Forward.

(** ** Running a computation on a state *)

Arguments js : simpl never.
Arguments pressEnterToContinue : simpl never.
Arguments includes : simpl never.
Arguments replace : simpl never.
Arguments keyLine : simpl never.
Arguments printedSince : simpl never.
Arguments reportsError : simpl never.

Lemma printedSince_app (s s1 s' : state) (events : list event) :
  stdout s1 = stdout s ++ events -> outputGrows s1 s' ->
  exists more, printedSince s s' = events ++ more.
Proof.
  intros H1 [more H2]. exists more. unfold printedSince.
  rewrite H2, H1, <- app_assoc, skipn_app, Nat.sub_diag, skipn_all. reflexivity.
Qed.

Lemma reportsError_app (events more : list event) (e : event) :
  In e events -> isErrorLine e = true -> reportsError (events ++ more).
Proof.
  intros Hin He. exists e. split; trivial. apply in_or_app. now left.
Qed.

(** [pressEnterToContinue] changes neither the file nor the instance, and
    what was printed before it stays printed. *)
Lemma pressEnter_file (s1 : state) :
  configFile (snd (pressEnterToContinue s1)) = configFile s1.
Proof. apply (pressEnterToContinue_preserves sameFile). Qed.

Lemma pressEnter_status (s1 : state) :
  status (snd (pressEnterToContinue s1)) = status s1.
Proof. apply (pressEnterToContinue_preserves sameStatus). Qed.

Lemma pressEnter_fees (s1 : state) :
  feeSettings (snd (pressEnterToContinue s1)) = feeSettings s1.
Proof. apply (pressEnterToContinue_preserves sameFees). Qed.

Lemma pressEnter_printed (s s1 : state) (events : list event) :
  stdout s1 = stdout s ++ events ->
  exists more, printedSince s (snd (pressEnterToContinue s1)) = events ++ more.
Proof.
  intros H. eapply printedSince_app; eauto.
  apply (pressEnterToContinue_preserves outputGrows).
Qed.

Lemma pressEnter_reports (s s1 : state) (events : list event) (e : event) :
  stdout s1 = stdout s ++ events -> In e events -> isErrorLine e = true ->
  reportsError (printedSince s (snd (pressEnterToContinue s1))).
Proof.
  intros H Hin He. destruct (pressEnter_printed s s1 events H) as [more ->].
  eapply reportsError_app; eauto.
Qed.

Lemma length_ltb_32 (key : str) : length key < 32 -> (length key <? 32) = true.
Proof. apply Nat.ltb_lt. Qed.

(** Run the monad on a state as far as the state decides it. *)
Ltac run :=
  cbv beta iota zeta delta
    [bind ret throw stop tryCatch get modify when
     log logText logWith prompt clearScreen existsSync readFileSync writeFileSync
     emit withStdin withStatus withFeeSettings withConfigFile
     status feeSettings configFile stdin stdout fst snd].

Ltac printed := run; repeat rewrite <- app_assoc; reflexivity.

Lemma short_key_configureWallet (s : state) (key : str) (rest : list str) :
  stdin s = key :: rest -> length key < 32 ->
  let s' := snd (handleConfigureWallet s) in
  configFile s' = configFile s /\ reportsError (printedSince s s').
Proof.
  intros Hin Hlen. apply length_ltb_32 in Hlen.
  destruct s as [st fee f input out]; simpl in Hin; subst input.
  unfold handleConfigureWallet.
  destruct key as [| c key].
  - cbn. split; [apply pressEnter_file |].
    eapply pressEnter_reports with
      (e := Log red (js "\n✗ Invalid wallet key"));
      [printed | simpl; eauto 10 | reflexivity].
  - cbn -[Nat.ltb length]. rewrite Hlen. cbn -[Nat.ltb length].
    split; [apply pressEnter_file |].
    eapply pressEnter_reports with
      (e := Log red (js "\n✗ Error configuring wallet:" ++ js " " ++ js "Invalid key format"));
      [printed | simpl; eauto 10 | reflexivity].
Qed.

Lemma short_key_addWallet (s : state) (key : str) (rest : list str) :
  stdin s = key :: rest -> length key < 32 ->
  let s' := snd (addWallet s) in
  configFile s' = configFile s /\
  (key <> [] -> reportsError (printedSince s s')).
Proof.
  intros Hin Hlen. apply length_ltb_32 in Hlen.
  destruct s as [st fee f input out]; simpl in Hin; subst input.
  unfold addWallet.
  destruct key as [| c key].
  - cbn. split; [reflexivity | congruence].
  - cbn -[Nat.ltb length]. rewrite Hlen. cbn -[Nat.ltb length].
    split; [reflexivity | intros _].
    exists (Log red (js "\n✗ Error adding wallet:" ++ js " " ++ js "Invalid key format")).
    split; [| reflexivity].
    unfold printedSince. cbn. repeat rewrite <- app_assoc.
    rewrite skipn_app, Nat.sub_diag, skipn_all. simpl. eauto 10.
Qed.

(** ** Fee settings that fail validation *)

Arguments parseInt : simpl never.
Arguments orElse : simpl never.
Arguments intLt : simpl never.
Arguments intGt : simpl never.
Arguments intLe : simpl never.

Lemma intLt_value (j : jsint) (z bound : Z) :
  intValue j = Some z -> (z < bound)%Z -> intLt j bound = true.
Proof.
  destruct j as [| neg mag]; simpl; [discriminate |].
  intros [= <-] H. unfold intLt. now apply Z.ltb_lt.
Qed.

Lemma intGt_value (j : jsint) (z bound : Z) :
  intValue j = Some z -> (bound < z)%Z -> intGt j bound = true.
Proof.
  destruct j as [| neg mag]; simpl; [discriminate |].
  intros [= <-] H. unfold intGt. now apply Z.ltb_lt.
Qed.

Section Fees.

Context {E : Engine}.

Lemma failed_checks_configureFees (s : state) (a1 a2 a3 : str) (rest : list str) :
  stdin s = a1 :: a2 :: a3 :: rest ->
  let minTip := parseInt (orElse a1 (js "10000")) in
  let percent := parseInt (orElse a2 (js "50")) in
  let recipient := orElse a3 (js "CebN5WGQ4jvEPvsVU4EoHEpgzq1VV7AbicfhtW4xC9iM") in
  intLt minTip 0 || (intLt percent 0 || intGt percent 100) || (length recipient <? 32) = true ->
  let s' := snd (handleConfigureFees s) in
  configFile s' = configFile s /\ feeSettings s' = feeSettings s /\
  status s' = status s /\ reportsError (printedSince s s').
Proof.
  intros Hin minTip percent recipient Hbad.
  destruct s as [st fee f input out]; simpl in Hin; subst input.
  unfold handleConfigureFees. run. fold minTip percent recipient.
  destruct (intLt minTip 0) eqn:H1; run.
  { repeat split; [apply pressEnter_file | apply pressEnter_fees | apply pressEnter_status |].
    eapply pressEnter_reports with
      (e := Log red (js "\n✗ Error configuring fee settings:" ++ js " " ++
                     js "Minimum tip cannot be negative"));
      [printed | simpl; eauto 12 | reflexivity]. }
  destruct (intLt percent 0 || intGt percent 100) eqn:H2; run.
  { repeat split; [apply pressEnter_file | apply pressEnter_fees | apply pressEnter_status |].
    eapply pressEnter_reports with
      (e := Log red (js "\n✗ Error configuring fee settings:" ++ js " " ++
                     js "Tip percentage must be between 0 and 100"));
      [printed | simpl; eauto 12 | reflexivity]. }
  simpl in Hbad. rewrite Hbad. run.
  repeat split; [apply pressEnter_file | apply pressEnter_fees | apply pressEnter_status |].
  eapply pressEnter_reports with
    (e := Log red (js "\n✗ Error configuring fee settings:" ++ js " " ++
                   js "Invalid fee recipient address"));
    [printed | simpl; eauto 12 | reflexivity].
Qed.

End Fees.

(** ** Prerequisites of the two creation steps *)

Lemma printedSince_exact (s s' : state) (events : list event) :
  stdout s' = stdout s ++ events -> printedSince s s' = events.
Proof.
  intros H. unfold printedSince.
  rewrite H, skipn_app, Nat.sub_diag, skipn_all. reflexivity.
Qed.

Section Gate.

Context {E : Engine}.

Lemma keypairs_gate_closed (s : state) :
  walletConfigured (status s) && rpcConfigured (status s) = false ->
  let s' := snd (handleCreateKeypairs s) in
  status s' = status s /\ configFile s' = configFile s /\
  feeSettings s' = feeSettings s /\
  printedSince s s' = missingForKeypairs (status s) ++ pressEnterLines.
Proof.
  intros H.
  destruct s as [[w r k p fs] fee f input out]. simpl in H.
  unfold handleCreateKeypairs, pressEnterToContinue.
  destruct w, r; try discriminate H; run;
    destruct input as [| line rest]; run;
    (repeat split; apply printedSince_exact; simpl;
     repeat rewrite <- app_assoc; reflexivity).
Qed.

Lemma bundle_gate_closed (s : state) :
  walletConfigured (status s) && rpcConfigured (status s) &&
    keypairsCreated (status s) = false ->
  let s' := snd (handleCreatePoolBundle s) in
  status s' = status s /\ configFile s' = configFile s /\
  feeSettings s' = feeSettings s /\
  printedSince s s' = missingForBundle (status s) ++ pressEnterLines.
Proof.
  intros H.
  destruct s as [[w r k p fs] fee f input out]. simpl in H.
  unfold handleCreatePoolBundle, pressEnterToContinue.
  destruct w, r, k; try discriminate H; run;
    destruct input as [| line rest]; run;
    (repeat split; apply printedSince_exact; simpl;
     repeat rewrite <- app_assoc; reflexivity).
Qed.

End Gate.

(** C5.  Create-keypairs goes on only when the wallet and the RPC are
    configured, create-pool-bundle only when moreover the keypairs are
    created.  When a prerequisite is missing the operation prints the list
    of the missing ones and the press-Enter lines, nothing else, and
    changes neither the flags, nor the fee settings, nor the file.  So a
    flag that either operation changes had all its prerequisites. *)
Theorem prerequisites_gate (E : Engine) (s : state) :
  let st := status s in
  let k := snd (handleCreateKeypairs s) in
  let b := snd (handleCreatePoolBundle s) in
  (walletConfigured st && rpcConfigured st = false ->
   status k = st /\ configFile k = configFile s /\ feeSettings k = feeSettings s /\
   printedSince s k = missingForKeypairs st ++ pressEnterLines) /\
  (walletConfigured st && rpcConfigured st && keypairsCreated st = false ->
   status b = st /\ configFile b = configFile s /\ feeSettings b = feeSettings s /\
   printedSince s b = missingForBundle st ++ pressEnterLines) /\
  (status k <> st -> walletConfigured st = true /\ rpcConfigured st = true) /\
  (status b <> st ->
   walletConfigured st = true /\ rpcConfigured st = true /\ keypairsCreated st = true).
Proof.
  intros st k b. repeat split.
  1-4: apply keypairs_gate_closed; assumption.
  1-4: apply bundle_gate_closed; assumption.
  - destruct (walletConfigured st) eqn:W; trivial.
    destruct H. apply keypairs_gate_closed. subst st. now rewrite W.
  - destruct (rpcConfigured st) eqn:R; trivial.
    destruct H. apply keypairs_gate_closed. subst st. rewrite R. apply andb_false_r.
  - destruct (walletConfigured st) eqn:W; trivial.
    destruct H. apply bundle_gate_closed. subst st. now rewrite W.
  - destruct (rpcConfigured st) eqn:R; trivial.
    destruct H. apply bundle_gate_closed. subst st. rewrite R.
    now rewrite andb_false_r.
  - destruct (keypairsCreated st) eqn:K; trivial.
    destruct H. apply bundle_gate_closed. subst st. rewrite K. apply andb_false_r.
Qed.

(** On a fresh session with no file both gates are closed. *)
Lemma prerequisites_gate_witness :
  let s := boot Missing [js "3"] in
  (walletConfigured (status s) && rpcConfigured (status s) = false) /\
  (walletConfigured (status s) && rpcConfigured (status s) &&
     keypairsCreated (status s) = false) /\
  printedSince s (snd (handleCreateKeypairs (E := plainEngine) s)) =
    missingForKeypairs (status s) ++ pressEnterLines /\
  printedSince s (snd (handleCreatePoolBundle (E := plainEngine) s)) =
    missingForBundle (status s) ++ pressEnterLines.
Proof.
  intros s.
  split; [reflexivity | split; [reflexivity |]].
  destruct (prerequisites_gate plainEngine s) as (K & B & _).
  split; [apply K | apply B]; reflexivity.
Defined.

(** ** The claims about rejected input *)

(** C6 (as stated) fails: the empty answer is shorter than 32 characters,
    and add-wallet returns on it without printing an error. *)
Lemma empty_key_addWallet_silent :
  let s := boot Missing [[]] in
  length (@nil ascii) < 32 /\
  stdin s = [] :: [] /\
  ~ reportsError (printedSince s (snd (addWallet s))).
Proof.
  intros s. split; [simpl; lia | split; [reflexivity |]].
  intros [e [Hin He]]. vm_compute in Hin.
  repeat (destruct Hin as [<- | Hin]; [discriminate He |]). exact Hin.
Qed.

(** C6 (amended).  An answer shorter than 32 characters given as a wallet
    private key is never written: configure-wallet and add-wallet leave the
    configuration file as it was.  Configure-wallet reports an error for
    every such answer, add-wallet for every such answer that is not
    empty. *)
Theorem short_wallet_key_rejected (s : state) (key : str) (rest : list str) :
  stdin s = key :: rest -> length key < 32 ->
  (let s' := snd (handleConfigureWallet s) in
   configFile s' = configFile s /\ reportsError (printedSince s s')) /\
  (let s' := snd (addWallet s) in
   configFile s' = configFile s /\
   (key <> [] -> reportsError (printedSince s s'))).
Proof.
  intros Hin Hlen. split.
  - exact (short_key_configureWallet s key rest Hin Hlen).
  - exact (short_key_addWallet s key rest Hin Hlen).
Qed.

(** A 23-character answer, followed by an empty one. *)
Lemma short_wallet_key_rejected_witness :
  let s := boot (Regular (js "RPC_URL=http://localhost:8899")) [js "5Kb8kLf9zgWQnogidDA76Mz"; []] in
  configFile (snd (handleConfigureWallet s)) = configFile s /\
  reportsError (printedSince s (snd (handleConfigureWallet s))) /\
  configFile (snd (addWallet s)) = configFile s /\
  reportsError (printedSince s (snd (addWallet s))).
Proof.
  intros s.
  destruct (short_wallet_key_rejected s (js "5Kb8kLf9zgWQnogidDA76Mz") [[]])
    as ((F1 & R1) & F2 & R2).
  - reflexivity.
  - vm_compute. lia.
  - repeat split; trivial. apply R2. discriminate.
Defined.

(** C7 (as stated) fails for answers that are not whole numbers: a tip
    percent entered as 100.9 lies outside [0,100], and a minimum tip
    entered as -0.5 is negative, yet configure-fees reports no error for
    either and saves the settings, in the file and in memory, as [parseInt]
    read them: a percent of 100, a minimum tip of -0. *)
Lemma fractional_fee_answers_accepted :
  (let s := boot Missing [js "10000"; js "100.9"; []; []] in
   let s' := snd (handleConfigureFees (E := plainEngine) s) in
   stdin s = [js "10000"; js "100.9"; []; []] /\
   enteredValue (js "100.9") = Some (1009%Z, 1) /\ valueAbove (1009%Z, 1) 100 /\
   ~ reportsError (printedSince s s') /\
   configFile s' =
   Regular (js "\nMIN_TIP_LAMPORTS=10000\nTIP_PERCENT=100\nFEE_RECIPIENT=CebN5WGQ4jvEPvsVU4EoHEpgzq1VV7AbicfhtW4xC9iM") /\
   configFile s' <> configFile s /\
   tipPercent (feeSettings s') = ofZ 100 /\ feeSettings s' <> feeSettings s) /\
  (let s := boot Missing [js "-0.5"; js "50"; []; []] in
   let s' := snd (handleConfigureFees (E := plainEngine) s) in
   stdin s = [js "-0.5"; js "50"; []; []] /\
   enteredValue (js "-0.5") = Some ((-5)%Z, 1) /\ valueBelow ((-5)%Z, 1) 0 /\
   ~ reportsError (printedSince s s') /\
   configFile s' =
   Regular (js "\nMIN_TIP_LAMPORTS=0\nTIP_PERCENT=50\nFEE_RECIPIENT=CebN5WGQ4jvEPvsVU4EoHEpgzq1VV7AbicfhtW4xC9iM") /\
   configFile s' <> configFile s /\
   minTipLamports (feeSettings s') = S754_zero true /\ feeSettings s' <> feeSettings s).
Proof.
  assert (Hnone : forall events : list event,
             forallb (fun e => negb (isErrorLine e)) events = true -> ~ reportsError events).
  { intros events H [e [Hin He]]. rewrite forallb_forall in H.
    specialize (H e Hin). now rewrite He in H. }
  split; cbv zeta.
  - split; [reflexivity |]. split; [vm_compute; reflexivity |].
    split; [vm_compute; reflexivity |].
    split; [apply Hnone; vm_compute; reflexivity |].
    split; [vm_compute; reflexivity |].
    split; [vm_compute; discriminate |].
    split; [vm_compute; reflexivity | vm_compute; discriminate].
  - split; [reflexivity |]. split; [vm_compute; reflexivity |].
    split; [vm_compute; reflexivity |].
    split; [apply Hnone; vm_compute; reflexivity |].
    split; [vm_compute; reflexivity |].
    split; [vm_compute; discriminate |].
    split; [vm_compute; reflexivity | vm_compute; discriminate].
Qed.

(** C7 (amended).  Configure-fees decides on the integers that [parseInt]
    reads from the answers (an optional sign and the decimal digits that
    follow it; the default for an empty answer).  It rejects the three
    answers whenever the minimum tip is read as a negative integer, or the
    tip percent as an integer below 0 or above 100, or the recipient
    address (the default one for an empty answer) has fewer than 32
    characters: it reports an error and leaves the file, the fee settings
    and the status flags as they were. *)
Theorem invalid_fee_settings_rejected
        (E : Engine) (s : state) (a1 a2 a3 : str) (rest : list str) :
  stdin s = a1 :: a2 :: a3 :: rest ->
  let minTip := parseInt (orElse a1 (js "10000")) in
  let percent := parseInt (orElse a2 (js "50")) in
  let recipient := orElse a3 (js "CebN5WGQ4jvEPvsVU4EoHEpgzq1VV7AbicfhtW4xC9iM") in
  (exists z, intValue minTip = Some z /\ (z < 0)%Z) \/
  (exists z, intValue percent = Some z /\ (z < 0 \/ 100 < z)%Z) \/
  length recipient < 32 ->
  let s' := snd (handleConfigureFees s) in
  configFile s' = configFile s /\ feeSettings s' = feeSettings s /\
  status s' = status s /\ reportsError (printedSince s s').
Proof.
  intros Hin minTip percent recipient Hbad.
  apply (failed_checks_configureFees s a1 a2 a3 rest Hin).
  fold minTip percent recipient.
  destruct Hbad as [(z & Hz & Hneg) | [(z & Hz & [Hlow | Hhigh]) | Hlen]].
  - rewrite (intLt_value minTip z 0 Hz Hneg). reflexivity.
  - rewrite (intLt_value percent z 0 Hz Hlow). simpl.
    now rewrite orb_true_r.
  - rewrite (intGt_value percent z 100 Hz Hhigh).
    now rewrite !orb_true_r.
  - apply Nat.ltb_lt in Hlen. rewrite Hlen. apply orb_true_r.
Qed.

(** A tip percent of 150 with the default recipient. *)
Lemma invalid_fee_settings_rejected_witness :
  let s := boot (Regular (js "RPC_URL=http://localhost:8899")) [js "10000"; js "150"; []] in
  let s' := snd (handleConfigureFees (E := plainEngine) s) in
  configFile s' = configFile s /\ feeSettings s' = feeSettings s /\
  status s' = status s /\ reportsError (printedSince s s').
Proof.
  intros s.
  apply (invalid_fee_settings_rejected plainEngine s (js "10000") (js "150") [] []).
  - reflexivity.
  - right. left. exists 150%Z. split; [reflexivity | right; lia].
Defined.

(** C9.  Along the menu loop no status flag goes from true back to false:
    whatever is typed, and wherever the run stops, every flag that was
    true in the state the loop started from is true in the state it has
    reached.  The same holds for each operation of the menu on its own. *)
Theorem status_never_lowered (E : Engine) (s : state) :
  (forall fuel, statusLe (status s) (status (snd (menuLoop fuel s)))) /\
  statusLe (status s) (status (snd (start s))) /\
  statusLe (status s) (status (snd (handleConfigureWallet s))) /\
  statusLe (status s) (status (snd (handleConfigureRPC s))) /\
  statusLe (status s) (status (snd (handleCreateKeypairs s))) /\
  statusLe (status s) (status (snd (handleConfigureFees s))) /\
  statusLe (status s) (status (snd (handleCreatePoolBundle s))) /\
  statusLe (status s) (status (snd (handleViewConfiguration s))) /\
  statusLe (status s) (status (snd (handleManageWallets s))).
Proof.
  split; [intros fuel; exact (proj1 (menuLoop_forward fuel s)) |].
  split; [exact (proj1 (menuLoop_forward (S (length (stdin s))) s)) |].
  split; [exact (proj1 (handleConfigureWallet_forward s)) |].
  split; [exact (proj1 (handleConfigureRPC_forward s)) |].
  split; [exact (proj1 (handleCreateKeypairs_forward s)) |].
  split; [exact (proj1 (handleConfigureFees_forward s)) |].
  split; [exact (proj1 (handleCreatePoolBundle_forward s)) |].
  split; [exact (proj1 (handleViewConfiguration_forward s)) |].
  exact (proj1 (handleManageWallets_forward s)).
Qed.

(** ** Strings *)

Lemma startsWith_spec (s p : str) :
  startsWith s p = true <-> exists post, s = p ++ post.
Proof.
  revert s. induction p as [| c p IH]; intros s; simpl.
  - split; [intros _; now exists s | reflexivity].
  - destruct s as [| d s].
    + split; [discriminate | intros [post H]; discriminate H].
    + rewrite andb_true_iff, IH. split.
      * intros [Hc [post ->]]. apply Ascii.eqb_eq in Hc. subst d. now exists post.
      * intros [post H]. injection H as -> ->. split; [apply Ascii.eqb_refl | now exists post].
Qed.

Lemma includes_nil (n : str) : includes [] n = startsWith [] n || false.
Proof. reflexivity. Qed.

Lemma includes_cons (c : ascii) (s n : str) :
  includes (c :: s) n = startsWith (c :: s) n || includes s n.
Proof. reflexivity. Qed.

Lemma includes_spec (s n : str) : includes s n = true <-> occursIn n s.
Proof.
  induction s as [| c s IH].
  - rewrite includes_nil, orb_false_r, startsWith_spec. split.
    + intros [post H]. now exists [], post.
    + intros (pre & post & H). destruct pre; [now exists post | discriminate H].
  - rewrite includes_cons, orb_true_iff, IH, startsWith_spec. split.
    + intros [[post H] | (pre & post & H)].
      * now exists [], post.
      * exists (c :: pre), post. simpl. now rewrite H.
    + intros (pre & post & H). destruct pre as [| d pre].
      * left. now exists post.
      * right. injection H as -> ->. now exists pre, post.
Qed.

Lemma includes_false (s n : str) : includes s n = false <-> ~ occursIn n s.
Proof.
  rewrite <- includes_spec. destruct (includes s n); split; congruence.
Qed.

Lemma streq_spec (s t : str) : streq s t = true <-> s = t.
Proof.
  revert t. induction s as [| c s IH]; intros [| d t]; simpl;
    try (split; [discriminate | discriminate]); try tauto.
  rewrite andb_true_iff, IH, Ascii.eqb_eq. split.
  - intros [-> ->]. reflexivity.
  - intros [= -> ->]. tauto.
Qed.

Lemma streq_refl (s : str) : streq s s = true.
Proof. now apply streq_spec. Qed.

Lemma occursIn_concat (keys : list str) (key : str) :
  In key keys -> occursIn key (concat keys).
Proof.
  induction keys as [| k keys IH]; simpl; [tauto |].
  intros [-> | H].
  - now exists [], (concat keys).
  - destruct (IH H) as (pre & post & Heq). exists (k ++ pre), post.
    rewrite Heq, app_assoc. reflexivity.
Qed.

(** ** The status at startup *)

Lemma constructor_regular (content : str) (s0 : state) :
  configFile s0 = Regular content ->
  constructor s0 =
  (Return tt,
   {| status :=
        {| walletConfigured := includes content (js "WALLET_PRIVATE_KEY=");
           rpcConfigured := includes content (js "RPC_URL=");
           keypairsCreated := false;
           poolBundleReady := false;
           feeSettingsConfigured :=
             includes content (js "MIN_TIP_LAMPORTS=") &&
             includes content (js "TIP_PERCENT=") &&
             includes content (js "FEE_RECIPIENT=") |};
      feeSettings := defaultFeeSettings;
      configFile := Regular content;
      stdin := stdin s0;
      stdout := stdout s0 |}).
Proof.
  intros H. destruct s0 as [st fee f input out]. simpl in H. subst f.
  reflexivity.
Qed.

(** C8 (as stated) fails for the keypairs flag: whatever keys are taken as
    the ones it corresponds to, the flag is not derived from them, because
    it is false after startup also for a file in which all of them occur. *)
Lemma keypairs_flag_not_derived :
  ~ exists keys, derivedFrom keypairsCreated keys.
Proof.
  intros [keys H].
  destruct (H (concat keys) []) as [_ Hfalse].
  rewrite constructor_regular with (content := concat keys) in Hfalse by reflexivity.
  simpl in Hfalse. discriminate Hfalse.
  apply Forall_forall. intros key Hin. now apply occursIn_concat.
Qed.

(** C8 (amended).  At startup three of the five flags are derived from the
    configuration file by substring search: the wallet flag is true exactly
    when [WALLET_PRIVATE_KEY=] occurs in the content, the RPC flag exactly
    when [RPC_URL=] occurs, the fee-settings flag exactly when
    [MIN_TIP_LAMPORTS=], [TIP_PERCENT=] and [FEE_RECIPIENT=] all occur.  The
    keypairs and pool-bundle flags are false after startup whatever the
    file holds, and all five are false when there is no file. *)
Theorem startup_status (s0 : state) :
  let s := snd (constructor s0) in
  match configFile s0 with
  | Regular content =>
      fst (constructor s0) = Return tt /\
      (walletConfigured (status s) = true <->
         occursIn (js "WALLET_PRIVATE_KEY=") content) /\
      (rpcConfigured (status s) = true <-> occursIn (js "RPC_URL=") content) /\
      (feeSettingsConfigured (status s) = true <->
         occursIn (js "MIN_TIP_LAMPORTS=") content /\
         occursIn (js "TIP_PERCENT=") content /\
         occursIn (js "FEE_RECIPIENT=") content) /\
      keypairsCreated (status s) = false /\
      poolBundleReady (status s) = false
  | Missing => fst (constructor s0) = Return tt /\ status s = initialStatus
  | Directory => exists e, fst (constructor s0) = Throw e
  end.
Proof.
  intros s. subst s. destruct (configFile s0) as [| content |] eqn:Hf.
  - destruct s0 as [st fee f input out]. simpl in Hf. subst f. split; reflexivity.
  - rewrite (constructor_regular content s0 Hf). simpl.
    rewrite !andb_true_iff, !includes_spec. tauto.
  - destruct s0 as [st fee f input out]. simpl in Hf. subst f.
    eexists. reflexivity.
Qed.

(** ** Lines *)

Lemma split_nonempty (sep : ascii) (s : str) : split sep s <> [].
Proof.
  induction s as [| c s IH]; simpl; [discriminate |].
  destruct (Ascii.eqb c sep); [discriminate |].
  destruct (split sep s); discriminate.
Qed.

Lemma split_app_sep (sep : ascii) (a b : str) :
  split sep (a ++ sep :: b) = split sep a ++ split sep b.
Proof.
  induction a as [| c a IH]; simpl.
  - now rewrite Ascii.eqb_refl.
  - destruct (Ascii.eqb c sep); [now rewrite IH |].
    rewrite IH. pose proof (split_nonempty sep a) as Hne.
    destruct (split sep a) as [| l ls]; [congruence | reflexivity].
Qed.

Lemma split_no_sep (sep : ascii) (s : str) : ~ In sep s -> split sep s = [s].
Proof.
  induction s as [| c s IH]; simpl; [reflexivity |].
  intros H. destruct (Ascii.eqb c sep) eqn:Hc.
  - apply Ascii.eqb_eq in Hc. tauto.
  - rewrite IH by tauto. reflexivity.
Qed.

Lemma split_hd_app (sep : ascii) (a b : str) :
  ~ In sep a -> hd [] (split sep (a ++ sep :: b)) = a.
Proof.
  intros H. rewrite split_app_sep, split_no_sep by assumption. reflexivity.
Qed.

(** ** Adding a wallet *)

Lemma addWallet_run (s : state) (content key : str) (rest : list str) :
  fileText (configFile s) = Some content ->
  stdin s = key :: rest -> 32 <= length key ->
  configFile (snd (addWallet s)) =
  Regular (content ++ js "\n" ++
           (js "WALLET_" ++ decimal (matchCount content numberedWalletKey + 1) ++
            js "_PRIVATE_KEY") ++ js "=" ++ key).
Proof.
  intros Hf Hin Hlen.
  assert (Hnot : (length key <? 32) = false) by (apply Nat.ltb_ge; exact Hlen).
  destruct s as [st fee f input out]; simpl in Hin, Hf; subst input.
  unfold addWallet. run.
  destruct key as [| c key]; [simpl in Hlen; lia |].
  unfold truthy. rewrite Hnot. run.
  destruct f as [| text |]; inversion Hf; subst; reflexivity.
Qed.

(** ** The pattern of the numbered wallet keys *)

Lemma matchHere_literal (p : str) (r : regex) (s : str) :
  matchHere (literal p ++ r) s =
  if startsWith s p then matchHere r (skipn (length p) s) else None.
Proof.
  revert s. induction p as [| c p IH]; intros s; simpl; [reflexivity |].
  destruct s as [| d s]; [reflexivity |].
  rewrite (Ascii.eqb_sym d c). destruct (Ascii.eqb c d); simpl; [apply IH | reflexivity].
Qed.

(** A greedy star whose continuation fails on every character of the
    class does not backtrack: it takes the longest run. *)
Lemma matchStar_digits (k : str -> option str) (s : str) :
  (forall c t, isDigit c = true -> k (c :: t) = None) ->
  matchStar Digit k s = k (dropDigits s).
Proof.
  intros Hk. induction s as [| c s IH]; simpl; [reflexivity |].
  destruct (isDigit c) eqn:Hc; [| reflexivity].
  rewrite IH. destruct (k (dropDigits s)); [reflexivity |]. now apply Hk.
Qed.

Lemma dropDigits_app (digits rest : str) :
  Forall (fun c => isDigit c = true) digits ->
  dropDigits (digits ++ rest) = dropDigits rest.
Proof.
  induction 1 as [| c digits Hc _ IH]; simpl; [reflexivity |]. now rewrite Hc.
Qed.

Lemma dropDigits_split (s : str) :
  exists digits, Forall (fun c => isDigit c = true) digits /\ s = digits ++ dropDigits s.
Proof.
  induction s as [| c s (digits & Hd & Hs)]; simpl.
  - now exists [].
  - destruct (isDigit c) eqn:Hc.
    + exists (c :: digits). split; [now constructor |]. simpl. now rewrite <- Hs.
    + now exists [].
Qed.

Lemma matchHere_literal_only (p : str) (s : str) :
  matchHere (literal p) s =
  if startsWith s p then Some (skipn (length p) s) else None.
Proof.
  rewrite <- (app_nil_r (literal p)). apply matchHere_literal.
Qed.

Lemma matchHere_digits (r : regex) (s : str) :
  matchHere ([One Digit; Star Digit] ++ r) s =
  match s with
  | c :: u => if isDigit c then matchStar Digit (matchHere r) u else None
  | [] => None
  end.
Proof. reflexivity. Qed.

Lemma underscore_key_not_digit (c : ascii) (t : str) :
  isDigit c = true -> matchHere (literal (js "_PRIVATE_KEY")) (c :: t) = None.
Proof.
  intros Hc. rewrite matchHere_literal_only.
  replace (startsWith (c :: t) (js "_PRIVATE_KEY")) with false; [reflexivity |].
  change (false = Ascii.eqb "_"%char c && startsWith t (js "PRIVATE_KEY")).
  destruct (Ascii.eqb_spec "_"%char c) as [<- | _]; [discriminate Hc | reflexivity].
Qed.

Lemma matchHere_numbered (s : str) :
  matchHere numberedWalletKey s =
  if numberedKeyAt s
  then Some (skipn 12 (dropDigits (skipn 8 s)))
  else None.
Proof.
  unfold numberedWalletKey, numberedKeyAt.
  rewrite matchHere_literal, matchHere_digits.
  destruct (startsWith s (js "WALLET_")) eqn:Hw; [| reflexivity].
  change (length (js "WALLET_")) with 7. rewrite andb_true_l.
  apply startsWith_spec in Hw. destruct Hw as [t ->].
  change (skipn 7 (js "WALLET_" ++ t)) with t.
  change (skipn 8 (js "WALLET_" ++ t)) with (skipn 1 t).
  destruct t as [| c u]; [reflexivity |].
  change (skipn 1 (c :: u)) with u.
  destruct (isDigit c); [| reflexivity]. rewrite andb_true_l.
  rewrite matchStar_digits by (apply underscore_key_not_digit).
  apply matchHere_literal_only.
Qed.

Lemma numberedKeyAt_spec (t : str) : numberedKeyAt t = true <-> beginsNumberedKey t.
Proof.
  unfold numberedKeyAt, beginsNumberedKey. split.
  - rewrite andb_true_iff. intros [Hw H].
    apply startsWith_spec in Hw. destruct Hw as [u ->].
    change (skipn 7 (js "WALLET_" ++ u)) with u in H.
    destruct u as [| c u]; [discriminate |].
    apply andb_true_iff in H. destruct H as [Hc Hp].
    apply startsWith_spec in Hp. destruct Hp as [rest Hrest].
    destruct (dropDigits_split u) as (digits & Hd & Hu).
    exists (c :: digits), rest. split; [discriminate |]. split; [now constructor |].
    f_equal. simpl. f_equal. rewrite Hu. now rewrite Hrest.
  - intros (digits & rest & Hne & Hd & ->).
    destruct digits as [| c digits]; [congruence |].
    inversion Hd as [| ? ? Hc Hd']; subst.
    apply andb_true_iff. split.
    + apply startsWith_spec. eexists. reflexivity.
    + change (skipn 7 (js "WALLET_" ++ (c :: digits) ++ js "_PRIVATE_KEY" ++ rest))
        with (c :: digits ++ js "_PRIVATE_KEY" ++ rest).
      cbv beta iota. rewrite Hc, dropDigits_app by assumption.
      apply startsWith_spec. exists rest.
      change (dropDigits (js "_PRIVATE_KEY" ++ rest)) with (js "_PRIVATE_KEY" ++ rest).
      reflexivity.
Qed.

Lemma numberedKeyAt_W (c : ascii) (s : str) : notW c -> numberedKeyAt (c :: s) = false.
Proof.
  intros Hc. unfold numberedKeyAt.
  replace (startsWith (c :: s) (js "WALLET_")) with false; [reflexivity |].
  change (false = Ascii.eqb "W"%char c && startsWith s (js "ALLET_")).
  destruct (Ascii.eqb_spec "W"%char c) as [<- | _]; [now destruct Hc | reflexivity].
Qed.

Lemma digit_notW (c : ascii) : isDigit c = true -> notW c.
Proof. intros H ->. discriminate H. Qed.

(** What a match of the pattern covers, after its first character, holds
    no [W]: no other match begins inside it. *)
Lemma numbered_match_covers (s : str) :
  numberedKeyAt s = true ->
  exists rest,
    matchHere numberedWalletKey s = Some rest /\
    Forall notW (firstn (length s - length rest - 1) (tl s)).
Proof.
  intros H. rewrite matchHere_numbered, H. eexists. split; [reflexivity |].
  apply numberedKeyAt_spec in H. destruct H as (digits & r & Hne & Hd & ->).
  destruct digits as [| c digits]; [congruence |].
  inversion Hd as [| ? ? Hc Hd']; subst.
  change (skipn 8 (js "WALLET_" ++ (c :: digits) ++ js "_PRIVATE_KEY" ++ r))
    with (digits ++ js "_PRIVATE_KEY" ++ r).
  rewrite dropDigits_app by assumption.
  change (skipn 12 (dropDigits (js "_PRIVATE_KEY" ++ r))) with r.
  change (tl (js "WALLET_" ++ (c :: digits) ++ js "_PRIVATE_KEY" ++ r))
    with (js "ALLET_" ++ (c :: digits) ++ js "_PRIVATE_KEY" ++ r).
  replace (length (js "WALLET_" ++ (c :: digits) ++ js "_PRIVATE_KEY" ++ r) - length r - 1)
    with (length (js "ALLET_" ++ (c :: digits) ++ js "_PRIVATE_KEY")).
  2:{ rewrite !length_app. change (length (js "WALLET_")) with 7.
      change (length (js "ALLET_")) with 6. lia. }
  rewrite !app_assoc, firstn_app, Nat.sub_diag, firstn_all, firstn_O, app_nil_r.
  rewrite <- app_assoc.
  apply Forall_app. split; [| apply Forall_app; split].
  - repeat constructor; discriminate.
  - constructor; [now apply digit_notW |].
    eapply Forall_impl; [| exact Hd']. intros a. apply digit_notW.
  - repeat constructor; discriminate.
Qed.

(** The matches the global search counts are exactly the places at which a
    numbered key begins. *)
Lemma countMatches_numbered (s : str) (skip : nat) :
  Forall notW (firstn skip s) ->
  countMatches numberedWalletKey skip s = occurrencesOfNumberedKey s.
Proof.
  revert skip. induction s as [| c s IH]; intros skip Hskip.
  - destruct skip; reflexivity.
  - destruct skip as [| skip].
    + cbn [countMatches occurrencesOfNumberedKey].
      destruct (numberedKeyAt (c :: s)) eqn:Hat.
      * destruct (numbered_match_covers (c :: s) Hat) as (rest & -> & Hcov).
        simpl tl in Hcov. rewrite (IH _ Hcov). reflexivity.
      * rewrite matchHere_numbered, Hat. apply IH. constructor.
    + cbn [countMatches occurrencesOfNumberedKey].
      simpl in Hskip. inversion Hskip as [| ? ? Hc Hrest]; subst.
      rewrite (numberedKeyAt_W c s Hc). apply IH. exact Hrest.
Qed.

Lemma matchCount_numbered (s : str) :
  matchCount s numberedWalletKey = occurrencesOfNumberedKey s.
Proof. apply countMatches_numbered. constructor. Qed.

(** The decimal digits of a number hold no [=]. *)
Lemma string_of_uint_digits (u : Decimal.uint) :
  Forall (fun c => isDigit c = true) (list_ascii_of_string (NilEmpty.string_of_uint u)).
Proof.
  induction u; simpl; constructor; trivial.
Qed.

Lemma decimal_digits (n : nat) : Forall (fun c => isDigit c = true) (decimal n).
Proof.
  unfold decimal, NilZero.string_of_uint.
  destruct (Nat.to_uint n) eqn:Hu; try (rewrite <- Hu; apply string_of_uint_digits).
  repeat constructor.
Qed.

Lemma numbered_name_no_eq (n : nat) :
  ~ In "="%char (js "WALLET_" ++ decimal n ++ js "_PRIVATE_KEY").
Proof.
  intros H. apply in_app_or in H. destruct H as [H | H].
  - simpl in H. repeat (destruct H as [H | H]; [discriminate H |]). exact H.
  - apply in_app_or in H. destruct H as [H | H].
    + pose proof (decimal_digits n) as Hd. rewrite Forall_forall in Hd.
      specialize (Hd _ H). discriminate Hd.
    + simpl in H. repeat (destruct H as [H | H]; [discriminate H |]). exact H.
Qed.

(** C10.  With a key of at least 32 characters typed on one line,
    add-wallet writes the old text followed by one new line
    [WALLET_(n+1)_PRIVATE_KEY=key], where [n] is the number of places of
    the old text at which a name [WALLET_<digits>_PRIVATE_KEY] begins: every
    line of the old text is still there, in its place, and exactly one line
    follows them.  The name comes from a count, not from the numbers in
    use: after adding two wallets and removing the first, adding a third
    gives the name [WALLET_2_PRIVATE_KEY] a second time. *)
Theorem addWallet_appends :
  (forall (s : state) (content key : str) (rest : list str),
      fileText (configFile s) = Some content ->
      stdin s = key :: rest -> 32 <= length key -> ~ In LF key ->
      let n := occurrencesOfNumberedKey content in
      let name := js "WALLET_" ++ decimal (n + 1) ++ js "_PRIVATE_KEY" in
      let line := name ++ js "=" ++ key in
      lineKey line = name /\
      exists text,
        configFile (snd (addWallet s)) = Regular text /\
        split LF text = split LF content ++ [line]) /\
  (let first := js "4f3edf983ac636a65a842ce7c78d9aa706d3b113bce9c46f30d7d21715b23b1d" in
   let second := js "6cbed15c793ce57650b9877cf6fa156fbef513c4e6134f022a85b1ffdd59b2a1" in
   let third := js "6370fd033278c143179d81c5526140625662b8daa446c22ee2d73db3707e620c" in
   let s := snd ((addWallet ;; addWallet ;; removeWallet ;; addWallet)
                   (boot Missing [first; second; js "1"; third])) in
   exists text,
     configFile s = Regular text /\
     linesWithKey (js "WALLET_2_PRIVATE_KEY") text =
       [js "WALLET_2_PRIVATE_KEY=" ++ second; js "WALLET_2_PRIVATE_KEY=" ++ third]).
Proof.
  split.
  - intros s content key rest Hf Hin Hlen Hnl n name line. split.
    + unfold lineKey, line. apply split_hd_app. apply numbered_name_no_eq.
    + eexists. split.
      * rewrite (addWallet_run s content key rest Hf Hin Hlen).
        rewrite matchCount_numbered. reflexivity.
      * change (js "\n") with [LF]. simpl app at 1.
        rewrite split_app_sep. f_equal.
        apply split_no_sep. intros H.
        apply in_app_or in H. destruct H as [H | H].
        -- apply in_app_or in H. destruct H as [H | H];
             [simpl in H; repeat (destruct H as [H | H]; [discriminate H |]); exact H |].
           apply in_app_or in H. destruct H as [H | H].
           ++ pose proof (decimal_digits (occurrencesOfNumberedKey content + 1)) as Hd.
              rewrite Forall_forall in Hd. specialize (Hd _ H). discriminate Hd.
           ++ simpl in H. repeat (destruct H as [H | H]; [discriminate H |]). exact H.
        -- simpl in H. destruct H as [H | H]; [discriminate H | tauto].
  - eexists. split; vm_compute; reflexivity.
Qed.

(** A file with one numbered wallet and the RPC line: the new line is
    named with 2. *)
Lemma addWallet_appends_witness :
  let key := js "4f3edf983ac636a65a842ce7c78d9aa706d3b113bce9c46f30d7d21715b23b1d" in
  let s := boot (Regular (js "WALLET_1_PRIVATE_KEY=abc\nRPC_URL=http://localhost:8899")) [key] in
  exists text,
    configFile (snd (addWallet s)) = Regular text /\
    split LF text =
      [js "WALLET_1_PRIVATE_KEY=abc"; js "RPC_URL=http://localhost:8899";
       js "WALLET_2_PRIVATE_KEY=" ++ key].
Proof.
  intros key s.
  destruct (proj1 addWallet_appends s
              (js "WALLET_1_PRIVATE_KEY=abc\nRPC_URL=http://localhost:8899") key [])
    as (_ & text & Hfile & Hlines).
  - reflexivity.
  - reflexivity.
  - vm_compute. lia.
  - vm_compute. intuition discriminate.
  - exists text. split; [exact Hfile | exact Hlines].
Defined.

(** ** Runs that show the defects *)

(** C2.  The second upsert of a key goes through [String.replace], which
    reads [$$] in the new value as one dollar sign: after the RPC URL
    [http://a] the URL [http://b/$$] is stored as [http://b/$], so the one
    line with the key does not hold the latest value. *)
Theorem second_upsert_rewrites_dollars :
  let v1 := js "http://a" in
  let v2 := js "http://b/$$" in
  let s := snd ((handleConfigureRPC ;; handleConfigureRPC) (boot Missing [v1; []; v2; []])) in
  ~ occursIn (js "RPC_URL") [] /\
  configFile s = Regular (js "\nRPC_URL=http://b/$") /\
  linesWithKey (js "RPC_URL") (js "\nRPC_URL=http://b/$") = [js "RPC_URL=http://b/$"] /\
  js "RPC_URL=http://b/$" <> js "RPC_URL=" ++ v2.
Proof.
  repeat split; try reflexivity.
  - intros (pre & post & H). destruct pre; discriminate H.
  - discriminate.
Qed.

(** C3.  Remove-wallet drops every line equal to the chosen one.  With two
    equal wallet lines (what adding the same key twice after a removal
    leaves), removing wallet 1 removes both, where the claim keeps the
    second. *)
Theorem removeWallet_drops_equal_lines :
  let key := js "6cbed15c793ce57650b9877cf6fa156fbef513c4e6134f022a85b1ffdd59b2a1" in
  let line := js "WALLET_2_PRIVATE_KEY=" ++ key in
  let content := js "\n" ++ line ++ js "\n" ++ line in
  let s := snd (removeWallet (boot (Regular content) [js "1"])) in
  filter isWalletLine (split LF content) = [line; line] /\
  configFile s = Regular [] /\
  join (js "\n") (dropKthWalletLine 0 (split LF content)) = js "\n" ++ line.
Proof.
  repeat split; vm_compute; reflexivity.
Qed.

(** The same file is reached from an empty directory through the menu: two
    wallets added, the first removed, the second key added again. *)
Example equal_wallet_lines_reachable :
  let first := js "4f3edf983ac636a65a842ce7c78d9aa706d3b113bce9c46f30d7d21715b23b1d" in
  let key := js "6cbed15c793ce57650b9877cf6fa156fbef513c4e6134f022a85b1ffdd59b2a1" in
  let line := js "WALLET_2_PRIVATE_KEY=" ++ key in
  configFile (snd ((addWallet ;; addWallet ;; removeWallet ;; addWallet)
                     (boot Missing [first; key; js "1"; key])))
  = Regular (js "\n" ++ line ++ js "\n" ++ line).
Proof. vm_compute. reflexivity. Qed.

(** C4.  View-wallets reads the file and takes every wallet line apart
    outside any [try]; a wallet line without [=] makes it throw, nothing
    between it and [main] catches, and the process exits with code 1.
    Such a line is in the file from the start in the first run; in the
    second the menu alone writes it, from an empty directory (the second
    RPC URL uses the replacement pattern for the text before the match). *)
Theorem view_wallets_exits_process (E : Engine) :
  (let s := boot (Regular (js "WALLET_BACKUP")) [js "7"; js "1"; js "8"] in
   fst (main s) = Halt (Exited 1) /\ exitCode (fst (main s)) = Some 1%Z /\
   stdin (snd (main s)) = [js "8"]) /\
  (let s := boot Missing [js "2"; js "a"; []; js "2"; js "$`WALLET_"; [];
                          js "7"; js "1"; js "8"] in
   fst (main s) = Halt (Exited 1) /\ exitCode (fst (main s)) = Some 1%Z /\
   stdin (snd (main s)) = [js "8"]).
Proof.
  repeat split; vm_compute; reflexivity.
Qed.

(** A failure at startup is fatal as the specification says: a
    configuration path that cannot be read ends the process with code 1
    before the menu is shown. *)
Lemma startup_failure_exits (E : Engine) (input : list str) :
  fst (main (boot Directory input)) = Halt (Exited 1) /\
  stdin (snd (main (boot Directory input))) = input.
Proof. split; reflexivity. Qed.

(** Errors thrown inside the [try] of a handler are caught there: with the
    configuration path unreadable after startup, configure-wallet prints
    the error and returns. *)
Lemma configureWallet_catches (s : state) (key : str) (rest : list str) :
  configFile s = Directory -> stdin s = key :: rest ->
  fst (handleConfigureWallet s) = fst (pressEnterToContinue (withStdin rest s)) /\
  reportsError (printedSince s (snd (handleConfigureWallet s))).
Proof.
  intros Hf Hin.
  destruct s as [st fee f input out]; simpl in Hin, Hf; subst input f.
  unfold handleConfigureWallet. run.
  destruct key as [| c key].
  - run. split.
    + unfold pressEnterToContinue. run. destruct rest; reflexivity.
    + eapply pressEnter_reports with (e := Log red (js "\n✗ Invalid wallet key"));
        [printed | simpl; eauto 10 | reflexivity].
  - unfold truthy. destruct (length (c :: key) <? 32); run.
    + split.
      * unfold pressEnterToContinue. run. destruct rest; reflexivity.
      * eapply pressEnter_reports with
          (e := Log red (js "\n✗ Error configuring wallet:" ++ js " " ++ js "Invalid key format"));
          [printed | simpl; eauto 10 | reflexivity].
    + split.
      * unfold pressEnterToContinue. run. destruct rest; reflexivity.
      * eapply pressEnter_reports with
          (e := Log red (js "\n✗ Error configuring wallet:" ++ js " " ++
                         js "EISDIR: illegal operation on a directory"));
          [printed | simpl; eauto 10 | reflexivity].
Qed.

(** ** Doubles that are integers *)

Lemma digits2_size (p : positive) : digits2_pos p = Pos.size p.
Proof. induction p; simpl; congruence. Qed.

Lemma digits2_bounds (p : positive) :
  (2 ^ (Zpos (digits2_pos p) - 1) <= Zpos p < 2 ^ Zpos (digits2_pos p))%Z.
Proof.
  rewrite digits2_size. split.
  - pose proof (Pos.size_le p) as H.
    apply Pos2Z.pos_le_pos in H. rewrite Pos2Z.inj_pow in H.
    change (Zpos p~0) with (2 * Zpos p)%Z in H.
    replace (Zpos (Pos.size p)) with (Z.succ (Zpos (Pos.size p) - 1)) in H by lia.
    rewrite Z.pow_succ_r in H by lia. lia.
  - pose proof (Pos.size_gt p) as H.
    apply Pos2Z.pos_lt_pos in H. now rewrite Pos2Z.inj_pow in H.
Qed.

Lemma iter_xO_Z (p k : positive) :
  Zpos (Pos.iter xO p k) = (Zpos p * 2 ^ Zpos k)%Z.
Proof.
  induction k as [| k IH] using Pos.peano_ind.
  - simpl. lia.
  - rewrite Pos.iter_succ, Pos2Z.inj_succ, Z.pow_succ_r by lia.
    change (Zpos (Pos.iter xO p k)~0) with (2 * Zpos (Pos.iter xO p k))%Z.
    rewrite IH. lia.
Qed.

Lemma digits2_iter_xO (p k : positive) :
  digits2_pos (Pos.iter xO p k) = (digits2_pos p + k)%positive.
Proof.
  induction k as [| k IH] using Pos.peano_ind.
  - simpl. lia.
  - rewrite Pos.iter_succ. simpl. rewrite IH. lia.
Qed.

(** The number of binary digits is decided by the powers of two around. *)
Lemma digits2_unique (p : positive) (d : Z) :
  (2 ^ (d - 1) <= Zpos p < 2 ^ d)%Z -> Zpos (digits2_pos p) = d.
Proof.
  intros [Hlo Hhi]. pose proof (digits2_bounds p) as [Blo Bhi].
  assert (0 < d)%Z.
  { destruct (Z_lt_le_dec 0 d); trivial.
    assert (2 ^ d <= 2 ^ 0)%Z by (apply Z.pow_le_mono_r; lia). simpl in *. lia. }
  destruct (Z.lt_trichotomy (Zpos (digits2_pos p)) d) as [Hlt | [Heq | Hgt]]; trivial.
  - assert (2 ^ Zpos (digits2_pos p) <= 2 ^ (d - 1))%Z by (apply Z.pow_le_mono_r; lia). lia.
  - assert (2 ^ d <= 2 ^ (Zpos (digits2_pos p) - 1))%Z by (apply Z.pow_le_mono_r; lia). lia.
Qed.

Lemma digits2_mul_pow2 (m p : positive) (k : Z) :
  (0 <= k)%Z -> Zpos m = (Zpos p * 2 ^ k)%Z ->
  Zpos (digits2_pos m) = (Zpos (digits2_pos p) + k)%Z.
Proof.
  intros Hk Hm. apply digits2_unique. rewrite Hm.
  pose proof (digits2_bounds p) as [Blo Bhi].
  replace (Zpos (digits2_pos p) + k - 1)%Z with ((Zpos (digits2_pos p) - 1) + k)%Z by lia.
  rewrite !Z.pow_add_r by lia.
  assert (0 < 2 ^ k)%Z by (apply Z.pow_pos_nonneg; lia).
  split; [apply Z.mul_le_mono_nonneg_r; lia | apply Z.mul_lt_mono_pos_r; lia].
Qed.

(** Shifting right a mantissa whose low bits are zero loses nothing. *)
Lemma iter_pos_iter {A} (f : A -> A) (n : positive) (x : A) :
  iter_pos f n x = Pos.iter f x n.
Proof.
  revert x. induction n as [n IH | n IH |]; intros x; simpl.
  - rewrite !IH. now rewrite <- !Pos.iter_swap.
  - now rewrite !IH.
  - reflexivity.
Qed.

Lemma shr_exact (n m p : positive) :
  Zpos m = (Zpos p * 2 ^ Zpos n)%Z ->
  iter_pos shr_1 n {| shr_m := Zpos m; shr_r := false; shr_s := false |} =
  {| shr_m := Zpos p; shr_r := false; shr_s := false |}.
Proof.
  rewrite iter_pos_iter. revert m.
  induction n as [| n IH] using Pos.peano_ind; intros m Hm.
  - change (2 ^ 1)%Z with 2%Z in Hm.
    destruct m as [m | m |]; try lia.
    simpl. f_equal. lia.
  - rewrite Pos2Z.inj_succ, Z.pow_succ_r in Hm by lia.
    rewrite Pos.iter_succ_r.
    destruct m as [m | m |]; try lia.
    simpl. apply IH. lia.
Qed.

Lemma fexp_normal (d : Z) : (-1021 <= d)%Z -> fexp prec emax d = (d - 53)%Z.
Proof. unfold fexp, emin, prec, emax. lia. Qed.

(** A mantissa that is a 53-bit one times a power of two is rounded to the
    53-bit one, exactly. *)
Lemma binary_round_aux_exact (s : bool) (m p : positive) (e n : Z) :
  (0 <= n)%Z -> Zpos m = (Zpos p * 2 ^ n)%Z -> Zpos (digits2_pos p) = 53%Z ->
  (-1074 <= e + n <= 971)%Z ->
  binary_round_aux prec emax s (Zpos m) e loc_Exact = S754_finite s p (e + n).
Proof.
  intros Hn Hm Hp He.
  assert (Hdm : Zpos (digits2_pos m) = (53 + n)%Z).
  { rewrite (digits2_mul_pow2 m p n Hn Hm). lia. }
  assert (Hfirst : shr_fexp prec emax (Zpos m) e loc_Exact =
                   ({| shr_m := Zpos p; shr_r := false; shr_s := false |}, (e + n)%Z)).
  { unfold shr_fexp, Zdigits2. rewrite Hdm, fexp_normal by lia.
    replace (53 + n + e - 53 - e)%Z with n by lia.
    unfold shr, shr_record_of_loc. destruct n as [| n | n]; try lia.
    - f_equal; [| lia]. f_equal. lia.
    - now rewrite (shr_exact n m p Hm). }
  assert (Hsecond : shr_fexp prec emax (Zpos p) (e + n) loc_Exact =
                    ({| shr_m := Zpos p; shr_r := false; shr_s := false |}, (e + n)%Z)).
  { unfold shr_fexp, Zdigits2. rewrite Hp, fexp_normal by lia.
    replace (53 + (e + n) - 53 - (e + n))%Z with 0%Z by lia. reflexivity. }
  unfold binary_round_aux. rewrite Hfirst.
  cbn [shr_m loc_of_shr_record round_nearest_even]. rewrite Hsecond.
  cbn [shr_m]. unfold emax, prec.
  destruct (Z.leb_spec (e + n) (1024 - 53)); [reflexivity | lia].
Qed.

Lemma normalForm_mantissa (p : positive) :
  (Zpos (digits2_pos p) <= 53)%Z ->
  let q := Z.to_pos (Zpos p * 2 ^ (53 - Zpos (digits2_pos p))) in
  Zpos q = (Zpos p * 2 ^ (53 - Zpos (digits2_pos p)))%Z /\
  Zpos (digits2_pos q) = 53%Z.
Proof.
  intros Hd q.
  assert (Hq : Zpos q = (Zpos p * 2 ^ (53 - Zpos (digits2_pos p)))%Z).
  { unfold q. rewrite Z2Pos.id; [reflexivity |].
    apply Z.mul_pos_pos; [lia | apply Z.pow_pos_nonneg; lia]. }
  split; [exact Hq |].
  rewrite (digits2_mul_pow2 q p (53 - Zpos (digits2_pos p)) ltac:(lia) Hq). lia.
Qed.

(** Rounding an integer below 2^53, given as a mantissa and a power of
    two, yields the double that is this integer. *)
Lemma binary_round_exact (s : bool) (m p : positive) (k : Z) :
  (0 <= k)%Z -> Zpos m = (Zpos p * 2 ^ k)%Z -> (Zpos (digits2_pos p) <= 53)%Z ->
  binary_round prec emax s m (- k) = normalForm s p.
Proof.
  intros Hk Hm Hd.
  destruct (normalForm_mantissa p Hd) as [Hq Hdq].
  set (d := Zpos (digits2_pos p)) in *.
  set (q := Z.to_pos (Zpos p * 2 ^ (53 - d))) in *.
  assert (Hdpos : (0 < d)%Z) by (unfold d; lia).
  unfold binary_round, normalForm. fold d. fold q.
  rewrite (digits2_mul_pow2 m p k Hk Hm). fold d.
  rewrite fexp_normal by lia.
  replace (d + k + - k - 53)%Z with (d - 53)%Z by lia.
  unfold shl_align.
  destruct (d - 53 - - k)%Z as [| z | z] eqn:Hz.
  - (* the mantissa has 53 bits already *)
    rewrite (binary_round_aux_exact s m q (- k) 0); try lia.
    + f_equal. lia.
    + rewrite Hm, Hq. replace k with (53 - d)%Z by lia. simpl (2 ^ 0)%Z. lia.
  - (* too many bits: the low ones are zero *)
    rewrite (binary_round_aux_exact s m q (- k) (Zpos z)); try lia.
    + f_equal. lia.
    + rewrite Hm, Hq. replace k with ((53 - d) + Zpos z)%Z by lia.
      rewrite Z.pow_add_r by lia. lia.
  - (* too few bits: shifted left *)
    rewrite (binary_round_aux_exact s (Pos.iter xO m z) q (d - 53) 0); try lia.
    + f_equal. lia.
    + rewrite iter_xO_Z, Hm, Hq. simpl (2 ^ 0)%Z.
      replace (53 - d)%Z with (k + Zpos z)%Z by lia.
      rewrite Z.pow_add_r by lia. lia.
Qed.

Lemma ofZ_pos (p : positive) :
  (Zpos (digits2_pos p) <= 53)%Z -> ofZ (Zpos p) = normalForm false p.
Proof.
  intros Hd. unfold ofZ, binary_normalize.
  apply (binary_round_exact false p p 0); simpl; lia.
Qed.

Lemma ofZ_neg (p : positive) :
  (Zpos (digits2_pos p) <= 53)%Z -> ofZ (Zneg p) = normalForm true p.
Proof.
  intros Hd. unfold ofZ, binary_normalize.
  apply (binary_round_exact true p p 0); simpl; lia.
Qed.

Lemma digits2_below (p : positive) :
  (Zpos p < 2 ^ 53)%Z -> (Zpos (digits2_pos p) <= 53)%Z.
Proof.
  intros H. pose proof (digits2_bounds p) as [Blo _].
  destruct (Z_le_gt_dec (Zpos (digits2_pos p)) 53); trivial.
  assert (2 ^ 53 <= 2 ^ (Zpos (digits2_pos p) - 1))%Z by (apply Z.pow_le_mono_r; lia).
  lia.
Qed.

Lemma shl_align_fst (m : positive) (e e' : Z) :
  (e' <= e)%Z -> Zpos (fst (shl_align m e e')) = (Zpos m * 2 ^ (e - e'))%Z.
Proof.
  intros H. unfold shl_align. destruct (e' - e)%Z as [| z | z] eqn:Hz; try lia.
  - cbn [fst]. replace (e - e')%Z with 0%Z by lia. change (2 ^ 0)%Z with 1%Z. lia.
  - cbn [fst]. rewrite iter_xO_Z. f_equal. f_equal. lia.
Qed.

(** The sum of two doubles that are whole numbers is the sum of the
    numbers, when that is below 2^53. *)
Lemma add_normalForm (p q : positive) :
  (Zpos (p + q) < 2 ^ 53)%Z ->
  add (normalForm false p) (normalForm false q) = normalForm false (p + q).
Proof.
  intros Hsum.
  assert (Hp : (Zpos (digits2_pos p) <= 53)%Z) by (apply digits2_below; lia).
  assert (Hq : (Zpos (digits2_pos q) <= 53)%Z) by (apply digits2_below; lia).
  assert (Hpq : (Zpos (digits2_pos (p + q)) <= 53)%Z) by (apply digits2_below; lia).
  destruct (normalForm_mantissa p Hp) as [Hmp _].
  destruct (normalForm_mantissa q Hq) as [Hmq _].
  unfold add, normalForm, SFadd.
  set (dp := Zpos (digits2_pos p)) in *. set (dq := Zpos (digits2_pos q)) in *.
  set (mp := Z.to_pos (Zpos p * 2 ^ (53 - dp))) in *.
  set (mq := Z.to_pos (Zpos q * 2 ^ (53 - dq))) in *.
  set (ez := Z.min (dp - 53) (dq - 53)).
  assert (Hdp : (0 < dp)%Z) by (unfold dp; lia).
  assert (Hdq : (0 < dq)%Z) by (unfold dq; lia).
  assert (Hez : (ez <= 0)%Z) by (unfold ez; lia).
  unfold cond_Zopp.
  rewrite !shl_align_fst by (unfold ez; lia).
  assert (Hleft : (Zpos mp * 2 ^ (dp - 53 - ez) = Zpos p * 2 ^ (- ez))%Z).
  { rewrite Hmp, <- Z.mul_assoc, <- Z.pow_add_r by (unfold ez; lia).
    f_equal. f_equal. lia. }
  assert (Hright : (Zpos mq * 2 ^ (dq - 53 - ez) = Zpos q * 2 ^ (- ez))%Z).
  { rewrite Hmq, <- Z.mul_assoc, <- Z.pow_add_r by (unfold ez; lia).
    f_equal. f_equal. lia. }
  rewrite Hleft, Hright, <- Z.mul_add_distr_r.
  assert (Hpow : (0 < 2 ^ (- ez))%Z) by (apply Z.pow_pos_nonneg; lia).
  destruct ((Zpos p + Zpos q) * 2 ^ (- ez))%Z as [| s | s] eqn:Hs; try lia.
  unfold binary_normalize.
  replace ez with (- (- ez))%Z at 1 by lia.
  apply binary_round_exact; lia.
Qed.

Lemma ofZ_nonneg_Z (z : Z) :
  (0 <= z < 2 ^ 53)%Z ->
  ofZ z = match z with Zpos p => normalForm false p | _ => S754_zero false end.
Proof.
  intros H. destruct z as [| p | p]; try lia; [reflexivity |].
  apply ofZ_pos. apply digits2_below. lia.
Qed.

Lemma add_ofZ (x y : Z) :
  (0 <= x)%Z -> (0 <= y)%Z -> (x + y < 2 ^ 53)%Z ->
  add (ofZ x) (ofZ y) = ofZ (x + y).
Proof.
  intros Hx Hy Hsum.
  rewrite (ofZ_nonneg_Z x), (ofZ_nonneg_Z y), (ofZ_nonneg_Z (x + y)) by lia.
  destruct x as [| p | p], y as [| q | q]; try lia; try reflexivity.
  simpl Z.add. apply add_normalForm. simpl in Hsum. exact Hsum.
Qed.

(** Doubles that are whole numbers compare as the numbers do. *)
Lemma compare_normalForm (s : bool) (p q : positive) :
  (Zpos (digits2_pos p) <= 53)%Z -> (Zpos (digits2_pos q) <= 53)%Z ->
  SFcompare (normalForm s p) (normalForm s q) =
  Some (if s then CompOpp (Pos.compare p q) else Pos.compare p q).
Proof.
  intros Hp Hq.
  destruct (normalForm_mantissa p Hp) as [Hmp _].
  destruct (normalForm_mantissa q Hq) as [Hmq _].
  pose proof (digits2_bounds p) as [Plo Phi].
  pose proof (digits2_bounds q) as [Qlo Qhi].
  unfold normalForm, SFcompare.
  set (dp := Zpos (digits2_pos p)) in *. set (dq := Zpos (digits2_pos q)) in *.
  set (mp := Z.to_pos (Zpos p * 2 ^ (53 - dp))) in *.
  set (mq := Z.to_pos (Zpos q * 2 ^ (53 - dq))) in *.
  assert (Hcmp : match (dp - 53 ?= dq - 53)%Z with
                 | Eq => Pos.compare_cont Eq mp mq
                 | Lt => Lt
                 | Gt => Gt
                 end = Pos.compare p q).
  { destruct (Z.compare_spec (dp - 53) (dq - 53)) as [Heq | Hlt | Hgt].
    - assert (Hd : dq = dp) by lia. rewrite Hd in Hmq.
      assert (Hpow : (0 < 2 ^ (53 - dp))%Z) by (apply Z.pow_pos_nonneg; lia).
      change (Pos.compare_cont Eq mp mq) with (Pos.compare mp mq).
      destruct (Pos.compare_spec p q) as [E | L | G].
      + assert (HH : Zpos mp = Zpos mq) by (rewrite Hmp, Hmq, E; reflexivity).
        apply Pos.compare_eq_iff. now injection HH.
      + assert (HH : (Zpos mp < Zpos mq)%Z)
          by (rewrite Hmp, Hmq; apply Z.mul_lt_mono_pos_r; lia).
        apply Pos.compare_lt_iff. lia.
      + assert (HH : (Zpos mq < Zpos mp)%Z)
          by (rewrite Hmp, Hmq; apply Z.mul_lt_mono_pos_r; lia).
        apply Pos.compare_gt_iff. lia.
    - symmetry. apply Pos.compare_lt_iff.
      assert (2 ^ dp <= 2 ^ (dq - 1))%Z by (apply Z.pow_le_mono_r; lia). lia.
    - symmetry. apply Pos.compare_gt_iff.
      assert (2 ^ dq <= 2 ^ (dp - 1))%Z by (apply Z.pow_le_mono_r; lia). lia. }
  destruct s.
  - rewrite <- Hcmp. destruct (dp - 53 ?= dq - 53)%Z; reflexivity.
  - rewrite <- Hcmp. reflexivity.
Qed.

Lemma ofZ_cases (z : Z) :
  (- 2 ^ 53 < z < 2 ^ 53)%Z ->
  ofZ z = match z with
          | Z0 => S754_zero false
          | Zpos p => normalForm false p
          | Zneg p => normalForm true p
          end /\
  match z with
  | Z0 => True
  | Zpos p | Zneg p => (Zpos (digits2_pos p) <= 53)%Z
  end.
Proof.
  intros H. destruct z as [| p | p].
  - split; reflexivity.
  - assert (Zpos (digits2_pos p) <= 53)%Z by (apply digits2_below; lia).
    split; [now apply ofZ_pos | assumption].
  - assert (Zpos (digits2_pos p) <= 53)%Z by (apply digits2_below; lia).
    split; [now apply ofZ_neg | assumption].
Qed.

Lemma compare_ofZ (x y : Z) :
  (- 2 ^ 53 < x < 2 ^ 53)%Z -> (- 2 ^ 53 < y < 2 ^ 53)%Z ->
  SFcompare (ofZ x) (ofZ y) = Some (x ?= y)%Z.
Proof.
  intros Hx Hy.
  destruct (ofZ_cases x Hx) as [-> Dx]. destruct (ofZ_cases y Hy) as [-> Dy].
  destruct x as [| p | p], y as [| q | q]; try reflexivity.
  - rewrite compare_normalForm by assumption. reflexivity.
  - rewrite compare_normalForm by assumption. reflexivity.
Qed.

Lemma Math_max_ofZ (x y : Z) :
  (- 2 ^ 53 < x < 2 ^ 53)%Z -> (- 2 ^ 53 < y < 2 ^ 53)%Z ->
  Math_max (ofZ x) (ofZ y) = ofZ (Z.max x y).
Proof.
  intros Hx Hy. unfold Math_max. rewrite compare_ofZ by assumption.
  destruct (Z.compare_spec x y) as [Heq | Hlt | Hgt].
  - subst y. rewrite Z.max_id.
    destruct (ofZ_cases x Hx) as [-> _]. destruct x; reflexivity.
  - now rewrite Z.max_r by lia.
  - now rewrite Z.max_l by lia.
Qed.

Lemma sameNumber_eq (x y : number) : sameNumber x y = true -> x = y.
Proof.
  destruct x as [a | a | | a m e], y as [b | b | | b n f]; simpl;
    try discriminate; try reflexivity.
  - intros H. apply Bool.eqb_prop in H. now subst.
  - intros H. apply Bool.eqb_prop in H. now subst.
  - rewrite !andb_true_iff. intros [[Ha Hm] He].
    apply Bool.eqb_prop in Ha. apply Pos.eqb_eq in Hm. apply Z.eqb_eq in He.
    now subst.
Qed.

Lemma forall_below (P : Z -> bool) (n : nat) :
  forallb P (map Z.of_nat (seq 0 n)) = true ->
  forall z, (0 <= z < Z.of_nat n)%Z -> P z = true.
Proof.
  intros H z Hz. rewrite forallb_forall in H. apply H.
  rewrite <- (Z2Nat.id z) by lia. apply in_map. apply in_seq. lia.
Qed.

(** ** The fee preview *)

(** For the sample amount of one SOL the product with the rounded percent
    is rounded to the whole number of lamports, for each whole percent. *)
Lemma sample_amount_floor (p : Z) :
  (0 <= p <= 100)%Z ->
  Math_floor (mul (ofZ 1000000000) (div (ofZ p) (ofZ 100))) =
  ofZ (1000000000 * p / 100).
Proof.
  intros Hp. apply sameNumber_eq.
  apply (forall_below
           (fun p => sameNumber
                       (Math_floor (mul (ofZ 1000000000) (div (ofZ p) (ofZ 100))))
                       (ofZ (1000000000 * p / 100))) 101).
  - vm_compute. reflexivity.
  - simpl. lia.
Qed.

(** One half is a double, and halving a whole number below 2^53 is exact. *)
Lemma half_is_exact : div (ofZ 50) (ofZ 100) = S754_finite false 4503599627370496 (-53).
Proof. vm_compute. reflexivity. Qed.

Lemma half_amount_floor (a : Z) :
  (0 <= a < 2 ^ 53)%Z ->
  Math_floor (mul (ofZ a) (div (ofZ 50) (ofZ 100))) = ofZ (a * 50 / 100).
Proof.
  intros Ha. rewrite half_is_exact.
  replace (a * 50 / 100)%Z with (a / 2)%Z
    by (change 100%Z with (2 * 50)%Z; now rewrite Z.div_mul_cancel_r by lia).
  destruct a as [| p | p]; try lia; [reflexivity |].
  assert (Hd : (Zpos (digits2_pos p) <= 53)%Z) by (apply digits2_below; lia).
  rewrite (ofZ_pos p Hd).
  destruct (normalForm_mantissa p Hd) as [Hm Hdm].
  unfold normalForm, mul, SFmul.
  set (d := Zpos (digits2_pos p)) in *.
  set (m := Z.to_pos (Zpos p * 2 ^ (53 - d))) in *.
  assert (Hdpos : (0 < d)%Z) by (unfold d; lia).
  rewrite (binary_round_aux_exact (xorb false false) (m * 4503599627370496) m
             (d - 53 + -53) 52); try lia.
  unfold Math_floor, cond_Zopp, xorb.
  destruct (Z.leb_spec 0 (d - 53 + -53 + 52)); [lia |].
  replace (Zpos m / 2 ^ (- (d - 53 + -53 + 52)))%Z with (Zpos p / 2)%Z.
  - destruct (Zpos p / 2)%Z; reflexivity.
  - rewrite Hm. replace (- (d - 53 + -53 + 52))%Z with (1 + (53 - d))%Z by lia.
    rewrite Z.pow_add_r by lia. change (2 ^ 1)%Z with 2%Z.
    rewrite Z.div_mul_cancel_r; [reflexivity | lia |].
    apply Z.pow_nonzero; lia.
Qed.

(** *** Products that are rounded *)

(** What a right shift leaves of a mantissa, whatever becomes of the bits
    shifted out. *)
Lemma shr_1_m (r : shr_record) :
  (0 <= shr_m r)%Z -> shr_m (shr_1 r) = (shr_m r / 2)%Z.
Proof.
  destruct r as [m r s]. cbn [shr_m]. intros Hm.
  destruct m as [| [p | p |] | p]; try lia; cbn [shr_1 shr_m].
  - reflexivity.
  - apply (Z.div_unique _ _ _ 1); [lia | now rewrite Pos2Z.inj_xI].
  - apply (Z.div_unique _ _ _ 0); [lia | rewrite Pos2Z.inj_xO; lia].
  - reflexivity.
Qed.

Lemma shr_m_iter (n : positive) (r : shr_record) :
  (0 <= shr_m r)%Z -> shr_m (iter_pos shr_1 n r) = (shr_m r / 2 ^ Zpos n)%Z.
Proof.
  rewrite iter_pos_iter. revert r.
  induction n as [| n IH] using Pos.peano_ind; intros r Hr.
  - simpl Pos.iter. now rewrite shr_1_m.
  - rewrite Pos.iter_succ_r, IH.
    + rewrite shr_1_m by assumption.
      rewrite Pos2Z.inj_succ, Z.pow_succ_r by lia.
      rewrite Z.div_div by (try apply Z.pow_pos_nonneg; lia). reflexivity.
    + rewrite shr_1_m by assumption. apply Z.div_pos; lia.
Qed.

Lemma round_nearest_even_near (m : Z) (l : location) :
  (m <= round_nearest_even m l <= m + 1)%Z.
Proof.
  destruct l as [| []]; simpl; try lia. destruct (Z.even m); lia.
Qed.

(** Rounding a mantissa of more than 53 bits: the 53 leading bits, or one
    more in the last place. *)
Lemma binary_round_aux_near (M : positive) (e : Z) :
  let d := Zpos (digits2_pos M) in
  (53 < d)%Z -> (-1021 <= d + e)%Z -> (e + d - 53 < 971)%Z ->
  exists (m1 : positive) (k : Z),
    binary_round_aux prec emax false (Zpos M) e loc_Exact =
    S754_finite false m1 (e + (d - 53) + k) /\
    (0 <= k <= 1)%Z /\
    (Zpos M / 2 ^ (d - 53) <= Zpos m1 * 2 ^ k <= Zpos M / 2 ^ (d - 53) + 1)%Z.
Proof.
  intros d Hd Hlo Hhi.
  pose proof (digits2_bounds M) as [Mlo Mhi]. fold d in Mlo, Mhi.
  set (s := (d - 53)%Z) in *.
  assert (Hs : (0 < s)%Z) by (unfold s; lia).
  set (m0 := (Zpos M / 2 ^ s)%Z).
  assert (Hm0 : (2 ^ 52 <= m0 < 2 ^ 53)%Z).
  { unfold m0. assert (0 < 2 ^ s)%Z by (apply Z.pow_pos_nonneg; lia). split.
    - apply Z.div_le_lower_bound; [lia |].
      rewrite <- Z.pow_add_r by lia. replace (s + 52)%Z with (d - 1)%Z by (unfold s; lia).
      exact Mlo.
    - apply Z.div_lt_upper_bound; [lia |].
      rewrite <- Z.pow_add_r by lia. replace (s + 53)%Z with d by (unfold s; lia).
      exact Mhi. }
  unfold binary_round_aux.
  destruct (shr_fexp prec emax (Zpos M) e loc_Exact) as [mrs' e'] eqn:Hfirst.
  assert (Hfirst' : shr_m mrs' = m0 /\ e' = (e + s)%Z).
  { unfold shr_fexp, Zdigits2 in Hfirst. fold d in Hfirst.
    rewrite fexp_normal in Hfirst by lia.
    replace (d + e - 53 - e)%Z with s in Hfirst by (unfold s; lia).
    unfold shr, shr_record_of_loc in Hfirst.
    destruct s as [| n | n] eqn:Hn; try lia.
    injection Hfirst as <- <-. split; [| reflexivity].
    rewrite shr_m_iter by (simpl; lia). reflexivity. }
  destruct Hfirst' as [Hm' ->]. rewrite Hm'.
  set (m1 := round_nearest_even m0 (loc_of_shr_record mrs')).
  pose proof (round_nearest_even_near m0 (loc_of_shr_record mrs')) as Hnear. fold m1 in Hnear.
  destruct (Z.eq_dec m1 (2 ^ 53)) as [Hfull | Hnot].
  - (* the mantissa has become 2^53: one more shift *)
    assert (Hsecond : shr_fexp prec emax m1 (e + s) loc_Exact =
                      ({| shr_m := 2 ^ 52; shr_r := false; shr_s := false |}, (e + s + 1)%Z)).
    { rewrite Hfull. unfold shr_fexp. change (Zdigits2 (2 ^ 53)) with 54%Z.
      rewrite fexp_normal by (unfold s; lia).
      replace (54 + (e + s) - 53 - (e + s))%Z with 1%Z by lia. reflexivity. }
    rewrite Hsecond. cbn [shr_m]. change (2 ^ 52)%Z with (Zpos 4503599627370496).
    exists 4503599627370496%positive, 1%Z.
    cbv beta iota. unfold emax, prec.
    destruct (Z.leb_spec (e + s + 1) (1024 - 53)); [| unfold s in *; lia].
    split; [reflexivity |]. split; [lia |].
    change (Zpos 4503599627370496 * 2 ^ 1)%Z with (2 ^ 53)%Z. lia.
  - assert (Hrange : (2 ^ 52 <= m1 < 2 ^ 53)%Z) by lia.
    destruct m1 as [| q | q] eqn:Hq; try lia.
    assert (Hdq : Zpos (digits2_pos q) = 53%Z) by (apply digits2_unique; simpl; lia).
    assert (Hsecond : shr_fexp prec emax (Zpos q) (e + s) loc_Exact =
                      ({| shr_m := Zpos q; shr_r := false; shr_s := false |}, (e + s)%Z)).
    { unfold shr_fexp, Zdigits2. rewrite Hdq, fexp_normal by (unfold s; lia).
      replace (53 + (e + s) - 53 - (e + s))%Z with 0%Z by lia. reflexivity. }
    rewrite Hsecond. cbn [shr_m]. exists q, 0%Z.
    unfold emax, prec.
    destruct (Z.leb_spec (e + s) (1024 - 53)); [| unfold s in *; lia].
    split; [f_equal; lia |]. split; [lia |].
    change (2 ^ 0)%Z with 1%Z. fold m0. lia.
Qed.

(** The whole part of the product of a whole amount and a double between
    2^-8 and 1, as [Math.floor] and [*] compute it: the product is cut to
    53 bits, or to one more in the last place, on the way. *)
Lemma product_floor (a mq : positive) (t : Z) :
  (Zpos a < 2 ^ 44)%Z -> (2 ^ 52 <= Zpos mq < 2 ^ 53)%Z -> (52 <= t <= 60)%Z ->
  exists F S : Z,
    Math_floor (mul (ofZ (Zpos a)) (S754_finite false mq (- t))) = ofZ F /\
    (0 <= F)%Z /\ (0 < S)%Z /\ (2 ^ 52 * S <= Zpos a * Zpos mq)%Z /\
    (F * 2 ^ t <= Zpos a * Zpos mq + S)%Z /\
    (Zpos a * Zpos mq < (F + 1) * 2 ^ t)%Z.
Proof.
  intros Ha Hmq Ht.
  assert (Hda : (Zpos (digits2_pos a) <= 44)%Z).
  { pose proof (digits2_bounds a) as [Alo _].
    destruct (Z_le_gt_dec (Zpos (digits2_pos a)) 44); trivial.
    assert (2 ^ 44 <= 2 ^ (Zpos (digits2_pos a) - 1))%Z by (apply Z.pow_le_mono_r; lia).
    lia. }
  rewrite (ofZ_pos a) by lia.
  destruct (normalForm_mantissa a ltac:(lia)) as [Hma _].
  pose proof (digits2_bounds a) as [Alo Ahi].
  pose proof (digits2_bounds (a * mq)) as [Ylo Yhi].
  unfold normalForm, mul, SFmul.
  set (da := Zpos (digits2_pos a)) in *.
  set (ma := Z.to_pos (Zpos a * 2 ^ (53 - da))) in *.
  set (dY := Zpos (digits2_pos (a * mq))) in *.
  set (Y := (Zpos a * Zpos mq)%Z).
  assert (HY : Zpos (a * mq) = Y) by reflexivity. rewrite HY in Ylo, Yhi.
  assert (Hdapos : (0 < da)%Z) by (unfold da; lia).
  assert (HdY : (da + 52 <= dY <= da + 53)%Z).
  { assert (L : (2 ^ (da - 1) * 2 ^ 52 <= Y)%Z) by (unfold Y; nia).
    assert (U : (Y < 2 ^ da * 2 ^ 53)%Z) by (unfold Y; nia).
    rewrite <- Z.pow_add_r in L, U by lia.
    split.
    - destruct (Z_le_gt_dec (da + 52) dY); trivial.
      assert (2 ^ dY <= 2 ^ (da - 1 + 52))%Z by (apply Z.pow_le_mono_r; lia). lia.
    - destruct (Z_le_gt_dec dY (da + 53)); trivial.
      assert (2 ^ (da + 53) <= 2 ^ (dY - 1))%Z by (apply Z.pow_le_mono_r; lia). lia. }
  set (c := (53 - da)%Z) in *.
  assert (HM : Zpos (ma * mq) = (Zpos (a * mq) * 2 ^ c)%Z).
  { rewrite !Pos2Z.inj_mul, Hma. ring. }
  assert (HdM : Zpos (digits2_pos (ma * mq)) = (dY + c)%Z).
  { apply (digits2_mul_pow2 (ma * mq) (a * mq) c); [unfold c; lia | exact HM]. }
  destruct (binary_round_aux_near (ma * mq) (da - 53 + - t)) as (m1 & k & Hround & Hk & Hm1);
    try (rewrite HdM; unfold c; lia).
  rewrite HdM in Hround, Hm1. cbn [xorb]. rewrite Hround.
  set (K := (53 + t - dY)%Z).
  replace (da - 53 + - t + (dY + c - 53) + k)%Z with (- (K - k))%Z in * by (unfold K, c; lia).
  assert (HK : (8 <= K)%Z) by (unfold K; lia).
  set (S := (2 ^ (dY - 53))%Z).
  set (G := (2 ^ K)%Z).
  assert (HS : (0 < S)%Z) by (apply Z.pow_pos_nonneg; lia).
  assert (HG : (0 < G)%Z) by (apply Z.pow_pos_nonneg; lia).
  assert (HT : (2 ^ t = G * S)%Z).
  { unfold G, S. rewrite <- Z.pow_add_r by lia. f_equal. unfold K. lia. }
  assert (Hm0 : (Zpos (ma * mq) / 2 ^ (dY + c - 53) = Y / S)%Z).
  { rewrite HM, HY. replace (dY + c - 53)%Z with ((dY - 53) + c)%Z by lia.
    rewrite Z.pow_add_r by (unfold c; lia). fold S.
    apply Z.div_mul_cancel_r; [lia |]. apply Z.pow_nonzero; unfold c; lia. }
  rewrite Hm0 in Hm1.
  set (F := (Zpos m1 / 2 ^ (K - k))%Z).
  assert (HF : (F = (Zpos m1 * 2 ^ k) / G)%Z).
  { unfold F, G. replace K with ((K - k) + k)%Z at 2 by lia.
    rewrite Z.pow_add_r by lia. symmetry.
    apply Z.div_mul_cancel_r; apply Z.pow_nonzero; lia. }
  exists F, S.
  assert (HFpos : (0 <= F)%Z).
  { unfold F. apply Z.div_pos; [lia | apply Z.pow_pos_nonneg; lia]. }
  split.
  { unfold Math_floor, cond_Zopp.
    destruct (Z.leb_spec 0 (- (K - k))); [lia |].
    replace (- - (K - k))%Z with (K - k)%Z by lia. fold F.
    destruct F; reflexivity. }
  pose proof (Z.mul_div_le Y S HS) as Hdown.
  pose proof (Z.mul_succ_div_gt Y S HS) as Hup.
  pose proof (Z.mul_div_le (Zpos m1 * 2 ^ k) G HG) as Fdown.
  pose proof (Z.mul_succ_div_gt (Zpos m1 * 2 ^ k) G HG) as Fup.
  rewrite <- HF in Fdown, Fup.
  set (m0 := (Y / S)%Z) in *. set (m1' := (Zpos m1 * 2 ^ k)%Z) in *.
  split; [exact HFpos |]. split; [exact HS |]. split.
  { unfold S. rewrite <- Z.pow_add_r by lia.
    replace (52 + (dY - 53))%Z with (dY - 1)%Z by lia. exact Ylo. }
  rewrite HT. split.
  - (* F * G <= m1' <= m0 + 1, and m0 * S <= Y *)
    assert (F * G <= m0 + 1)%Z by lia.
    assert (F * G * S <= (m0 + 1) * S)%Z by (apply Z.mul_le_mono_nonneg_r; lia).
    lia.
  - (* m0 <= m1' < (F + 1) * G, and Y < (m0 + 1) * S *)
    assert (m0 + 1 <= (F + 1) * G)%Z by lia.
    assert ((m0 + 1) * S <= (F + 1) * G * S)%Z by (apply Z.mul_le_mono_nonneg_r; lia).
    lia.
Qed.

(** The whole part so computed, against the exact share: the double [mq /
    2^t] is within half a unit in its last place of [p / 100]. *)
Lemma share_bounds (a p mq t F S : Z) :
  (0 < a < 2 ^ 44)%Z -> (0 <= p)%Z -> (52 <= t)%Z -> (mq < 2 ^ 53)%Z ->
  (-50 <= 100 * mq - p * 2 ^ t <= 50)%Z ->
  (0 < S)%Z -> (2 ^ 52 * S <= a * mq)%Z ->
  (F * 2 ^ t <= a * mq + S)%Z -> (a * mq < (F + 1) * 2 ^ t)%Z ->
  (a * p / 100 - 1 <= F <= a * p / 100)%Z /\
  ((a * p) mod 100 <> 0 \/ p * 2 ^ t <= 100 * mq -> F = a * p / 100)%Z.
Proof.
  intros Ha Hp Ht Hmq HD HS HSY Hdown Hup.
  assert (HT : (2 ^ 52 <= 2 ^ t)%Z) by (apply Z.pow_le_mono_r; lia).
  set (T := (2 ^ t)%Z) in *.
  set (D := (100 * mq - p * T)%Z) in *.
  assert (HY : (100 * (a * mq) = a * p * T + a * D)%Z) by (unfold D; ring).
  assert (HaD : (- (50 * a) <= a * D <= 50 * a)%Z) by nia.
  assert (HS2 : (S < 2 * a)%Z) by nia.
  assert (Hsmall : (250 * a < T)%Z) by lia.
  pose proof (Z.div_mod (a * p) 100 ltac:(lia)) as Hdiv.
  pose proof (Z.mod_pos_bound (a * p) 100 ltac:(lia)) as Hmod.
  set (n := (a * p / 100)%Z) in *. set (r := ((a * p) mod 100)%Z) in *.
  assert (Hle : (100 * F <= a * p)%Z).
  { assert ((100 * F) * T < (a * p + 1) * T)%Z by lia.
    assert (100 * F < a * p + 1)%Z by (apply (Z.mul_lt_mono_pos_r T); lia).
    lia. }
  assert (Hge : (a * p <= 100 * (F + 1))%Z).
  { assert ((a * p - 1) * T < (100 * (F + 1)) * T)%Z by lia.
    assert (a * p - 1 < 100 * (F + 1))%Z by (apply (Z.mul_lt_mono_pos_r T); lia).
    lia. }
  split; [lia |].
  intros [Hr | Hq]; [lia |].
  assert (0 <= a * D)%Z by (unfold D; nia).
  assert ((a * p) * T < (100 * (F + 1)) * T)%Z by lia.
  assert (a * p < 100 * (F + 1))%Z by (apply (Z.mul_lt_mono_pos_r T); lia).
  lia.
Qed.

(** Each whole percent from 0 to 100, divided by 100 *)
Lemma percent_rounded (p : Z) : (0 <= p <= 100)%Z -> percentRounded p = true.
Proof.
  intros Hp. apply (forall_below percentRounded 101).
  - vm_compute. reflexivity.
  - simpl. lia.
Qed.

(** The share of a whole amount below 2^44 for a whole percent, as the code
    computes it: the whole part of the exact share, or one less when the
    exact share is a whole number and the double for the percent lies
    below the fraction. *)
Lemma share_floor (p a : Z) :
  (0 <= p <= 100)%Z -> (0 <= a < 2 ^ 44)%Z ->
  exists share : Z,
    Math_floor (mul (ofZ a) (div (ofZ p) (ofZ 100))) = ofZ share /\
    (0 <= share)%Z /\
    (share = a * p / 100 \/
     share = a * p / 100 - 1 /\ (a * p) mod 100 = 0 /\
     atLeast (div (ofZ p) (ofZ 100)) p 100 = false)%Z.
Proof.
  intros Hp Ha. pose proof (percent_rounded p Hp) as Hq. unfold percentRounded in Hq.
  destruct (div (ofZ p) (ofZ 100)) as [[] | | | [] mq e] eqn:Hdiv; try discriminate.
  - (* no percent *)
    apply Z.eqb_eq in Hq. subst p. exists 0%Z.
    split; [| split; [lia | left; rewrite Z.mul_0_r; reflexivity]].
    destruct a as [| a' | a']; try lia; [reflexivity |].
    rewrite (ofZ_pos a') by (apply digits2_below; lia). reflexivity.
  - rewrite !andb_true_iff in Hq.
    destruct Hq as [[[[[[H1 H2] H3] H4] H5] H6] H7].
    apply Z.leb_le in H1, H3, H4, H5, H6. apply Z.ltb_lt in H2, H7.
    destruct a as [| a' | a']; try lia.
    + exists 0%Z. split; [reflexivity | split; [lia | left; reflexivity]].
    + destruct (product_floor a' mq (- e)) as (F & S & Hfloor & HF & HS & HSY & Hdown & Hup);
        try lia.
      replace (- - e)%Z with e in Hfloor by lia.
      destruct (share_bounds (Zpos a') p (Zpos mq) (- e) F S) as [Hnear Hexact]; try lia.
      exists F. split; [exact Hfloor |]. split; [exact HF |].
      destruct (Z.eq_dec F (Zpos a' * p / 100)) as [Heq | Hne]; [now left | right].
      split; [lia |]. split.
      * destruct (Z.eq_dec ((Zpos a' * p) mod 100) 0); trivial.
        exfalso. apply Hne, Hexact. now left.
      * unfold atLeast, cond_Zopp. destruct (Z.leb_spec 0 e); [lia |].
        apply Z.leb_gt.
        destruct (Z_lt_le_dec (100 * Zpos mq) (p * 2 ^ (- e))); trivial.
        exfalso. apply Hne, Hexact. now right.
Qed.


(** The whole percents whose double lies below the fraction *)
Example percents_rounded_below :
  filter (fun p => negb (atLeast (div (ofZ p) (ofZ 100)) p 100)) (map Z.of_nat (seq 0 101)) =
  [3; 6; 9; 12; 15; 18; 21; 24; 29; 30; 31; 35; 36; 37; 41; 42; 43; 47; 48; 49; 57;
   58; 59; 60; 61; 62; 69; 70; 71; 72; 73; 74; 82; 83; 84; 85; 86; 87; 94; 95; 96;
   97; 98; 99]%Z.
Proof. vm_compute. reflexivity. Qed.


(** C1 (as stated) fails: with no minimum tip, 29 percent and an amount of
    100 lamports the quotient 29/100 is rounded below 0.29, the product
    below 29, and the tip is 28, not max(0, floor(100 * 29 / 100)) = 29. *)
Lemma tip_below_formula :
  let this := {| minTipLamports := ofZ 0; tipPercent := ofZ 29; feeRecipient := [] |} in
  let preview := calculateTransactionPreview (E := plainEngine) this (ofZ 100) in
  (0 <= 29 <= 100)%Z /\ (0 <= 100)%Z /\
  Z.max 0 (100 * 29 / 100) = 29%Z /\
  tipAmount preview = ofZ 28 /\
  tipAmount preview <> ofZ (Z.max 0 (100 * 29 / 100)) /\
  totalFee preview <> ofZ (5000 + Z.max 0 (100 * 29 / 100)).
Proof.
  repeat split; try lia; try reflexivity; vm_compute; discriminate.
Qed.

(** C1 (amended).  [calculateTransactionPreview] works in double
    arithmetic: the percent is divided by 100 and rounded before it is
    multiplied by the amount.  For a whole minimum tip m with
    -2^53 < m < 2^53 - 5000, a whole tip percent p in [0,100] and a whole
    amount a with 0 <= a < 2^44 (or 0 <= a < 2^53 when p is 50) it returns
    tipAmount = max(m, share) and totalFee = 5000 + tipAmount, as whole
    numbers, where share is floor(a * p / 100), with one exception: when
    a * p is a multiple of 100 and the double for p / 100 lies below the
    fraction, share may be a * p / 100 - 1 instead (it is so for p = 29,
    a = 100; it is not so for a = 1,000,000,000, whatever p).  With
    m = 10000, p = 50, a = 1,000,000,000 this gives
    tipAmount = 500,000,000 and totalFee = 500,005,000. *)
Theorem preview_formula (E : Engine) (m p a : Z) (recipient : str) :
  (- 2 ^ 53 < m < 2 ^ 53 - 5000)%Z ->
  (0 <= p <= 100)%Z ->
  (0 <= a < 2 ^ 44)%Z \/ (p = 50 /\ 0 <= a < 2 ^ 53)%Z ->
  let this := {| minTipLamports := ofZ m; tipPercent := ofZ p;
                 feeRecipient := recipient |} in
  let preview := calculateTransactionPreview this (ofZ a) in
  let exact := (a * p / 100)%Z in
  exists share : Z,
    (share = exact \/
     share = exact - 1 /\ 0 <= share /\ (a * p) mod 100 = 0 /\
     atLeast (div (ofZ p) (ofZ 100)) p 100 = false /\ a <> 1000000000)%Z /\
    baseFee preview = ofZ 5000 /\
    tipAmount preview = ofZ (Z.max m share) /\
    totalFee preview = ofZ (5000 + Z.max m share).
Proof.
  intros Hm Hp Ha this preview exact.
  assert (Hexact : (0 <= exact <= a)%Z).
  { unfold exact. split; [apply Z.div_pos; nia |].
    apply Z.div_le_upper_bound; nia. }
  assert (Hshare : exists share : Z,
             Math_floor (mul (ofZ a) (div (ofZ p) (ofZ 100))) = ofZ share /\
             (0 <= share <= exact)%Z /\
             (share = exact \/
              share = exact - 1 /\ 0 <= share /\ (a * p) mod 100 = 0 /\
              atLeast (div (ofZ p) (ofZ 100)) p 100 = false /\ a <> 1000000000)%Z).
  { destruct (Z.eq_dec a 1000000000) as [-> | Hsample].
    - exists exact. split; [now apply sample_amount_floor |]. split; [lia | now left].
    - destruct Ha as [Ha | [-> Ha]].
      + destruct (share_floor p a Hp Ha) as (share & Hfloor & Hpos & Hcase).
        exists share. split; [exact Hfloor |].
        destruct Hcase as [-> | (-> & Hmod & Hbelow)].
        * split; [lia | now left].
        * fold exact in Hpos |- *. split; [lia |]. right. repeat split; trivial; lia.
      + exists exact. split; [now apply half_amount_floor |]. split; [lia | now left]. }
  destruct Hshare as (share & Hfloor & Hrange & Hcase).
  assert (Hbelow : (exact < 2 ^ 53 - 5000)%Z).
  { destruct Ha as [Ha | [-> Ha]]; [lia |].
    unfold exact. apply Z.div_lt_upper_bound; lia. }
  exists share.
  assert (Htip : tipAmount preview = ofZ (Z.max m share)).
  { unfold preview, calculateTransactionPreview.
    cbn [tipAmount minTipLamports tipPercent this].
    rewrite Hfloor. apply Math_max_ofZ; lia. }
  split; [exact Hcase |]. split; [reflexivity |]. split; [exact Htip |].
  change (totalFee preview) with (add (ofZ 5000) (tipAmount preview)).
  rewrite Htip. apply add_ofZ; lia.
Qed.

(** The example of the specification: a minimum tip of 10000, 50 percent,
    one SOL. *)
Lemma preview_formula_witness :
  let preview := calculateTransactionPreview (E := plainEngine)
                   {| minTipLamports := ofZ 10000; tipPercent := ofZ 50;
                      feeRecipient := js "CebN5WGQ4jvEPvsVU4EoHEpgzq1VV7AbicfhtW4xC9iM" |}
                   (ofZ 1000000000) in
  baseFee preview = ofZ 5000 /\
  tipAmount preview = ofZ 500000000 /\
  totalFee preview = ofZ 500005000.
Proof.
  destruct (preview_formula plainEngine 10000 50 1000000000
              (js "CebN5WGQ4jvEPvsVU4EoHEpgzq1VV7AbicfhtW4xC9iM"))
    as (share & [Hshare | (_ & _ & _ & _ & Hother)] & Hpreview).
  - simpl. lia.
  - lia.
  - left. simpl. lia.
  - rewrite Hshare in Hpreview. exact Hpreview.
  - exfalso. apply Hother. reflexivity.
Defined.

(** The preview of the default settings for one SOL, as it is printed *)
Example default_preview :
  let preview := calculateTransactionPreview (E := plainEngine) defaultFeeSettings
                   (mul (ofZ 1) LAMPORTS_PER_SOL) in
  tipAmount preview = ofZ 500000000 /\
  totalFee preview = ofZ 500005000 /\
  estimatedCost preview = js "0.500005 SOL".
Proof. repeat split; vm_compute; reflexivity. Qed.

(** ** The fuel of the menu loop *)

Lemma fuelled_ret A (a : A) : fuelled (ret a).
Proof. intros s; reflexivity. Qed.

Lemma fuelled_throw A (e : error) : fuelled (@throw A e).
Proof. intros s; reflexivity. Qed.

Lemma fuelled_get A (f : state -> A) : fuelled (get f).
Proof. intros s; reflexivity. Qed.

Lemma fuelled_modify (f : state -> state) : fuelled (modify f).
Proof. intros s; reflexivity. Qed.

Lemma fuelled_bind A B (m : M A) (f : A -> M B) :
  fuelled m -> (forall a, fuelled (f a)) -> fuelled (bind m f).
Proof.
  intros Hm Hf s. unfold bind. specialize (Hm s).
  destruct (m s) as [[a | e | h] s']; simpl in *; [apply Hf | reflexivity | exact Hm].
Qed.

Lemma fuelled_tryCatch A (m : M A) (handler : error -> M A) :
  fuelled m -> (forall e, fuelled (handler e)) -> fuelled (tryCatch m handler).
Proof.
  intros Hm Hh s. unfold tryCatch. specialize (Hm s).
  destruct (m s) as [[a | e | h] s']; simpl in *; [reflexivity | apply Hh | exact Hm].
Qed.

Lemma fuelled_when (c : bool) (m : M unit) : fuelled m -> fuelled (when c m).
Proof. intros H. destruct c; [exact H | apply fuelled_ret]. Qed.

Lemma fuelled_forEach A (body : A -> nat -> M unit) (xs : list A) :
  (forall x i, fuelled (body x i)) -> forall index, fuelled (forEach body index xs).
Proof.
  intros Hb. induction xs as [| x xs IH]; intros index; simpl.
  - apply fuelled_ret.
  - apply fuelled_bind; [apply Hb | intros _; apply IH].
Qed.

Lemma fuelled_prompt c question : fuelled (prompt c question).
Proof.
  intros [st fee f input out]. unfold prompt. run. destruct input; reflexivity.
Qed.

Lemma fuelled_readFileSync : fuelled readFileSync.
Proof. intros [st fee f input out]. unfold readFileSync. run. destruct f; reflexivity. Qed.

Lemma fuelled_writeFileSync content : fuelled (writeFileSync content).
Proof. intros [st fee f input out]. unfold writeFileSync. run. destruct f; reflexivity. Qed.

Lemma fuelled_existsSync : fuelled existsSync.
Proof. intros s. reflexivity. Qed.

Ltac fuelled_step :=
  match goal with
  | |- fuelled (bind _ _) => apply fuelled_bind; [| intros ?]
  | |- fuelled (tryCatch _ _) => apply fuelled_tryCatch; [| intros ?]
  | |- fuelled (when _ _) => apply fuelled_when
  | |- fuelled (forEach _ _ _) => apply fuelled_forEach; intros ? ?
  | |- fuelled (ret _) => apply fuelled_ret
  | |- fuelled (throw _) => apply fuelled_throw
  | |- fuelled (get _) => apply fuelled_get
  | |- fuelled (modify _) => apply fuelled_modify
  | |- fuelled (log _ _) => apply fuelled_modify
  | |- fuelled (logText _ _) => apply fuelled_modify
  | |- fuelled (logWith _ _ _) => apply fuelled_modify
  | |- fuelled clearScreen => apply fuelled_modify
  | |- fuelled (prompt _ _) => apply fuelled_prompt
  | |- fuelled existsSync => apply fuelled_existsSync
  | |- fuelled readFileSync => apply fuelled_readFileSync
  | |- fuelled (writeFileSync _) => apply fuelled_writeFileSync
  | |- fuelled (if ?c then _ else _) => destruct c
  | |- fuelled (match ?x with _ => _ end) => destruct x
  | |- fuelled (let _ := _ in _) => cbv zeta
  end.

Ltac fuelled_all := repeat fuelled_step.

Section Fuel.

Context {E : Engine}.

Lemma handleConfigureWallet_fuelled : fuelled handleConfigureWallet.
Proof. unfold handleConfigureWallet, pressEnterToContinue. fuelled_all. Qed.

Lemma handleConfigureRPC_fuelled : fuelled handleConfigureRPC.
Proof. unfold handleConfigureRPC, pressEnterToContinue. fuelled_all. Qed.

Lemma handleConfigureFees_fuelled : fuelled handleConfigureFees.
Proof.
  unfold handleConfigureFees, pressEnterToContinue, displayFeePreview. fuelled_all.
Qed.

Lemma handleManageWallets_fuelled : fuelled handleManageWallets.
Proof.
  unfold handleManageWallets, pressEnterToContinue, viewWallets, addWallet,
    removeWallet, setPrimaryWallet, viewWallets, showWallet.
  fuelled_all.
Qed.

Lemma handleCreateKeypairs_fuelled : fuelled handleCreateKeypairs.
Proof. unfold handleCreateKeypairs, pressEnterToContinue. fuelled_all. Qed.

Lemma handleCreatePoolBundle_fuelled : fuelled handleCreatePoolBundle.
Proof.
  unfold handleCreatePoolBundle, pressEnterToContinue, displayFeePreview. fuelled_all.
Qed.

Lemma handleViewConfiguration_fuelled : fuelled handleViewConfiguration.
Proof.
  unfold handleViewConfiguration, pressEnterToContinue, displayStatus. fuelled_all.
Qed.

Lemma display_fuelled :
  fuelled clearScreen /\ fuelled displayHeader /\ fuelled displayStatus /\
  fuelled displayMenu /\ fuelled pressEnterToContinue.
Proof.
  unfold displayHeader, displayStatus, displayMenu, pressEnterToContinue.
  split; [| split; [| split; [| split]]]; fuelled_all.
Qed.

Lemma display_forward :
  preserves runsForward clearScreen /\ preserves runsForward displayHeader /\
  preserves runsForward displayStatus /\ preserves runsForward displayMenu /\
  preserves runsForward pressEnterToContinue.
Proof.
  unfold displayHeader, displayStatus, displayMenu, pressEnterToContinue.
  split; [| split; [| split; [| split]]]; keeps.
Qed.

(** After a step that needs no fuel and types nothing, what follows runs
    on an input that is no longer. *)
Lemma bind_fuel A B (m : M A) (f : A -> M B) (s : state) :
  fuelled m -> preserves runsForward m ->
  (forall a s', length (stdin s') <= length (stdin s) ->
                outOfFuel (fst (f a s')) = false) ->
  outOfFuel (fst (bind m f s)) = false.
Proof.
  intros Hq Hf Hk. unfold bind.
  pose proof (Hq s) as Hs. pose proof (Hf s) as (_ & Hin & _).
  destruct (m s) as [[a | e | h] s']; simpl in *;
    [apply Hk; exact Hin | reflexivity | exact Hs].
Qed.

(** After a prompt, it runs on an input that is shorter. *)
Lemma prompt_fuel B c question (f : str -> M B) (s : state) :
  (forall line s', S (length (stdin s')) <= length (stdin s) ->
                   outOfFuel (fst (f line s')) = false) ->
  outOfFuel (fst (bind (prompt c question) f s)) = false.
Proof.
  intros Hk. destruct s as [st fee file input out]. unfold prompt. run.
  destruct input as [| line rest]; [reflexivity |].
  apply Hk. simpl. lia.
Qed.

(** The loop given more turns than there are lines to type never runs out
    of turns: it ends with the exit choice, waits for input, or ends with an
    exception. *)
Lemma menuLoop_enough_fuel (fuel : nat) (s : state) :
  length (stdin s) < fuel -> outOfFuel (fst (menuLoop fuel s)) = false.
Proof.
  destruct display_fuelled as (Q1 & Q2 & Q3 & Q4 & Q5).
  destruct display_forward as (F1 & F2 & F3 & F4 & F5).
  revert s. induction fuel as [| fuel IH]; intros s Hlen; [lia |].
  cbn [menuLoop].
  apply bind_fuel; trivial. intros _ s1 H1.
  apply bind_fuel; trivial. intros _ s2 H2.
  apply bind_fuel; trivial. intros _ s3 H3.
  apply bind_fuel; trivial. intros _ s4 H4.
  apply prompt_fuel. intros answer s5 H5.
  assert (Hnext : forall s', length (stdin s') <= length (stdin s5) ->
                             outOfFuel (fst (menuLoop fuel s')) = false)
    by (intros s' H'; apply IH; lia).
  repeat match goal with
         | |- context [if streq answer ?c then _ else _] => destruct (streq answer c)
         end.
  - apply bind_fuel; [apply handleConfigureWallet_fuelled
                     | apply handleConfigureWallet_forward | intros _; exact Hnext].
  - apply bind_fuel; [apply handleConfigureRPC_fuelled
                     | apply handleConfigureRPC_forward | intros _; exact Hnext].
  - apply bind_fuel; [apply handleCreateKeypairs_fuelled
                     | apply handleCreateKeypairs_forward | intros _; exact Hnext].
  - apply bind_fuel; [apply handleConfigureFees_fuelled
                     | apply handleConfigureFees_forward | intros _; exact Hnext].
  - apply bind_fuel; [apply handleCreatePoolBundle_fuelled
                     | apply handleCreatePoolBundle_forward | intros _; exact Hnext].
  - apply bind_fuel; [apply handleViewConfiguration_fuelled
                     | apply handleViewConfiguration_forward | intros _; exact Hnext].
  - apply bind_fuel; [apply handleManageWallets_fuelled
                     | apply handleManageWallets_forward | intros _; exact Hnext].
  - reflexivity.
  - apply bind_fuel; [apply fuelled_modify | keeps |]. intros _ s6 H6.
    apply bind_fuel; trivial. intros _ s7 H7. apply Hnext. lia.
Qed.

Lemma start_never_out_of_fuel (s : state) : outOfFuel (fst (start s)) = false.
Proof. unfold start, bind, get. apply menuLoop_enough_fuel. simpl. lia. Qed.

End Fuel.

(** ** Upserting a key *)

Lemma literal_app (a b : str) : literal (a ++ b) = literal a ++ literal b.
Proof. apply map_app. Qed.

Lemma matchStar_dot (s : str) :
  matchStar Dot (fun t => Some t) s = Some (restOfLine s).
Proof.
  induction s as [| c s IH]; simpl; [reflexivity |].
  destruct (isLineTerminator c); simpl; [reflexivity | now rewrite IH].
Qed.

Lemma matchHere_keyLine (key s : str) :
  matchHere (keyLine key) s =
  if startsWith s (key ++ js "=")
  then Some (restOfLine (skipn (length (key ++ js "=")) s))
  else None.
Proof.
  unfold keyLine.
  change [One (Chr "="%char); Star Dot] with (literal (js "=") ++ [Star Dot]).
  rewrite app_assoc, <- literal_app, matchHere_literal.
  destruct (startsWith s (key ++ js "=")); [| reflexivity].
  apply matchStar_dot.
Qed.

Lemma restOfLine_none (s : str) :
  Forall (fun c => isLineTerminator c = false) s -> restOfLine s = [].
Proof.
  induction 1 as [| c s Hc _ IH]; simpl; [reflexivity |]. now rewrite Hc.
Qed.

(** Where no match begins inside [a], the leftmost match of [a ++ b] is
    that of [b]. *)
Lemma exec_skip (r : regex) (a b : str) :
  (forall a1 a2, a = a1 ++ a2 -> a2 <> [] -> matchHere r (a2 ++ b) = None) ->
  exec r (a ++ b) =
  match exec r b with
  | Some (before, matched, after) => Some (a ++ before, matched, after)
  | None => None
  end.
Proof.
  induction a as [| c a IH]; intros H.
  - simpl. destruct (exec r b) as [[[before matched] after] |]; reflexivity.
  - simpl app. cbn [exec].
    assert (H0 : matchHere r (c :: a ++ b) = None)
      by (apply (H [] (c :: a) eq_refl); discriminate).
    rewrite H0, IH.
    + destruct (exec r b) as [[[before matched] after] |]; reflexivity.
    + intros a1 a2 Ha Hne. apply (H (c :: a1) a2); [now rewrite Ha | exact Hne].
Qed.

Lemma getSubstitution_plain (matched before after template : str) :
  ~ In "$"%char template ->
  getSubstitution matched before after template = template.
Proof.
  induction template as [| c t IH]; intros H; [reflexivity |].
  assert (Hc : c <> "$"%char) by (intros ->; apply H; now left).
  assert (Ht : getSubstitution matched before after t = t)
    by (apply IH; intros Hin; apply H; now right).
  destruct (Ascii.eqb_spec c "$"%char) as [-> | _]; [congruence |].
  destruct c as [[] [] [] [] [] [] [] []]; simpl; rewrite ?Ht; try reflexivity;
    congruence.
Qed.

Lemma exec_here (r : regex) (s rest : str) :
  matchHere r s = Some rest ->
  exec r s = Some ([], firstn (length s - length rest) s, rest).
Proof. intros H. destruct s; simpl; now rewrite H. Qed.

Lemma startsWith_false (s p : str) :
  (forall post, s <> p ++ post) -> startsWith s p = false.
Proof.
  intros H. destruct (startsWith s p) eqn:Hs; [| reflexivity].
  apply startsWith_spec in Hs. destruct Hs as [post Hs]. now destruct (H post).
Qed.

Lemma nonempty_suffix_of_line (content a1 a2 : str) :
  content ++ [LF] = a1 ++ a2 -> a2 <> [] ->
  exists a2', a2 = a2' ++ [LF] /\ content = a1 ++ a2'.
Proof.
  intros H Hne. destruct (exists_last Hne) as (a2' & c & ->).
  rewrite app_assoc in H. apply app_inj_tail in H. destruct H as [-> <-].
  now exists a2'.
Qed.

(** The first upsert of a key the text does not hold appends its line. *)
Lemma upsert_fresh (content key value : str) :
  ~ occursIn (key ++ js "=") content -> ~ In "="%char key ->
  upsertSetting content (key ++ js "=" ++ value) =
  content ++ js "\n" ++ key ++ js "=" ++ value.
Proof.
  intros Hfresh Hkey. unfold upsertSetting.
  change (js "=" ++ value) with ("="%char :: value).
  rewrite (split_hd_app "="%char key value Hkey).
  apply includes_false in Hfresh. now rewrite Hfresh.
Qed.

(** The second upsert replaces that line, when the new value holds no
    dollar sign. *)
Lemma upsert_again (content key v1 v2 : str) :
  ~ occursIn (key ++ js "=") content ->
  ~ In "="%char key -> ~ In LF key -> ~ In "$"%char key ->
  Forall (fun c => isLineTerminator c = false) v1 ->
  ~ In "$"%char v2 ->
  upsertSetting (content ++ js "\n" ++ key ++ js "=" ++ v1) (key ++ js "=" ++ v2) =
  content ++ js "\n" ++ key ++ js "=" ++ v2.
Proof.
  intros Hfresh Heq Hlf Hdollar Hv1 Hv2. unfold upsertSetting.
  change (js "=" ++ v2) with ("="%char :: v2).
  rewrite (split_hd_app "="%char key v2 Heq).
  change ("="%char :: v2) with (js "=" ++ v2).
  assert (Hin : includes (content ++ js "\n" ++ key ++ js "=" ++ v1) (key ++ js "=") = true).
  { apply includes_spec. exists (content ++ js "\n"), v1.
    now rewrite <- !app_assoc. }
  rewrite Hin. unfold replace.
  set (b := key ++ js "=" ++ v1).
  assert (Hb : matchHere (keyLine key) b = Some []).
  { rewrite matchHere_keyLine. unfold b.
    assert (Hs : startsWith (key ++ js "=" ++ v1) (key ++ js "=") = true)
      by (apply startsWith_spec; exists v1; now rewrite <- app_assoc).
    rewrite Hs. rewrite (app_assoc key), skipn_app, Nat.sub_diag, skipn_all.
    simpl. now rewrite restOfLine_none. }
  replace (content ++ js "\n" ++ b) with ((content ++ [LF]) ++ b)
    by (now rewrite <- app_assoc).
  rewrite exec_skip.
  - rewrite (exec_here _ _ _ Hb). simpl length. rewrite Nat.sub_0_r, firstn_all.
    rewrite !app_nil_r, getSubstitution_plain.
    + now rewrite <- app_assoc.
    + intros H. apply in_app_or in H. destruct H as [H | H]; [tauto |].
      simpl in H. destruct H as [H | H]; [discriminate H | tauto].
  - intros a1 a2 Ha Hne. rewrite matchHere_keyLine.
    rewrite startsWith_false; [reflexivity |].
    intros post Hpost.
    destruct (nonempty_suffix_of_line content a1 a2 Ha Hne) as (a2' & -> & Hc).
    rewrite <- app_assoc in Hpost. simpl in Hpost.
    apply app_eq_app in Hpost. destruct Hpost as (l & [[H1 H2] | [H1 H2]]).
    + apply Hfresh. exists a1, l. now rewrite Hc, H1, <- app_assoc.
    + destruct l as [| c l].
      * rewrite app_nil_r in H1. apply Hfresh. exists a1, [].
        now rewrite app_nil_r, H1, Hc.
      * injection H2 as <- _.
        assert (Hmem : In LF (key ++ js "=")) by (rewrite H1; apply in_or_app; right; now left).
        apply in_app_or in Hmem. destruct Hmem as [Hmem | Hmem]; [tauto |].
        simpl in Hmem. destruct Hmem as [Hmem | []]. discriminate Hmem.
Qed.

Lemma split_hd_prefix (sep : ascii) (s : str) :
  exists t, s = hd [] (split sep s) ++ t.
Proof.
  induction s as [| c s [t IH]]; simpl.
  - now exists [].
  - destruct (Ascii.eqb c sep); [now exists (c :: s) |].
    pose proof (split_nonempty sep s) as Hne.
    destruct (split sep s) as [| l ls]; [congruence |].
    simpl in IH. exists t. simpl. now rewrite <- IH.
Qed.

Lemma occursIn_cons (c : ascii) (n s : str) : occursIn n s -> occursIn n (c :: s).
Proof. intros (pre & post & ->). now exists (c :: pre), post. Qed.

Lemma In_split_occurs (sep : ascii) (s l : str) :
  In l (split sep s) -> occursIn l s.
Proof.
  revert l. induction s as [| c s IH]; intros l; simpl.
  - intros [<- | []]. now exists [], [].
  - destruct (Ascii.eqb c sep).
    + intros [<- | H]; [now exists [], (c :: s) | apply occursIn_cons; now apply IH].
    + destruct (split_hd_prefix sep s) as [t Ht].
      pose proof (split_nonempty sep s) as Hne.
      destruct (split sep s) as [| l0 ls]; [congruence |].
      simpl in Ht. intros [<- | H].
      * exists [], t. simpl. now rewrite <- Ht.
      * apply occursIn_cons. apply IH. now right.
Qed.

Lemma occursIn_trans (a b c : str) : occursIn a b -> occursIn b c -> occursIn a c.
Proof.
  intros (p1 & q1 & ->) (p2 & q2 & ->). exists (p2 ++ p1), (q1 ++ q2).
  now rewrite <- !app_assoc.
Qed.

Lemma filter_none A (f : A -> bool) (l : list A) :
  (forall x, In x l -> f x = false) -> filter f l = [].
Proof.
  induction l as [| x l IH]; intros H; simpl; [reflexivity |].
  rewrite (H x) by now left. apply IH. intros y Hy. apply H. now right.
Qed.

(** No line of a text that does not hold the key has the key. *)
Lemma linesWithKey_fresh (key content : str) :
  ~ occursIn key content -> linesWithKey key content = [].
Proof.
  intros Hfresh. unfold linesWithKey.
  apply filter_none. intros line Hin.
  destruct (streq (lineKey line) key) eqn:Hk; [| reflexivity].
  apply streq_spec in Hk. destruct Hfresh.
  apply occursIn_trans with line; [| now apply In_split_occurs with LF].
  destruct (split_hd_prefix "="%char line) as [t Ht].
  exists [], t. unfold lineKey in Hk. now rewrite <- Hk.
Qed.

(** The positive side of C2: upserting a key twice, into a text that does
    not hold it, leaves the text followed by one line with that key and the
    second value, when the values are single lines and the second holds no
    dollar sign. *)
Lemma upsert_twice (content key v1 v2 : str) :
  ~ occursIn key content ->
  ~ In "="%char key -> ~ In LF key -> ~ In "$"%char key ->
  Forall (fun c => isLineTerminator c = false) v1 ->
  ~ In "$"%char v2 -> ~ In LF v2 ->
  let text := upsertSetting (upsertSetting content (key ++ js "=" ++ v1))
                            (key ++ js "=" ++ v2) in
  text = content ++ js "\n" ++ key ++ js "=" ++ v2 /\
  linesWithKey key text = [key ++ js "=" ++ v2].
Proof.
  intros Hfresh Heq Hlf Hdollar Hv1 Hv2 Hv2lf text.
  assert (Hfresh' : ~ occursIn (key ++ js "=") content).
  { intros H. apply Hfresh. apply occursIn_trans with (key ++ js "="); trivial.
    now exists [], (js "="). }
  assert (Htext : text = content ++ js "\n" ++ key ++ js "=" ++ v2).
  { unfold text. rewrite (upsert_fresh content key v1 Hfresh' Heq).
    now apply upsert_again. }
  split; [exact Htext |]. rewrite Htext. unfold linesWithKey.
  change (js "\n" ++ key ++ js "=" ++ v2) with (LF :: key ++ js "=" ++ v2).
  rewrite split_app_sep, filter_app.
  fold (linesWithKey key content). rewrite (linesWithKey_fresh key content Hfresh).
  rewrite split_no_sep.
  - simpl. unfold lineKey. change (js "=" ++ v2) with ("="%char :: v2).
    rewrite (split_hd_app "="%char key v2 Heq), streq_refl. reflexivity.
  - intros H. apply in_app_or in H. destruct H as [H | H]; [tauto |].
    simpl in H. destruct H as [H | H]; [discriminate H | tauto].
Qed.

(** What the handlers write is the upsert of their key. *)
Lemma configureRPC_writes (s : state) (content url : str) (rest : list str) :
  fileText (configFile s) = Some content -> stdin s = url :: rest -> url <> [] ->
  configFile (snd (handleConfigureRPC s)) =
  Regular (upsertSetting content (js "RPC_URL=" ++ url)).
Proof.
  intros Hf Hin Hurl.
  destruct s as [st fee f input out]; simpl in Hin, Hf; subst input.
  unfold handleConfigureRPC. run.
  destruct url as [| c url]; [congruence |]. unfold truthy.
  destruct f as [| text |]; inversion Hf; subst; run;
    (etransitivity; [apply pressEnter_file | reflexivity]).
Qed.

Lemma configureWallet_writes (s : state) (content key : str) (rest : list str) :
  fileText (configFile s) = Some content -> stdin s = key :: rest ->
  32 <= length key ->
  configFile (snd (handleConfigureWallet s)) =
  Regular (upsertSetting content (js "WALLET_PRIVATE_KEY=" ++ key)).
Proof.
  intros Hf Hin Hlen.
  assert (Hnot : (length key <? 32) = false) by (apply Nat.ltb_ge; exact Hlen).
  destruct s as [st fee f input out]; simpl in Hin, Hf; subst input.
  unfold handleConfigureWallet. run.
  destruct key as [| c key]; [simpl in Hlen; lia |]. unfold truthy.
  rewrite Hnot.
  destruct f as [| text |]; inversion Hf; subst; run;
    (etransitivity; [apply pressEnter_file | reflexivity]).
Qed.

Lemma configureRPC_run (s : state) (content url enter : str) (rest : list str) :
  fileText (configFile s) = Some content ->
  stdin s = url :: enter :: rest -> url <> [] ->
  exists s',
    handleConfigureRPC s = (Return tt, s') /\
    configFile s' = Regular (upsertSetting content (js "RPC_URL=" ++ url)) /\
    stdin s' = rest.
Proof.
  intros Hf Hin Hurl.
  destruct s as [st fee f input out]; simpl in Hin, Hf; subst input.
  unfold handleConfigureRPC, pressEnterToContinue. run.
  destruct url as [| c url]; [congruence |]. unfold truthy.
  destruct f as [| text |]; inversion Hf; subst; run;
    (eexists; split; [reflexivity | split; reflexivity]).
Qed.

(** Configure-RPC twice, on a text that does not hold the key: one line
    with the key and the second URL, when that URL holds no dollar sign. *)
Lemma configureRPC_twice (s : state) (content v1 v2 e1 e2 : str) (rest : list str) :
  fileText (configFile s) = Some content ->
  stdin s = v1 :: e1 :: v2 :: e2 :: rest ->
  ~ occursIn (js "RPC_URL") content ->
  v1 <> [] -> Forall (fun c => isLineTerminator c = false) v1 ->
  v2 <> [] -> ~ In "$"%char v2 -> ~ In LF v2 ->
  exists text,
    configFile (snd ((handleConfigureRPC ;; handleConfigureRPC) s)) = Regular text /\
    linesWithKey (js "RPC_URL") text = [js "RPC_URL=" ++ v2].
Proof.
  intros Hf Hin Hfresh Hv1 Hline1 Hv2 Hdollar Hlf.
  destruct (configureRPC_run s content v1 e1 (v2 :: e2 :: rest) Hf Hin Hv1)
    as (s1 & Hrun1 & Hfile1 & Hin1).
  assert (Hf1 : fileText (configFile s1) = Some (upsertSetting content (js "RPC_URL=" ++ v1)))
    by (now rewrite Hfile1).
  destruct (configureRPC_run s1 _ v2 e2 rest Hf1 Hin1 Hv2) as (s2 & Hrun2 & Hfile2 & _).
  unfold bind. rewrite Hrun1, Hrun2. simpl snd. rewrite Hfile2.
  destruct (upsert_twice content (js "RPC_URL") v1 v2) as [_ Hlines]; trivial;
    try (intros H; simpl in H; repeat (destruct H as [H | H]; [discriminate H |]); exact H).
  eexists. split; [reflexivity |]. exact Hlines.
Qed.

(** ** Removing a wallet *)

Lemma differs_spec (w line : str) : differs (Some w) line = true <-> line <> w.
Proof.
  unfold differs. rewrite negb_true_iff. split.
  - intros H ->. now rewrite streq_refl in H.
  - intros H. destruct (streq line w) eqn:Hs; [| reflexivity].
    apply streq_spec in Hs. contradiction.
Qed.

Lemma filter_differs_absent (w : str) (lines : list str) :
  ~ In w lines -> filter (differs (Some w)) lines = lines.
Proof.
  induction lines as [| l lines IH]; intros H; cbn [filter]; [reflexivity |].
  assert (Hl : differs (Some w) l = true)
    by (apply differs_spec; intros ->; apply H; now left).
  rewrite Hl. f_equal. apply IH. intros Hin. apply H. now right.
Qed.

(** The positive side of C3: when the chosen wallet line occurs once among
    the lines, dropping the lines equal to it drops that line and no
    other. *)
Lemma drop_by_text_unique (lines : list str) (k : nat) (w : str) :
  nth_error (filter isWalletLine lines) k = Some w ->
  count_occ str_eq_dec lines w = 1 ->
  filter (differs (Some w)) lines = dropKthWalletLine k lines.
Proof.
  revert k. induction lines as [| l lines IH]; intros k Hnth Hcount.
  - destruct k; discriminate Hnth.
  - cbn [filter] in Hnth. cbn [dropKthWalletLine filter].
    destruct (isWalletLine l) eqn:Hl.
    + destruct k as [| k].
      * injection Hnth as ->.
        rewrite count_occ_cons_eq in Hcount by reflexivity.
        assert (Habsent : ~ In w lines)
          by (apply (count_occ_not_In str_eq_dec); lia).
        assert (Hw : differs (Some w) w = false)
          by (unfold differs; now rewrite streq_refl).
        rewrite Hw. now apply filter_differs_absent.
      * simpl in Hnth.
        assert (Hin : In w lines).
        { apply nth_error_In in Hnth. now apply filter_In in Hnth. }
        apply (count_occ_In str_eq_dec) in Hin.
        destruct (str_eq_dec l w) as [-> | Hne].
        -- rewrite count_occ_cons_eq in Hcount by reflexivity. lia.
        -- rewrite count_occ_cons_neq in Hcount by assumption.
           assert (Hd : differs (Some w) l = true) by now apply differs_spec.
           rewrite Hd. f_equal. now apply IH.
    + assert (Hw : isWalletLine w = true).
      { apply nth_error_In in Hnth. now apply filter_In in Hnth. }
      destruct (str_eq_dec l w) as [-> | Hne]; [congruence |].
      rewrite count_occ_cons_neq in Hcount by assumption.
      assert (Hd : differs (Some w) l = true) by now apply differs_spec.
      rewrite Hd. f_equal. now apply IH.
Qed.

Lemma bind_return {A B} (m : M A) (f : A -> M B) (s s' : state) (a : A) :
  m s = (Return a, s') -> bind m f s = f a s'.
Proof. intros H. unfold bind. now rewrite H. Qed.

Lemma printing_nil (s : state) : printing [] s = s.
Proof. destruct s. unfold printing. simpl. now rewrite app_nil_r. Qed.

Lemma printing_printing (a b : list event) (s : state) :
  printing b (printing a s) = printing (a ++ b) s.
Proof. unfold printing. simpl. now rewrite app_assoc. Qed.

Lemma emit_printing (e : event) (s : state) : emit e s = printing [e] s.
Proof. reflexivity. Qed.

Lemma split_second (sep : ascii) (s : str) :
  In sep s -> exists v, nth_error (split sep s) 1 = Some v.
Proof.
  induction s as [| c s IH]; simpl; [tauto |].
  intros H. pose proof (split_nonempty sep s) as Hne.
  destruct (Ascii.eqb_spec c sep) as [-> | Hc].
  - destruct (split sep s) as [| l ls]; [congruence |]. now exists l.
  - destruct H as [H | H]; [congruence |].
    destruct (IH H) as [v Hv].
    destruct (split sep s) as [| l ls]; [congruence |]. now exists v.
Qed.

Lemma showWallet_returns (line : str) (index : nat) (s : state) :
  In "="%char line ->
  exists events, showWallet line index s = (Return tt, printing events s).
Proof.
  intros H. destruct (split_second "="%char line H) as [v Hv].
  unfold showWallet. cbv zeta. rewrite Hv.
  eexists. unfold bind, logText, modify.
  rewrite !emit_printing, !printing_printing. reflexivity.
Qed.

Lemma forEach_returns A (P : A -> Prop) (body : A -> nat -> M unit) (xs : list A) :
  (forall x index s, P x -> exists events, body x index s = (Return tt, printing events s)) ->
  Forall P xs ->
  forall index s, exists events, forEach body index xs s = (Return tt, printing events s).
Proof.
  intros Hbody Hxs. induction Hxs as [| x xs Hx _ IH]; intros index s.
  - exists []. now rewrite printing_nil.
  - destruct (Hbody x index s Hx) as [e1 H1].
    destruct (IH (S index) (printing e1 s)) as [e2 H2].
    exists (e1 ++ e2). cbn [forEach].
    rewrite (bind_return _ _ _ _ _ H1), H2, printing_printing. reflexivity.
Qed.

(** View-wallets returns, having only printed, when every wallet line
    holds an [=]. *)
Lemma viewWallets_returns (s : state) (content : str) :
  configFile s = Regular content ->
  Forall (fun line => In "="%char line) (filter isWalletLine (split LF content)) ->
  exists events, viewWallets s = (Return tt, printing events s).
Proof.
  intros Hf Hall.
  destruct s as [st fee f input out]. simpl in Hf. subst f.
  unfold viewWallets. run.
  destruct (length (filter isWalletLine (split LF content)) =? 0).
  - eexists. unfold printing. simpl. rewrite <- app_assoc. reflexivity.
  - match goal with |- context [forEach showWallet 0 ?xs ?s0] =>
      destruct (forEach_returns _ (fun line => In "="%char line) showWallet xs
                  (fun x index s => showWallet_returns x index s) Hall 0 s0)
        as [events Hev]
    end.
    eexists. etransitivity; [exact Hev |]. unfold printing. simpl.
    rewrite <- app_assoc. reflexivity.
Qed.

Lemma prompt_run (c : color) (question : string) (s : state) (line : str) (rest : list str) :
  stdin s = line :: rest ->
  prompt c question s = (Return line, withStdin rest (emit (Ask c (js question)) s)).
Proof.
  intros H. destruct s as [st fee f input out]. simpl in H. subst input. reflexivity.
Qed.

(** Remove-wallet on a file whose chosen wallet line occurs once: the file
    is written without that line, every other line in its place. *)
Lemma removeWallet_unique (s : state) (content answer : str) (rest : list str)
      (k : nat) (w : str) :
  configFile s = Regular content -> stdin s = answer :: rest ->
  parseInt (orElse answer (js "0")) = Int false (N.of_nat (S k)) ->
  let lines := split LF content in
  Forall (fun line => In "="%char line) (filter isWalletLine lines) ->
  nth_error (filter isWalletLine lines) k = Some w ->
  count_occ str_eq_dec lines w = 1 ->
  configFile (snd (removeWallet s)) = Regular (join (js "\n") (dropKthWalletLine k lines)).
Proof.
  intros Hf Hin Hparse lines Hall Hnth Hcount.
  assert (Hgt : intGt (Int false (N.of_nat (S k))) 0 = true).
  { unfold intGt, intZ. apply Z.ltb_lt. lia. }
  assert (Hle : intLe (Int false (N.of_nat (S k)))
                  (Z.of_nat (length (filter isWalletLine lines))) = true).
  { unfold intLe, intZ. apply Z.leb_le.
    assert (k < length (filter isWalletLine lines)) by (apply nth_error_Some; congruence).
    lia. }
  assert (Hat : atMinusOne (filter isWalletLine lines) (Int false (N.of_nat (S k))) = Some w).
  { unfold atMinusOne. change (N.of_nat (S k)) with (Npos (Pos.of_succ_nat k)).
    cbv beta iota. rewrite SuccNat2Pos.id_succ.
    replace (S k - 1) with k by lia. exact Hnth. }
  destruct (viewWallets_returns (emit (Log cyan (js "\n=== Remove Wallet ===")) s) content)
    as [events Hview]; [exact Hf | exact Hall |].
  unfold removeWallet.
  unfold bind at 1. unfold log at 1. unfold modify at 1.
  rewrite (bind_return _ _ _ _ _ Hview).
  rewrite (bind_return _ _ _ _ _
             (prompt_run yellow "\nEnter the number of the wallet to remove: "
                (printing events (emit (Log cyan (js "\n=== Remove Wallet ===")) s))
                answer rest Hin)).
  cbv zeta. rewrite Hparse, Hgt.
  destruct s as [st fee f input out]. simpl in Hf. subst f.
  unfold printing. run.
  fold lines. rewrite Hle. run.
  rewrite Hat, (drop_by_text_unique lines k w Hnth Hcount).
  reflexivity.
Qed.

(** ** The status after the file has changed *)

(** The example of C9: the wallet flag is read from the file at startup;
    removing the only wallet line through the menu empties the file and
    leaves the flag true. *)
Example wallet_flag_outlives_wallet_line (E : Engine) :
  let key := js "4f3edf983ac636a65a842ce7c78d9aa706d3b113bce9c46f30d7d21715b23b1d" in
  let s := snd (main (boot (Regular (js "WALLET_PRIVATE_KEY=" ++ key))
                        [js "7"; js "3"; js "1"; []; js "8"])) in
  fst (main (boot (Regular (js "WALLET_PRIVATE_KEY=" ++ key))
               [js "7"; js "3"; js "1"; []; js "8"])) = Return tt /\
  configFile s = Regular [] /\
  walletConfigured (status s) = true.
Proof. repeat split; vm_compute; reflexivity. Qed.

(* ===================================================================== *)
(** * Part III: the operations together, and the configuration module *)
(* ===================================================================== *)

(** ** What the operations leave alone *)

Section Frames.

Context {E : Engine}.

Lemma viewWallets_sameFile : preserves sameFile viewWallets.
Proof. unfold viewWallets, showWallet; keeps. Qed.

Lemma viewWallets_sameStatus : preserves sameStatus viewWallets.
Proof. unfold viewWallets, showWallet; keeps. Qed.

Lemma viewWallets_sameFees : preserves sameFees viewWallets.
Proof. unfold viewWallets, showWallet; keeps. Qed.

End Frames.

(** X1.  Create-keypairs, create-pool-bundle, view-configuration and the
    listing of the wallets never write the configuration file, whatever
    is typed and however they end. *)
Theorem read_only_operations_keep_the_file (E : Engine) (s : state) :
  configFile (snd (handleCreateKeypairs s)) = configFile s /\
  configFile (snd (handleCreatePoolBundle s)) = configFile s /\
  configFile (snd (handleViewConfiguration s)) = configFile s /\
  configFile (snd (viewWallets s)) = configFile s.
Proof.
  split; [| split; [| split]].
  - revert s. change (preserves sameFile handleCreateKeypairs).
    unfold handleCreateKeypairs, pressEnterToContinue; keeps.
  - revert s. change (preserves sameFile handleCreatePoolBundle).
    unfold handleCreatePoolBundle, pressEnterToContinue, displayFeePreview; keeps.
  - revert s. change (preserves sameFile handleViewConfiguration).
    unfold handleViewConfiguration, pressEnterToContinue, displayStatus; keeps.
  - apply viewWallets_sameFile.
Qed.

(** X2.  The fee settings of the instance are changed by configure-fees
    only: every other operation of the two menus leaves them as they
    were. *)
Theorem fee_settings_changed_only_by_configureFees (E : Engine) (s : state) :
  feeSettings (snd (handleConfigureWallet s)) = feeSettings s /\
  feeSettings (snd (handleConfigureRPC s)) = feeSettings s /\
  feeSettings (snd (handleCreateKeypairs s)) = feeSettings s /\
  feeSettings (snd (handleCreatePoolBundle s)) = feeSettings s /\
  feeSettings (snd (handleViewConfiguration s)) = feeSettings s /\
  feeSettings (snd (handleManageWallets s)) = feeSettings s.
Proof.
  repeat match goal with |- _ /\ _ => split end; revert s.
  - change (preserves sameFees handleConfigureWallet).
    unfold handleConfigureWallet, pressEnterToContinue; keeps.
  - change (preserves sameFees handleConfigureRPC).
    unfold handleConfigureRPC, pressEnterToContinue; keeps.
  - change (preserves sameFees handleCreateKeypairs).
    unfold handleCreateKeypairs, pressEnterToContinue; keeps.
  - change (preserves sameFees handleCreatePoolBundle).
    unfold handleCreatePoolBundle, pressEnterToContinue, displayFeePreview; keeps.
  - change (preserves sameFees handleViewConfiguration).
    unfold handleViewConfiguration, pressEnterToContinue, displayStatus; keeps.
  - change (preserves sameFees handleManageWallets).
    unfold handleManageWallets, viewWallets, showWallet, addWallet, removeWallet,
      setPrimaryWallet, pressEnterToContinue; keeps; apply viewWallets_sameFees.
Qed.

(** ** The configuration module *)

Lemma truthy_spec (s : str) : truthy s = true <-> s <> [].
Proof. destruct s; simpl; split; congruence. Qed.

Lemma orElse_nonempty (s d : str) : s <> [] -> orElse s d = s.
Proof. destruct s; [congruence | reflexivity]. Qed.

Lemma assigns_key_unique (line k1 v1 k2 v2 : str) :
  assigns line k1 v1 -> assigns line k2 v2 -> k1 = k2 /\ v1 = v2.
Proof.
  intros (a1 & b1 & m1 & H1 & <- & <- & _) (a2 & b2 & m2 & H2 & <- & <- & _).
  rewrite H1 in H2. injection H2 as -> -> _. split; reflexivity.
Qed.

(** What one line does to the object *)
Lemma readLine_cases (acc : envObject) (line : str) :
  (exists k v, assigns line k v /\ readLine acc line = assign acc k v) \/
  ((forall k v, ~ assigns line k v) /\ readLine acc line = acc).
Proof.
  unfold readLine.
  destruct (split "="%char line) as [| rawKey [| rawValue more]] eqn:Hs; simpl.
  - right. split; [| reflexivity]. intros k v (a & b & m & H & _). rewrite Hs in H. discriminate H.
  - right. split; [| reflexivity]. intros k v (a & b & m & H & _). rewrite Hs in H. discriminate H.
  - destruct (truthy (trim rawKey)) eqn:Hk; simpl.
    + destruct (truthy (trim rawValue)) eqn:Hv.
      * left. exists (trim rawKey), (trim rawValue). split; [| reflexivity].
        exists rawKey, rawValue, more.
        repeat split; trivial; now apply truthy_spec.
      * right. split; [| reflexivity].
        intros k v (a & b & m & H & _ & Hb & _ & Hne). rewrite Hs in H. injection H as <- <- <-.
        subst v. apply truthy_spec in Hne. congruence.
    + right. split; [| reflexivity].
      intros k v (a & b & m & H & Ha & _ & Hne & _). rewrite Hs in H. injection H as <- <- <-.
      subst k. apply truthy_spec in Hne. congruence.
Qed.

Lemma property_assign (acc : envObject) (k v key : str) :
  key <> js "__proto__" ->
  property (assign acc k v) key = if streq k key then Some v else property acc key.
Proof.
  intros Hkey. unfold assign.
  destruct (streq k (js "__proto__")) eqn:Hp; [| reflexivity].
  apply streq_spec in Hp. subst k.
  destruct (streq (js "__proto__") key) eqn:Hq; [| reflexivity].
  apply streq_spec in Hq. congruence.
Qed.

Lemma streq_neq (a b : str) : a <> b -> streq a b = false.
Proof.
  intros H. destruct (streq a b) eqn:Heq; [| reflexivity].
  apply streq_spec in Heq. contradiction.
Qed.

Lemma property_fold (lines : list str) (key value : str) :
  key <> js "__proto__" ->
  property (fold_left readLine lines []) key = Some value <->
  lastAssigned lines key value.
Proof.
  intros Hkey. revert value.
  induction lines as [| x l IH] using rev_ind; intros value.
  - simpl. split; [discriminate |].
    intros (before & line & after & H & _). destruct before; discriminate H.
  - rewrite fold_left_app. simpl.
    destruct (readLine_cases (fold_left readLine l []) x)
      as [(k & v & Hx & ->) | (Hx & ->)].
    + rewrite property_assign by exact Hkey.
      destruct (streq k key) eqn:Hk.
      * apply streq_spec in Hk. subst k. split.
        -- intros [= <-]. exists l, x, []. repeat split; trivial.
        -- intros (before & line & after & H & Hl & Hafter).
           destruct after as [| y after'] using rev_ind.
           ++ apply app_inj_tail in H. destruct H as [_ <-].
              destruct (assigns_key_unique _ _ _ _ _ Hx Hl) as [_ ->]. reflexivity.
           ++ clear IHafter'.
              change (before ++ line :: after' ++ [y])
                with (before ++ (line :: after') ++ [y]) in H.
              rewrite app_assoc in H. apply app_inj_tail in H. destruct H as [_ <-].
              apply Forall_app in Hafter. destruct Hafter as [_ Hy].
              inversion Hy as [| ? ? Hno _]. destruct (Hno v Hx).
      * rewrite IH. split.
        -- intros (before & line & after & -> & Hl & Hafter).
           exists before, line, (after ++ [x]). split; [| split; trivial].
           ++ rewrite <- app_assoc. reflexivity.
           ++ apply Forall_app. split; trivial. constructor; [| constructor].
              intros v' Hv'. destruct (assigns_key_unique _ _ _ _ _ Hx Hv') as [-> _].
              rewrite streq_refl in Hk. discriminate.
        -- intros (before & line & after & H & Hl & Hafter).
           destruct after as [| y after'] using rev_ind.
           ++ apply app_inj_tail in H. destruct H as [_ <-].
              destruct (assigns_key_unique _ _ _ _ _ Hx Hl) as [-> _].
              rewrite streq_refl in Hk. discriminate.
           ++ clear IHafter'.
              change (before ++ line :: after' ++ [y])
                with (before ++ (line :: after') ++ [y]) in H.
              rewrite app_assoc in H. apply app_inj_tail in H. destruct H as [-> <-].
              apply Forall_app in Hafter. destruct Hafter as [Hafter _].
              exists before, line, after'. repeat split; trivial.
    + rewrite IH. split.
      * intros (before & line & after & -> & Hl & Hafter).
        exists before, line, (after ++ [x]). split; [| split; trivial].
        -- rewrite <- app_assoc. reflexivity.
        -- apply Forall_app. split; trivial. constructor; [| constructor].
           intros v'. apply Hx.
      * intros (before & line & after & H & Hl & Hafter).
        destruct after as [| y after'] using rev_ind.
        -- apply app_inj_tail in H. destruct H as [_ <-]. destruct (Hx _ _ Hl).
        -- clear IHafter'.
           change (before ++ line :: after' ++ [y])
             with (before ++ (line :: after') ++ [y]) in H.
           rewrite app_assoc in H. apply app_inj_tail in H. destruct H as [-> <-].
           apply Forall_app in Hafter. destruct Hafter as [Hafter _].
           exists before, line, after'. repeat split; trivial.
Qed.

Lemma orEmpty_spec (o : option str) (value : str) :
  (orEmpty o = value /\ value <> []) <-> (o = Some value /\ value <> []).
Proof.
  destruct o as [v |]; simpl.
  - split; intros [H Hne]; split; trivial.
    + destruct v; unfold orElse in H; simpl in H; congruence.
    + injection H as ->. now apply orElse_nonempty.
  - split; intros [H Hne]; [congruence | discriminate].
Qed.

Lemma lastAssigned_nonempty (lines : list str) (key value : str) :
  lastAssigned lines key value -> value <> [].
Proof. intros (b & l & a & _ & (rk & rv & m & _ & _ & _ & _ & H) & _). exact H. Qed.

Lemma setting_spec (lines : list str) (key value : str) :
  key <> js "__proto__" ->
  orEmpty (property (fold_left readLine lines []) key) = value /\ value <> [] <->
  lastAssigned lines key value.
Proof.
  intros Hkey. rewrite orEmpty_spec. split.
  - intros [H _]. now apply property_fold in H.
  - intros H. split; [now apply property_fold | eapply lastAssigned_nonempty; exact H].
Qed.

(** X3.  The module keeps, for each of the three settings, the value of the
    last line of the file that assigns one to it; a line assigns a value
    when the text before its first [=] and the text between its first and
    second [=], both trimmed, are not empty.  Lines without [=], with an
    empty key or an empty value are passed over. *)
Theorem settings_are_last_assignments (content value : str) :
  let c := fst (loadSettings (Regular content)) in
  let lines := split LF content in
  (walletKey c = value /\ value <> [] <->
   lastAssigned lines (js "WALLET_PRIVATE_KEY") value) /\
  (payerKey c = value /\ value <> [] <->
   lastAssigned lines (js "PAYER_PRIVATE_KEY") value) /\
  (rpcUrl c = value /\ value <> [] <-> lastAssigned lines (js "RPC_URL") value).
Proof.
  intros c lines. split; [| split]; apply setting_spec; discriminate.
Qed.

Lemma settings_are_last_assignments_witness :
  lastAssigned (split LF (js "RPC_URL=http://a\nNOTE\nRPC_URL = http://b \nRPC_URL="))
               (js "RPC_URL") (js "http://b").
Proof.
  apply (proj1 (proj2 (proj2 (settings_are_last_assignments
           (js "RPC_URL=http://a\nNOTE\nRPC_URL = http://b \nRPC_URL=") (js "http://b"))))).
  split; [vm_compute; reflexivity | discriminate].
Defined.

Lemma split_lines_snoc (content line : str) :
  ~ In LF line -> split LF (content ++ js "\n" ++ line) = split LF content ++ [line].
Proof.
  intros H. change (content ++ js "\n" ++ line) with (content ++ LF :: line).
  rewrite split_app_sep, (split_no_sep LF line H). reflexivity.
Qed.





(** ** How a session ends *)

#[export] Instance inputConsumed_invariant : Invariant inputConsumed.
Proof.
  split.
  - intros s. exists []. reflexivity.
  - intros a b c [u1 H1] [u2 H2]. exists (u1 ++ u2).
    rewrite H1, H2, app_assoc. reflexivity.
Qed.

#[export] Instance inputConsumed_output : IgnoresOutput inputConsumed.
Proof. intros s e. exists []. reflexivity. Qed.
#[export] Instance inputConsumed_file : IgnoresFile inputConsumed.
Proof. intros s v. exists []. reflexivity. Qed.
#[export] Instance inputConsumed_fees : IgnoresFees inputConsumed.
Proof. intros s v. exists []. reflexivity. Qed.

Lemma prompt_consumes c question : preserves inputConsumed (prompt c question).
Proof.
  intros [st fee f input out]. unfold prompt. run.
  destruct input as [| line rest]; [exists [] | exists [line]]; reflexivity.
Qed.

Ltac consumes :=
  repeat first
    [ apply prompt_consumes
    | preserve_step
    | apply preserves_modify; intros ?; exists []; reflexivity ].

Section Exit.

Context {E : Engine}.

Lemma viewWallets_consumes : preserves inputConsumed viewWallets.
Proof. unfold viewWallets, showWallet; consumes. Qed.

Lemma handleManageWallets_consumes : preserves inputConsumed handleManageWallets.
Proof.
  pose proof viewWallets_consumes.
  unfold handleManageWallets, addWallet, removeWallet, setPrimaryWallet,
    pressEnterToContinue; consumes; assumption.
Qed.

Lemma handlers_consume :
  preserves inputConsumed handleConfigureWallet /\
  preserves inputConsumed handleConfigureRPC /\
  preserves inputConsumed handleCreateKeypairs /\
  preserves inputConsumed handleConfigureFees /\
  preserves inputConsumed handleCreatePoolBundle /\
  preserves inputConsumed handleViewConfiguration.
Proof.
  unfold handleConfigureWallet, handleConfigureRPC, handleCreateKeypairs,
    handleConfigureFees, handleCreatePoolBundle, handleViewConfiguration,
    displayFeePreview, displayStatus, pressEnterToContinue.
  repeat match goal with |- _ /\ _ => split end; consumes.
Qed.

Lemma display_consumes :
  preserves inputConsumed clearScreen /\ preserves inputConsumed displayHeader /\
  preserves inputConsumed displayStatus /\ preserves inputConsumed displayMenu /\
  preserves inputConsumed pressEnterToContinue.
Proof.
  unfold displayHeader, displayStatus, displayMenu, pressEnterToContinue.
  repeat match goal with |- _ /\ _ => split end; consumes.
Qed.

(** A sequence returns only if its first part does, and what follows then
    runs on what the first part has left to type. *)
Lemma bind_exit A (m : M A) (f : A -> M unit) (s : state) :
  preserves inputConsumed m ->
  (forall a s', fst (f a s') = Return tt ->
                In (js "8") (stdin s') /\ endsWith farewell (stdout (snd (f a s')))) ->
  fst (bind m f s) = Return tt ->
  In (js "8") (stdin s) /\ endsWith farewell (stdout (snd (bind m f s))).
Proof.
  intros Hm Hk. unfold bind. pose proof (Hm s) as [used Hs].
  destruct (m s) as [[a | e | h] s']; simpl in *; try discriminate.
  intros H. destruct (Hk a s' H) as [Hin Hend]. split; trivial.
  rewrite Hs. apply in_or_app. now right.
Qed.

Lemma prompt_exit c question (f : str -> M unit) (s : state) :
  (forall line s', fst (f line s') = Return tt ->
      (line = js "8" \/ In (js "8") (stdin s')) /\
      endsWith farewell (stdout (snd (f line s')))) ->
  fst (bind (prompt c question) f s) = Return tt ->
  In (js "8") (stdin s) /\ endsWith farewell (stdout (snd (bind (prompt c question) f s))).
Proof.
  intros Hk. destruct s as [st fee file input out]. unfold prompt. run.
  destruct input as [| line rest]; [discriminate |].
  intros H. destruct (Hk _ _ H) as [Hin Hend]. split; [exact Hin | exact Hend].
Qed.

Lemma menuLoop_exit (fuel : nat) (s : state) :
  fst (menuLoop fuel s) = Return tt ->
  In (js "8") (stdin s) /\ endsWith farewell (stdout (snd (menuLoop fuel s))).
Proof.
  destruct display_consumes as (D1 & D2 & D3 & D4 & D5).
  destruct handlers_consume as (H1 & H2 & H3 & H4 & H5 & H6).
  pose proof handleManageWallets_consumes as H7.
  revert s. induction fuel as [| fuel IH]; intros s; [discriminate |].
  cbn [menuLoop].
  apply bind_exit; trivial. intros _ s1.
  apply bind_exit; trivial. intros _ s2.
  apply bind_exit; trivial. intros _ s3.
  apply bind_exit; trivial. intros _ s4.
  apply prompt_exit. intros answer s5.
  assert (Hnext : forall (h : M unit) (s' : state), preserves inputConsumed h ->
            fst ((h ;; menuLoop fuel) s') = Return tt ->
            (answer = js "8" \/ In (js "8") (stdin s')) /\
            endsWith farewell (stdout (snd ((h ;; menuLoop fuel) s')))).
  { intros h s' Hh Hret.
    destruct (bind_exit unit h (fun _ => menuLoop fuel) s' Hh (fun _ => IH) Hret).
    split; [now right | assumption]. }
  destruct (streq answer (js "1")); [now apply Hnext |].
  destruct (streq answer (js "2")); [now apply Hnext |].
  destruct (streq answer (js "3")); [now apply Hnext |].
  destruct (streq answer (js "4")); [now apply Hnext |].
  destruct (streq answer (js "5")); [now apply Hnext |].
  destruct (streq answer (js "6")); [now apply Hnext |].
  destruct (streq answer (js "7")); [now apply Hnext |].
  destruct (streq answer (js "8")) eqn:H8.
  - intros _. apply streq_spec in H8. split; [now left |].
    exists (stdout s5). reflexivity.
  - intros Hret.
    assert (Hlog : preserves inputConsumed
                     (log red "\nInvalid option. Please choose a number between 1 and 8."))
      by consumes.
    assert (X : In (js "8") (stdin s5) /\
                endsWith farewell
                  (stdout (snd ((log red "\nInvalid option. Please choose a number between 1 and 8." ;;
                                 pressEnterToContinue ;; menuLoop fuel) s5)))).
    { apply bind_exit; [exact Hlog | | exact Hret]. intros _ s6.
      apply bind_exit; [exact D5 |]. intros _. apply IH. }
    destruct X as [Hin Hend]. split; [now right | assumption].
Qed.

End Exit.

(** Nothing but [main] ends the process. *)

Lemma staysAlive_bind A B (m : M A) (f : A -> M B) :
  staysAlive m -> (forall a, staysAlive (f a)) -> staysAlive (bind m f).
Proof.
  intros Hm Hf s. unfold bind. specialize (Hm s).
  destruct (m s) as [[a | e | h] s']; simpl in *; [apply Hf | reflexivity | exact Hm].
Qed.

Lemma staysAlive_tryCatch A (m : M A) (handler : error -> M A) :
  staysAlive m -> (forall e, staysAlive (handler e)) -> staysAlive (tryCatch m handler).
Proof.
  intros Hm Hh s. unfold tryCatch. specialize (Hm s).
  destruct (m s) as [[a | e | h] s']; simpl in *; [reflexivity | apply Hh | exact Hm].
Qed.

Lemma staysAlive_forEach A (body : A -> nat -> M unit) (xs : list A) :
  (forall x i, staysAlive (body x i)) -> forall index, staysAlive (forEach body index xs).
Proof.
  intros Hb. induction xs as [| x xs IH]; intros index; simpl.
  - intros s; reflexivity.
  - apply staysAlive_bind; [apply Hb | intros _; apply IH].
Qed.

Lemma staysAlive_prompt c question : staysAlive (prompt c question).
Proof.
  intros [st fee f input out]. unfold prompt. run. destruct input; reflexivity.
Qed.

Lemma staysAlive_readFileSync : staysAlive readFileSync.
Proof. intros [st fee f input out]. unfold readFileSync. run. destruct f; reflexivity. Qed.

Lemma staysAlive_writeFileSync content : staysAlive (writeFileSync content).
Proof. intros [st fee f input out]. unfold writeFileSync. run. destruct f; reflexivity. Qed.

Ltac alive_step :=
  match goal with
  | |- staysAlive (bind _ _) => apply staysAlive_bind; [| intros ?]
  | |- staysAlive (tryCatch _ _) => apply staysAlive_tryCatch; [| intros ?]
  | |- staysAlive (when ?c _) => destruct c; cbv beta iota delta [when]
  | |- staysAlive (forEach _ _ _) => apply staysAlive_forEach; intros ? ?
  | |- staysAlive (prompt _ _) => apply staysAlive_prompt
  | |- staysAlive readFileSync => apply staysAlive_readFileSync
  | |- staysAlive (writeFileSync _) => apply staysAlive_writeFileSync
  | |- staysAlive (if ?c then _ else _) => destruct c
  | |- staysAlive (match ?x with _ => _ end) => destruct x
  | |- staysAlive (let _ := _ in _) => cbv zeta
  | |- staysAlive _ => solve [intros ?; reflexivity]
  end.

Ltac alive := repeat alive_step.

Section Alive.

Context {E : Engine}.

Lemma handlers_stay_alive :
  staysAlive handleConfigureWallet /\ staysAlive handleConfigureRPC /\
  staysAlive handleCreateKeypairs /\ staysAlive handleConfigureFees /\
  staysAlive handleCreatePoolBundle /\ staysAlive handleViewConfiguration /\
  staysAlive handleManageWallets.
Proof.
  unfold handleConfigureWallet, handleConfigureRPC, handleCreateKeypairs,
    handleConfigureFees, handleCreatePoolBundle, handleViewConfiguration,
    handleManageWallets, addWallet, removeWallet, setPrimaryWallet, viewWallets,
    showWallet, displayFeePreview, displayStatus, pressEnterToContinue.
  repeat match goal with |- _ /\ _ => split end; alive.
Qed.

Lemma menuLoop_stays_alive (fuel : nat) : staysAlive (menuLoop fuel).
Proof.
  destruct handlers_stay_alive as (H1 & H2 & H3 & H4 & H5 & H6 & H7).
  induction fuel as [| fuel IH]; cbn [menuLoop]; [intros s; reflexivity |].
  unfold displayHeader, displayStatus, displayMenu, pressEnterToContinue.
  alive; assumption.
Qed.

Lemma start_stays_alive : staysAlive (constructor ;; start).
Proof.
  unfold constructor, loadStatus, start.
  apply staysAlive_bind; [alive |]. intros _.
  apply staysAlive_bind; [alive |]. intros input. apply menuLoop_stays_alive.
Qed.

End Alive.

Lemma constructor_consumes : preserves inputConsumed constructor.
Proof. unfold constructor, loadStatus; consumes. Qed.

Lemma constructor_fuelled : fuelled constructor.
Proof. unfold constructor, loadStatus. fuelled_all. Qed.

(** X5.  How a session ends.  [main] never lets an exception through and
    ends in one of three ways: it returns, and then a line [8] was among
    the lines typed and the farewell is the last thing printed; or it
    waits for a line that is not typed; or it ends the process with the
    code 1, and then the last thing printed is the fatal error.  So the
    menu loop is left only by the exit choice or by an exception. *)
Theorem session_ends_in_three_ways (E : Engine) (s : state) :
  let s' := snd (main s) in
  (fst (main s) = Return tt /\
   In (js "8") (stdin s) /\ endsWith farewell (stdout s')) \/
  fst (main s) = Halt AwaitingInput \/
  (fst (main s) = Halt (Exited 1) /\
   exists detail, endsWith (ErrorLog (js "Fatal error:") detail) (stdout s')).
Proof.
  unfold main, tryCatch.
  pose proof (start_stays_alive s) as Halive.
  pose proof (fuelled_bind _ _ constructor (fun _ => start) constructor_fuelled
                (fun _ => start_never_out_of_fuel) s) as Hfuel.
  pose proof (bind_exit unit constructor (fun _ => start) s constructor_consumes) as Hexit.
  destruct ((constructor ;; start) s) as [[[] | e | h] s1]; cbn [fst snd] in *.
  - left. split; [reflexivity |]. apply Hexit; [| reflexivity].
    intros _ s2. unfold start, bind, get. cbn [fst snd]. apply menuLoop_exit.
  - right. right. run. split; [reflexivity |].
    exists (message e), (stdout s1). reflexivity.
  - destruct h; simpl in *; try discriminate. right. left. reflexivity.
Qed.

(** ** Which flag an operation raises *)

Lemma raises_invariant (set : bool -> SystemStatus -> SystemStatus) :
  (forall st, set true (set true st) = set true st) -> Invariant (raises set).
Proof.
  intros Hidem. split.
  - intros s. now left.
  - intros a b c [H1 | H1] [H2 | H2]; red; rewrite H2, H1; auto.
Qed.

#[export] Instance raises_wallet : Invariant (raises setWalletConfigured).
Proof. apply raises_invariant. reflexivity. Qed.
#[export] Instance raises_rpc : Invariant (raises setRpcConfigured).
Proof. apply raises_invariant. reflexivity. Qed.
#[export] Instance raises_keypairs : Invariant (raises setKeypairsCreated).
Proof. apply raises_invariant. reflexivity. Qed.
#[export] Instance raises_bundle : Invariant (raises setPoolBundleReady).
Proof. apply raises_invariant. reflexivity. Qed.
#[export] Instance raises_fees : Invariant (raises setFeeSettingsConfigured).
Proof. apply raises_invariant. reflexivity. Qed.

#[export] Instance raises_output set : IgnoresOutput (raises set).
Proof. intros s e. now left. Qed.
#[export] Instance raises_input set : IgnoresInput (raises set).
Proof. intros s v. now left. Qed.
#[export] Instance raises_file set : IgnoresFile (raises set).
Proof. intros s v. now left. Qed.
#[export] Instance raises_feeSettings set : IgnoresFees (raises set).
Proof. intros s v. now left. Qed.

Ltac raised :=
  repeat first
    [ preserve_step
    | apply preserves_modify; intros ?; first [left; reflexivity | right; reflexivity] ].

(** X6.  Each operation raises at most its own flag: configure-wallet and
    the wallet submenu (by set-primary) the wallet flag, configure-RPC the
    RPC flag, create-keypairs the keypairs flag, configure-fees the fee
    flag, create-pool-bundle the bundle flag; every other flag is after the
    operation what it was before.  Viewing the configuration and listing,
    adding or removing a wallet change no flag. *)
Theorem each_operation_raises_its_own_flag (E : Engine) (s : state) :
  raises setWalletConfigured s (snd (handleConfigureWallet s)) /\
  raises setRpcConfigured s (snd (handleConfigureRPC s)) /\
  raises setKeypairsCreated s (snd (handleCreateKeypairs s)) /\
  raises setFeeSettingsConfigured s (snd (handleConfigureFees s)) /\
  raises setPoolBundleReady s (snd (handleCreatePoolBundle s)) /\
  raises setWalletConfigured s (snd (handleManageWallets s)) /\
  status (snd (handleViewConfiguration s)) = status s /\
  status (snd (viewWallets s)) = status s /\
  status (snd (addWallet s)) = status s /\
  status (snd (removeWallet s)) = status s.
Proof.
  repeat match goal with |- _ /\ _ => split end; revert s.
  - change (preserves (raises setWalletConfigured) handleConfigureWallet).
    unfold handleConfigureWallet, pressEnterToContinue; raised.
  - change (preserves (raises setRpcConfigured) handleConfigureRPC).
    unfold handleConfigureRPC, pressEnterToContinue; raised.
  - change (preserves (raises setKeypairsCreated) handleCreateKeypairs).
    unfold handleCreateKeypairs, pressEnterToContinue; raised.
  - change (preserves (raises setFeeSettingsConfigured) handleConfigureFees).
    unfold handleConfigureFees, displayFeePreview, pressEnterToContinue; raised.
  - change (preserves (raises setPoolBundleReady) handleCreatePoolBundle).
    unfold handleCreatePoolBundle, displayFeePreview, pressEnterToContinue; raised.
  - change (preserves (raises setWalletConfigured) handleManageWallets).
    unfold handleManageWallets, addWallet, removeWallet, setPrimaryWallet, viewWallets,
      showWallet, pressEnterToContinue; raised.
  - change (preserves sameStatus handleViewConfiguration).
    unfold handleViewConfiguration, displayStatus, pressEnterToContinue; keeps.
  - apply viewWallets_sameStatus.
  - change (preserves sameStatus addWallet). unfold addWallet; keeps.
  - change (preserves sameStatus removeWallet).
    unfold removeWallet, viewWallets, showWallet; keeps.
Qed.

(** ** The two creation steps, once their prerequisites hold *)

Lemma lowerChar_y (c : ascii) :
  lowerChar c = "y"%char <-> c = "y"%char \/ c = "Y"%char.
Proof.
  split.
  - destruct c as [[] [] [] [] [] [] [] []]; vm_compute; intros H;
      first [discriminate H | now left | now right].
  - intros [-> | ->]; reflexivity.
Qed.

Lemma toLowerCase_y (answer : str) :
  streq (toLowerCase answer) (js "y") = true <-> answer = js "y" \/ answer = js "Y".
Proof.
  rewrite streq_spec. destruct answer as [| c [| d t]]; simpl.
  - split; [discriminate | intros [H | H]; discriminate H].
  - split.
    + intros [= H]. apply lowerChar_y in H. destruct H as [-> | ->]; auto.
    + intros [[= ->] | [= ->]]; reflexivity.
  - split; [discriminate | intros [H | H]; discriminate H].
Qed.

Lemma pressEnter_shows (s s1 : state) (events : list event) (e : event) :
  stdout s1 = stdout s ++ events -> In e events ->
  In e (printedSince s (snd (pressEnterToContinue s1))).
Proof.
  intros H Hin. destruct (pressEnter_printed s s1 events H) as [more ->].
  apply in_or_app. now left.
Qed.

Section Creation.

Context {E : Engine}.

Lemma createKeypairs_run (s : state) (answer : str) (rest : list str) :
  walletConfigured (status s) = true -> rpcConfigured (status s) = true ->
  stdin s = answer :: rest ->
  let n := parseInt answer in
  let s' := snd (handleCreateKeypairs s) in
  configFile s' = configFile s /\
  (isNaN n || intLe n 0 = true ->
   status s' = status s /\ reportsError (printedSince s s')) /\
  (isNaN n || intLe n 0 = false ->
   status s' = setKeypairsCreated true (status s) /\
   In (Log green (js "\n✓ Created " ++ Number_toString (toNumber n) ++
                  js " keypairs successfully")) (printedSince s s')).
Proof.
  intros Hw Hr Hin n.
  destruct s as [st fee f input out]; simpl in Hw, Hr, Hin; subst input.
  unfold handleCreateKeypairs. run. rewrite Hw, Hr. cbn [negb orb]. run. fold n.
  destruct (isNaN n || intLe n 0) eqn:Hbad; run.
  - split; [apply pressEnter_file |]. split; [| discriminate]. intros _.
    split; [apply pressEnter_status |].
    eapply pressEnter_reports with (e := Log red (js "\n✗ Invalid number"));
      [printed | simpl; eauto 12 | reflexivity].
  - split; [apply pressEnter_file |]. split; [discriminate |]. intros _.
    split; [apply pressEnter_status |].
    eapply pressEnter_shows; [printed | simpl; auto 12].
Qed.

Lemma createPoolBundle_run (s : state) (amount proceed : str) (rest : list str) :
  walletConfigured (status s) = true -> rpcConfigured (status s) = true ->
  keypairsCreated (status s) = true ->
  stdin s = amount :: proceed :: rest ->
  let s' := snd (handleCreatePoolBundle s) in
  configFile s' = configFile s /\
  (streq (toLowerCase proceed) (js "y") = true ->
   status s' = setPoolBundleReady true (status s)) /\
  (streq (toLowerCase proceed) (js "y") = false ->
   status s' = status s /\
   In (Log yellow (js "\nPool bundle creation cancelled")) (printedSince s s')).
Proof.
  intros Hw Hr Hk Hin.
  destruct s as [st fee f input out]; simpl in Hw, Hr, Hk, Hin; subst input.
  unfold handleCreatePoolBundle, displayFeePreview. run. rewrite Hw, Hr, Hk.
  cbn [negb orb]. run.
  destruct (gt (parseFloat (orElse amount (js "0"))) (S754_zero false)); run;
    (destruct (streq (toLowerCase proceed) (js "y")); run;
     (split; [apply pressEnter_file |]);
     (split; intros H; try discriminate H);
     first
       [ apply pressEnter_status
       | split; [apply pressEnter_status |];
         eapply pressEnter_shows;
           [printed | repeat (apply in_or_app; right); now left] ]).
Qed.

End Creation.

(** X7.  With the wallet and the RPC configured, create-keypairs sets the
    keypairs flag exactly when the answer is read as an integer above
    zero; for any other answer (nothing, text, zero, a negative number) it
    reports an error and leaves the flags as they were.  The file is not
    touched either way. *)
Theorem keypairs_need_a_positive_count
        (E : Engine) (s : state) (answer : str) (rest : list str) :
  walletConfigured (status s) = true -> rpcConfigured (status s) = true ->
  stdin s = answer :: rest ->
  let s' := snd (handleCreateKeypairs s) in
  configFile s' = configFile s /\
  ((exists z, intValue (parseInt answer) = Some z /\ (0 < z)%Z) ->
   status s' = setKeypairsCreated true (status s)) /\
  (intValue (parseInt answer) = None \/
   (exists z, intValue (parseInt answer) = Some z /\ (z <= 0)%Z) ->
   status s' = status s /\ reportsError (printedSince s s')).
Proof.
  intros Hw Hr Hin s'.
  destruct (createKeypairs_run s answer rest Hw Hr Hin) as (Hfile & Hbad & Hgood).
  split; [exact Hfile |]. split.
  - intros (z & Hz & Hpos). apply Hgood.
    destruct (parseInt answer) as [| neg mag]; [discriminate Hz |].
    injection Hz as <-. unfold intLe. simpl. apply Z.leb_gt. exact Hpos.
  - intros [Hnan | (z & Hz & Hneg)]; apply Hbad.
    + destruct (parseInt answer); [reflexivity | discriminate Hnan].
    + destruct (parseInt answer) as [| neg mag]; [reflexivity |].
      injection Hz as <-. unfold intLe. simpl. apply Z.leb_le. exact Hneg.
Qed.

Lemma keypairs_need_a_positive_count_witness :
  let s := snd (constructor
                  (boot (Regular (js "WALLET_PRIVATE_KEY=k\nRPC_URL=u")) [js "3 pairs"; []])) in
  status (snd (handleCreateKeypairs (E := plainEngine) s)) =
  setKeypairsCreated true (status s).
Proof.
  intros s.
  refine (proj1 (proj2 (keypairs_need_a_positive_count plainEngine s (js "3 pairs") [[]]
                          _ _ _)) _); try reflexivity.
  exists 3%Z. split; [reflexivity | lia].
Defined.

(** X8.  With its three prerequisites met, create-pool-bundle sets the
    bundle flag exactly when the answer to the last question is [y] or
    [Y]; any other answer, [yes] included, cancels: the flags stay as they
    were and the cancellation is printed.  Whatever the amount typed, the
    file is not touched. *)
Theorem bundle_needs_a_yes
        (E : Engine) (s : state) (amount proceed : str) (rest : list str) :
  walletConfigured (status s) = true -> rpcConfigured (status s) = true ->
  keypairsCreated (status s) = true ->
  stdin s = amount :: proceed :: rest ->
  let s' := snd (handleCreatePoolBundle s) in
  configFile s' = configFile s /\
  (proceed = js "y" \/ proceed = js "Y" ->
   status s' = setPoolBundleReady true (status s)) /\
  (proceed <> js "y" -> proceed <> js "Y" ->
   status s' = status s /\
   In (Log yellow (js "\nPool bundle creation cancelled")) (printedSince s s')).
Proof.
  intros Hw Hr Hk Hin s'.
  destruct (createPoolBundle_run s amount proceed rest Hw Hr Hk Hin)
    as (Hfile & Hyes & Hno).
  split; [exact Hfile |]. split.
  - intros H. apply Hyes. now apply toLowerCase_y.
  - intros H1 H2. apply Hno.
    destruct (streq (toLowerCase proceed) (js "y")) eqn:Hs; [| reflexivity].
    apply toLowerCase_y in Hs. tauto.
Qed.

Lemma bundle_needs_a_yes_witness :
  let st := {| walletConfigured := true; rpcConfigured := true; keypairsCreated := true;
               poolBundleReady := false; feeSettingsConfigured := false |} in
  let s := {| status := st; feeSettings := defaultFeeSettings; configFile := Missing;
              stdin := [js "1.5"; js "yes"; []]; stdout := [] |} in
  status (snd (handleCreatePoolBundle (E := plainEngine) s)) = st.
Proof.
  intros st s.
  refine (proj1 (proj2 (proj2 (bundle_needs_a_yes plainEngine s (js "1.5") (js "yes") [[]]
                                 _ _ _ _)) _ _)); try reflexivity; discriminate.
Defined.

(** ** What is saved is found again at the next start *)

Lemma getSubstitution_prefix (matched before after prefix template : str) :
  ~ In "$"%char prefix ->
  getSubstitution matched before after (prefix ++ template) =
  prefix ++ getSubstitution matched before after template.
Proof.
  induction prefix as [| c p IH]; intros H; [reflexivity |].
  assert (Hc : c <> "$"%char) by (intros ->; apply H; now left).
  assert (Hp : getSubstitution matched before after (p ++ template) =
               p ++ getSubstitution matched before after template)
    by (apply IH; intros Hin; apply H; now right).
  destruct c as [[] [] [] [] [] [] [] []]; simpl; rewrite ?Hp; try reflexivity;
    congruence.
Qed.

(** Whichever way the upsert goes, the text it gives holds the key. *)
Lemma upsert_occurs (content key value : str) :
  ~ In "="%char key -> ~ In "$"%char key ->
  occursIn (key ++ js "=") (upsertSetting content (key ++ js "=" ++ value)).
Proof.
  intros Heq Hdollar. unfold upsertSetting.
  change (key ++ js "=" ++ value) with (key ++ "="%char :: value).
  rewrite (split_hd_app "="%char key value Heq).
  destruct (includes content (key ++ js "=")) eqn:Hinc.
  - unfold replace.
    destruct (exec (keyLine key) content) as [[[before matched] after] |].
    + replace (key ++ "="%char :: value) with ((key ++ js "=") ++ value)
        by (now rewrite <- app_assoc).
      rewrite getSubstitution_prefix.
      * exists before, (getSubstitution matched before after value ++ after).
        now rewrite <- !app_assoc.
      * intros H. apply in_app_or in H. destruct H as [H | H]; [contradiction |].
        simpl in H. destruct H as [H | H]; [discriminate | contradiction].
    + now apply includes_spec.
  - exists (content ++ js "\n"), value.
    change (key ++ "="%char :: value) with (key ++ js "=" ++ value).
    now rewrite <- !app_assoc.
Qed.

Lemma configureWallet_flag (s : state) (content key : str) (rest : list str) :
  fileText (configFile s) = Some content -> stdin s = key :: rest ->
  32 <= length key ->
  status (snd (handleConfigureWallet s)) = setWalletConfigured true (status s).
Proof.
  intros Hf Hin Hlen.
  assert (Hnot : (length key <? 32) = false) by (apply Nat.ltb_ge; exact Hlen).
  destruct s as [st fee f input out]; simpl in Hin, Hf; subst input.
  unfold handleConfigureWallet. run.
  destruct key as [| c key]; [simpl in Hlen; lia |]. unfold truthy.
  rewrite Hnot.
  destruct f as [| text |]; inversion Hf; subst; run;
    (etransitivity; [apply pressEnter_status | reflexivity]).
Qed.

Lemma configureRPC_flag (s : state) (content url : str) (rest : list str) :
  fileText (configFile s) = Some content -> stdin s = url :: rest -> url <> [] ->
  status (snd (handleConfigureRPC s)) = setRpcConfigured true (status s).
Proof.
  intros Hf Hin Hurl.
  destruct s as [st fee f input out]; simpl in Hin, Hf; subst input.
  unfold handleConfigureRPC. run.
  destruct url as [| c url]; [congruence |]. unfold truthy.
  destruct f as [| text |]; inversion Hf; subst; run;
    (etransitivity; [apply pressEnter_status | reflexivity]).
Qed.

Lemma restart_flags (content : str) (input : list str) :
  let st := status (snd (constructor (boot (Regular content) input))) in
  walletConfigured st = includes content (js "WALLET_PRIVATE_KEY=") /\
  rpcConfigured st = includes content (js "RPC_URL=") /\
  feeSettingsConfigured st =
    includes content (js "MIN_TIP_LAMPORTS=") &&
    includes content (js "TIP_PERCENT=") &&
    includes content (js "FEE_RECIPIENT=").
Proof.
  intros st. unfold st.
  rewrite (constructor_regular content (boot (Regular content) input) eq_refl).
  repeat split.
Qed.

(** X9.  A wallet key or an RPC URL that the menu accepts is saved so that
    the next start of the tool finds it: the operation sets its flag, and a
    new instance made on the file it has written shows the same flag,
    whatever the file held before and whatever the answer was. *)
Theorem saved_settings_survive_restart
        (s : state) (content answer : str) (rest input : list str) :
  fileText (configFile s) = Some content -> stdin s = answer :: rest ->
  let restarted (s' : state) := status (snd (constructor (boot (configFile s') input))) in
  (32 <= length answer ->
   let s' := snd (handleConfigureWallet s) in
   walletConfigured (status s') = true /\ walletConfigured (restarted s') = true) /\
  (answer <> [] ->
   let s' := snd (handleConfigureRPC s) in
   rpcConfigured (status s') = true /\ rpcConfigured (restarted s') = true).
Proof.
  intros Hf Hin restarted. split.
  - intros Hlen s'. unfold restarted, s'.
    rewrite (configureWallet_flag s content answer rest Hf Hin Hlen).
    rewrite (configureWallet_writes s content answer rest Hf Hin Hlen).
    split; [reflexivity |].
    destruct (restart_flags (upsertSetting content (js "WALLET_PRIVATE_KEY=" ++ answer)) input)
      as (-> & _).
    apply includes_spec.
    apply (upsert_occurs content (js "WALLET_PRIVATE_KEY") answer);
      vm_compute; intuition discriminate.
  - intros Hne s'. unfold restarted, s'.
    rewrite (configureRPC_flag s content answer rest Hf Hin Hne).
    rewrite (configureRPC_writes s content answer rest Hf Hin Hne).
    split; [reflexivity |].
    destruct (restart_flags (upsertSetting content (js "RPC_URL=" ++ answer)) input)
      as (_ & -> & _).
    apply includes_spec.
    apply (upsert_occurs content (js "RPC_URL") answer);
      vm_compute; intuition discriminate.
Qed.

Lemma saved_settings_survive_restart_witness :
  let url := js "http://localhost:8899/$&" in
  let s := boot (Regular (js "RPC_URL=http://old")) [url; []] in
  rpcConfigured
    (status (snd (constructor (boot (configFile (snd (handleConfigureRPC s))) [])))) = true.
Proof.
  intros url s.
  refine (proj2 (proj2 (saved_settings_survive_restart s (js "RPC_URL=http://old") url [[]] []
                          _ _) _)); try reflexivity.
  discriminate.
Defined.

(** ** Fee settings that pass validation *)

Lemma pressEnter_stdout (s1 : state) :
  stdout (snd (pressEnterToContinue s1)) = stdout s1 ++ pressEnterLines.
Proof.
  destruct s1 as [st fee f input out]. unfold pressEnterToContinue. run.
  destruct input; run; now rewrite <- app_assoc.
Qed.

Lemma pressEnter_printedSince (s s1 : state) (events : list event) :
  stdout s1 = stdout s ++ events ->
  printedSince s (snd (pressEnterToContinue s1)) = events ++ pressEnterLines.
Proof.
  intros H. apply printedSince_exact. rewrite pressEnter_stdout, H.
  now rewrite <- app_assoc.
Qed.

Lemma sample_amount : mul (ofZ 1) LAMPORTS_PER_SOL = LAMPORTS_PER_SOL.
Proof. vm_compute. reflexivity. Qed.

Section FeesSaved.

Context {E : Engine}.

Lemma configureFees_run (s : state) (content a1 a2 a3 : str) (rest : list str) :
  fileText (configFile s) = Some content ->
  stdin s = a1 :: a2 :: a3 :: rest ->
  let minTip := parseInt (orElse a1 (js "10000")) in
  let percent := parseInt (orElse a2 (js "50")) in
  let recipient := orElse a3 (js "CebN5WGQ4jvEPvsVU4EoHEpgzq1VV7AbicfhtW4xC9iM") in
  intLt minTip 0 = false -> intLt percent 0 || intGt percent 100 = false ->
  (length recipient <? 32) = false ->
  let s' := snd (handleConfigureFees s) in
  feeSettings s' =
    {| minTipLamports := toNumber minTip; tipPercent := toNumber percent;
       feeRecipient := recipient |} /\
  status s' = setFeeSettingsConfigured true (status s) /\
  configFile s' =
    Regular (fold_left upsertSetting
               [ js "MIN_TIP_LAMPORTS=" ++ Number_toString (toNumber minTip);
                 js "TIP_PERCENT=" ++ Number_toString (toNumber percent);
                 js "FEE_RECIPIENT=" ++ recipient ] content) /\
  printedSince s s' =
    [ Log cyan (js "\n=== Configure Fee Settings ===");
      Log gray (js "Configure your MEV bundle fee settings.");
      Ask yellow (js "\nEnter minimum tip in lamports (default: 10000): ");
      Ask yellow (js "Enter tip percentage (default: 50): ");
      Ask yellow (js "Enter fee recipient address (default: CebN5WGQ4jvEPvsVU4EoHEpgzq1VV7AbicfhtW4xC9iM): ") ] ++
    previewLines (calculateTransactionPreview (feeSettings s) LAMPORTS_PER_SOL)
                 (feeSettings s) ++
    [ Log green (js "\n✓ Fee settings configured successfully") ] ++ pressEnterLines.
Proof.
  intros Hf Hin minTip percent recipient H1 H2 H3.
  destruct s as [st fee f input out]; simpl in Hin, Hf; subst input.
  unfold handleConfigureFees, displayFeePreview. run. fold minTip percent recipient.
  rewrite H1, H2, H3. run. rewrite sample_amount.
  destruct f as [| text |]; inversion Hf; subst; run;
    (split; [etransitivity; [apply pressEnter_fees | reflexivity] |];
     split; [etransitivity; [apply pressEnter_status | reflexivity] |];
     split; [etransitivity; [apply pressEnter_file | reflexivity] |];
     etransitivity; [apply pressEnter_printedSince; printed |];
     cbv beta iota delta [app previewLines]; reflexivity).
Qed.

End FeesSaved.

Lemma Math_max_nan (y : number) : Math_max S754_nan y = S754_nan.
Proof. destruct y; reflexivity. Qed.

Lemma add_nan (x : number) : add x S754_nan = S754_nan.
Proof. destruct x as [| [] | |]; reflexivity. Qed.

(** X10.  Configure-fees shows the preview before it takes the new values
    over: when the three answers pass the checks, what is printed between
    the questions and the confirmation is the preview of one SOL under the
    fee settings in force before the change, with the recipient of before;
    the answers do not appear in it.  The new settings are in force
    afterwards and the fee flag is set. *)
Theorem fee_preview_shows_previous_settings
        (E : Engine) (s : state) (content a1 a2 a3 : str) (rest : list str) :
  fileText (configFile s) = Some content ->
  stdin s = a1 :: a2 :: a3 :: rest ->
  let minTip := parseInt (orElse a1 (js "10000")) in
  let percent := parseInt (orElse a2 (js "50")) in
  let recipient := orElse a3 (js "CebN5WGQ4jvEPvsVU4EoHEpgzq1VV7AbicfhtW4xC9iM") in
  intLt minTip 0 = false -> intLt percent 0 || intGt percent 100 = false ->
  32 <= length recipient ->
  let s' := snd (handleConfigureFees s) in
  printedSince s s' =
    [ Log cyan (js "\n=== Configure Fee Settings ===");
      Log gray (js "Configure your MEV bundle fee settings.");
      Ask yellow (js "\nEnter minimum tip in lamports (default: 10000): ");
      Ask yellow (js "Enter tip percentage (default: 50): ");
      Ask yellow (js "Enter fee recipient address (default: CebN5WGQ4jvEPvsVU4EoHEpgzq1VV7AbicfhtW4xC9iM): ") ] ++
    previewLines (calculateTransactionPreview (feeSettings s) LAMPORTS_PER_SOL)
                 (feeSettings s) ++
    [ Log green (js "\n✓ Fee settings configured successfully") ] ++ pressEnterLines /\
  feeSettings s' =
    {| minTipLamports := toNumber minTip; tipPercent := toNumber percent;
       feeRecipient := recipient |} /\
  feeSettingsConfigured (status s') = true.
Proof.
  intros Hf Hin minTip percent recipient H1 H2 H3 s'.
  apply Nat.ltb_ge in H3.
  destruct (configureFees_run s content a1 a2 a3 rest Hf Hin H1 H2 H3)
    as (Hfees & Hstatus & _ & Hprinted).
  split; [exact Hprinted |]. split; [exact Hfees |].
  unfold s'. rewrite Hstatus. reflexivity.
Qed.

Lemma fee_preview_shows_previous_settings_witness :
  let s := boot Missing [js "20000"; js "75"; []; []] in
  let s' := snd (handleConfigureFees (E := plainEngine) s) in
  In (Log white (js "Tip Amount: 0.500000 SOL")) (printedSince s s') /\
  tipPercent (feeSettings s') = ofZ 75.
Proof.
  intros s s'.
  destruct (fee_preview_shows_previous_settings plainEngine s [] (js "20000") (js "75") [] [[]])
    as (Hprinted & Hfees & _); try reflexivity.
  - vm_compute. lia.
  - split.
    + unfold s'. rewrite Hprinted. vm_compute. auto 10.
    + unfold s'. rewrite Hfees. vm_compute. reflexivity.
Defined.

Lemma no_error_lines (events : list event) :
  Forall (fun e => isErrorLine e = false) events -> ~ reportsError events.
Proof.
  intros H (e & Hin & He). rewrite Forall_forall in H.
  rewrite (H e Hin) in He. discriminate He.
Qed.

(** X11.  The checks of configure-fees compare numbers, and a comparison
    with NaN is false: an answer that is not read as a number passes them.
    The minimum tip is then NaN in the settings and is written as [NaN] to
    the file, no error is reported, and from then on every fee preview has
    a tip and a total that are NaN. *)
Theorem non_numeric_tip_is_accepted
        (E : Engine) (s : state) (content a1 a2 a3 : str) (rest : list str) :
  fileText (configFile s) = Some content ->
  stdin s = a1 :: a2 :: a3 :: rest ->
  parseInt (orElse a1 (js "10000")) = NotANumber ->
  let percent := parseInt (orElse a2 (js "50")) in
  let recipient := orElse a3 (js "CebN5WGQ4jvEPvsVU4EoHEpgzq1VV7AbicfhtW4xC9iM") in
  intLt percent 0 || intGt percent 100 = false -> 32 <= length recipient ->
  let s' := snd (handleConfigureFees s) in
  ~ reportsError (printedSince s s') /\
  configFile s' =
    Regular (fold_left upsertSetting
               [ js "MIN_TIP_LAMPORTS=NaN";
                 js "TIP_PERCENT=" ++ Number_toString (toNumber percent);
                 js "FEE_RECIPIENT=" ++ recipient ] content) /\
  forall amount,
    let preview := calculateTransactionPreview (feeSettings s') amount in
    tipAmount preview = S754_nan /\ totalFee preview = S754_nan.
Proof.
  intros Hf Hin Hnan percent recipient H2 H3 s'.
  apply Nat.ltb_ge in H3.
  assert (H1 : intLt (parseInt (orElse a1 (js "10000"))) 0 = false)
    by (rewrite Hnan; reflexivity).
  destruct (configureFees_run s content a1 a2 a3 rest Hf Hin H1 H2 H3)
    as (Hfees & _ & Hfile & Hprinted).
  fold s' in Hfees, Hfile, Hprinted. rewrite Hnan in Hfees, Hfile.
  split; [| split].
  - rewrite Hprinted. apply no_error_lines.
    cbv beta iota delta [previewLines pressEnterLines app].
    repeat (constructor; [reflexivity |]). constructor.
  - exact Hfile.
  - intros amount preview. unfold preview, calculateTransactionPreview.
    rewrite Hfees. cbn [tipAmount totalFee minTipLamports tipPercent toNumber].
    rewrite Math_max_nan. split; [reflexivity | apply add_nan].
Qed.

Lemma non_numeric_tip_is_accepted_witness :
  let s := boot Missing [js "ten thousand"; []; []; []] in
  let s' := snd (handleConfigureFees (E := plainEngine) s) in
  configFile s' =
    Regular (js "\nMIN_TIP_LAMPORTS=NaN\nTIP_PERCENT=50\nFEE_RECIPIENT=CebN5WGQ4jvEPvsVU4EoHEpgzq1VV7AbicfhtW4xC9iM") /\
  tipAmount (calculateTransactionPreview (E := plainEngine) (feeSettings s') LAMPORTS_PER_SOL)
    = S754_nan.
Proof.
  intros s s'.
  destruct (non_numeric_tip_is_accepted plainEngine s [] (js "ten thousand") [] [] [[]])
    as (_ & Hfile & Hnan); try reflexivity.
  - vm_compute. lia.
  - split; [exact Hfile | apply Hnan].
Defined.

(** ** The wallet submenu *)

Lemma showWallet_prints (line : str) (index : nat) (s : state) :
  exists o events, showWallet line index s = (o, printing events s).
Proof.
  unfold showWallet. cbv zeta.
  destruct (nth_error (split "="%char line) 1) as [v |];
    eexists; eexists; unfold bind, logText, modify, throw;
    rewrite ?emit_printing, ?printing_printing; reflexivity.
Qed.

Lemma forEach_prints A (body : A -> nat -> M unit) (xs : list A) :
  (forall x index s, exists o events, body x index s = (o, printing events s)) ->
  forall index s, exists o events, forEach body index xs s = (o, printing events s).
Proof.
  intros Hbody. induction xs as [| x xs IH]; intros index s.
  - exists (Return tt), []. now rewrite printing_nil.
  - destruct (Hbody x index s) as (o1 & e1 & H1). cbn [forEach]. unfold bind. rewrite H1.
    destruct o1 as [[] | e | h].
    + destruct (IH (S index) (printing e1 s)) as (o2 & e2 & H2).
      exists o2, (e1 ++ e2). rewrite H2, printing_printing. reflexivity.
    + exists (Throw e), e1. reflexivity.
    + exists (Halt h), e1. reflexivity.
Qed.

(** View-wallets does nothing but print, however it ends. *)
Lemma viewWallets_prints (s : state) :
  exists o events, viewWallets s = (o, printing events s).
Proof.
  destruct s as [st fee f input out]. unfold viewWallets. run.
  destruct f as [| content |]; run.
  - eexists; eexists. unfold printing. simpl. rewrite <- app_assoc. reflexivity.
  - destruct (length (filter isWalletLine (split LF content)) =? 0).
    + eexists; eexists. unfold printing. simpl. rewrite <- app_assoc. reflexivity.
    + match goal with |- context [forEach showWallet 0 ?xs ?s0] =>
        destruct (forEach_prints _ showWallet xs showWallet_prints 0 s0)
          as (o & events & Hev)
      end.
      eexists; eexists. etransitivity; [exact Hev |]. unfold printing. simpl.
      rewrite <- app_assoc. reflexivity.
  - eexists; eexists. unfold printing. simpl. reflexivity.
Qed.

Lemma int_in_range (j : jsint) (n : nat) :
  intGt j 0 = true -> intLe j (Z.of_nat n) = true ->
  exists k, intValue j = Some k /\ (1 <= k <= Z.of_nat n)%Z.
Proof.
  destruct j as [| neg mag]; [discriminate |].
  unfold intGt, intLe, intValue. intros H1 H2.
  apply Z.ltb_lt in H1. apply Z.leb_le in H2.
  exists (intZ neg mag). split; [reflexivity | lia].
Qed.

Lemma removeWallet_guard (s : state) :
  configFile (snd (removeWallet s)) <> configFile s ->
  exists content answer rest k,
    configFile s = Regular content /\ stdin s = answer :: rest /\
    intValue (parseInt (orElse answer (js "0"))) = Some k /\
    (1 <= k <= Z.of_nat (length (filter isWalletLine (split LF content))))%Z.
Proof.
  unfold removeWallet. unfold bind at 1. unfold log at 1. unfold modify at 1.
  destruct (viewWallets_prints (emit (Log cyan (js "\n=== Remove Wallet ===")) s))
    as (o & events & Hview).
  unfold bind at 1. rewrite Hview.
  destruct s as [st fee f input out].
  destruct o as [[] | e | h]; [| intros H; now destruct H | intros H; now destruct H].
  unfold printing. run.
  destruct input as [| answer rest]; [intros H; now destruct H |].
  destruct (intGt (parseInt (orElse answer (js "0"))) 0) eqn:Hgt;
    [| intros H; now destruct H].
  destruct f as [| content |]; run; try (intros H; now destruct H).
  destruct (intLe (parseInt (orElse answer (js "0")))
              (Z.of_nat (length (filter isWalletLine (split LF content))))) eqn:Hle;
    run; [| intros H; now destruct H].
  intros _. destruct (int_in_range _ _ Hgt Hle) as (k & Hk & Hrange).
  exists content, answer, rest, k. repeat split; trivial; apply Hrange.
Qed.

Lemma setPrimaryWallet_guard (s : state) :
  configFile (snd (setPrimaryWallet s)) <> configFile s ->
  exists content answer rest k,
    configFile s = Regular content /\ stdin s = answer :: rest /\
    intValue (parseInt (orElse answer (js "0"))) = Some k /\
    (1 <= k <= Z.of_nat (length (filter isWalletLine (split LF content))))%Z.
Proof.
  unfold setPrimaryWallet. unfold bind at 1. unfold log at 1. unfold modify at 1.
  destruct (viewWallets_prints (emit (Log cyan (js "\n=== Set Primary Wallet ===")) s))
    as (o & events & Hview).
  unfold bind at 1. rewrite Hview.
  destruct s as [st fee f input out].
  destruct o as [[] | e | h]; [| intros H; now destruct H | intros H; now destruct H].
  unfold printing. run.
  destruct input as [| answer rest]; [intros H; now destruct H |].
  destruct (intGt (parseInt (orElse answer (js "0"))) 0) eqn:Hgt;
    [| intros H; now destruct H].
  destruct f as [| content |]; run; try (intros H; now destruct H).
  destruct (intLe (parseInt (orElse answer (js "0")))
              (Z.of_nat (length (filter isWalletLine (split LF content))))) eqn:Hle;
    run; [| intros H; now destruct H].
  intros _. destruct (int_in_range _ _ Hgt Hle) as (k & Hk & Hrange).
  exists content, answer, rest, k. repeat split; trivial; apply Hrange.
Qed.

Lemma reportsError_last (before : list event) (e : event) :
  isErrorLine e = true -> reportsError (before ++ [e]).
Proof.
  intros He. exists e. split; [| exact He]. apply in_or_app. right. now left.
Qed.

Lemma removeWallet_above (s : state) (content answer : str) (rest : list str) :
  configFile s = Regular content -> stdin s = answer :: rest ->
  let lines := split LF content in
  Forall (fun line => In "="%char line) (filter isWalletLine lines) ->
  intGt (parseInt (orElse answer (js "0"))) 0 = true ->
  intLe (parseInt (orElse answer (js "0")))
        (Z.of_nat (length (filter isWalletLine lines))) = false ->
  exists events e,
    isErrorLine e = true /\
    snd (removeWallet s) = withStdin rest (printing (events ++ [e]) s).
Proof.
  intros Hf Hin lines Hall Hgt Hle.
  destruct (viewWallets_returns (emit (Log cyan (js "\n=== Remove Wallet ===")) s) content)
    as [events Hview]; [exact Hf | exact Hall |].
  exists ([Log cyan (js "\n=== Remove Wallet ===")] ++ events ++
          [Ask yellow (js "\nEnter the number of the wallet to remove: ")]),
         (Log red (js "\n✗ Error removing wallet:" ++ js " " ++ js "Invalid wallet number")).
  split; [reflexivity |].
  unfold removeWallet.
  unfold bind at 1. unfold log at 1. unfold modify at 1.
  rewrite (bind_return _ _ _ _ _ Hview).
  rewrite (bind_return _ _ _ _ _
             (prompt_run yellow "\nEnter the number of the wallet to remove: "
                (printing events (emit (Log cyan (js "\n=== Remove Wallet ===")) s))
                answer rest Hin)).
  cbv zeta. rewrite Hgt.
  destruct s as [st fee f input out]. simpl in Hf. subst f.
  unfold printing. run.
  fold lines. rewrite Hle. run.
  unfold withStdin. cbn [status feeSettings configFile stdin stdout].
  f_equal. now rewrite <- !app_assoc.
Qed.

Lemma setPrimaryWallet_above (s : state) (content answer : str) (rest : list str) :
  configFile s = Regular content -> stdin s = answer :: rest ->
  let lines := split LF content in
  Forall (fun line => In "="%char line) (filter isWalletLine lines) ->
  intGt (parseInt (orElse answer (js "0"))) 0 = true ->
  intLe (parseInt (orElse answer (js "0")))
        (Z.of_nat (length (filter isWalletLine lines))) = false ->
  exists events e,
    isErrorLine e = true /\
    snd (setPrimaryWallet s) = withStdin rest (printing (events ++ [e]) s).
Proof.
  intros Hf Hin lines Hall Hgt Hle.
  destruct (viewWallets_returns (emit (Log cyan (js "\n=== Set Primary Wallet ===")) s) content)
    as [events Hview]; [exact Hf | exact Hall |].
  exists ([Log cyan (js "\n=== Set Primary Wallet ===")] ++ events ++
          [Ask yellow (js "\nEnter the number of the wallet to set as primary: ")]),
         (Log red (js "\n✗ Error setting primary wallet:" ++ js " " ++ js "Invalid wallet number")).
  split; [reflexivity |].
  unfold setPrimaryWallet.
  unfold bind at 1. unfold log at 1. unfold modify at 1.
  rewrite (bind_return _ _ _ _ _ Hview).
  rewrite (bind_return _ _ _ _ _
             (prompt_run yellow "\nEnter the number of the wallet to set as primary: "
                (printing events (emit (Log cyan (js "\n=== Set Primary Wallet ===")) s))
                answer rest Hin)).
  cbv zeta. rewrite Hgt.
  destruct s as [st fee f input out]. simpl in Hf. subst f.
  unfold printing. run.
  fold lines. rewrite Hle. run.
  unfold withStdin. cbn [status feeSettings configFile stdin stdout].
  f_equal. now rewrite <- !app_assoc.
Qed.

(** X12.  Remove-wallet and set-primary-wallet change the file only for a
    number of the listing: if either leaves a file other than the one it
    found, the answer was read as an integer between 1 and the number of
    the lines that begin with [WALLET_].  No answer, a text, zero, a
    negative or too large a number, a missing file: the file stays as it
    is. *)
Theorem wallets_changed_only_by_listed_number (s : state) :
  let listed content answer :=
    exists k, intValue (parseInt (orElse answer (js "0"))) = Some k /\
              (1 <= k <= Z.of_nat (length (filter isWalletLine (split LF content))))%Z in
  (configFile (snd (removeWallet s)) <> configFile s ->
   exists content answer rest,
     configFile s = Regular content /\ stdin s = answer :: rest /\ listed content answer) /\
  (configFile (snd (setPrimaryWallet s)) <> configFile s ->
   exists content answer rest,
     configFile s = Regular content /\ stdin s = answer :: rest /\ listed content answer).
Proof.
  intros listed. split; intros H.
  - destruct (removeWallet_guard s H) as (content & answer & rest & k & Hf & Hin & Hk & Hr).
    exists content, answer, rest. repeat split; trivial. now exists k.
  - destruct (setPrimaryWallet_guard s H) as (content & answer & rest & k & Hf & Hin & Hk & Hr).
    exists content, answer, rest. repeat split; trivial. now exists k.
Qed.

Lemma wallets_changed_only_by_listed_number_witness :
  let content := js "WALLET_1_PRIVATE_KEY=abc\nRPC_URL=http://localhost:8899" in
  let s := boot (Regular content) [js "1"] in
  exists content' answer rest,
    configFile s = Regular content' /\ stdin s = answer :: rest /\
    exists k, intValue (parseInt (orElse answer (js "0"))) = Some k /\
              (1 <= k <= Z.of_nat (length (filter isWalletLine (split LF content'))))%Z.
Proof.
  intros content s.
  apply (proj1 (wallets_changed_only_by_listed_number s)).
  vm_compute. discriminate.
Defined.

(** X13.  A wallet number above the number of wallets listed is an error
    for remove-wallet and for set-primary-wallet alike: it is reported, and
    the file and the flags stay as they were. *)
Theorem wallet_number_above_listing_is_reported
        (s : state) (content answer : str) (rest : list str) (k : Z) :
  configFile s = Regular content -> stdin s = answer :: rest ->
  let wallets := filter isWalletLine (split LF content) in
  Forall (fun line => In "="%char line) wallets ->
  intValue (parseInt (orElse answer (js "0"))) = Some k ->
  (Z.of_nat (length wallets) < k)%Z ->
  (let s' := snd (removeWallet s) in
   configFile s' = configFile s /\ status s' = status s /\
   reportsError (printedSince s s')) /\
  (let s' := snd (setPrimaryWallet s) in
   configFile s' = configFile s /\ status s' = status s /\
   reportsError (printedSince s s')).
Proof.
  intros Hf Hin wallets Hall Hk Hlarge.
  assert (Hgt : intGt (parseInt (orElse answer (js "0"))) 0 = true).
  { destruct (parseInt (orElse answer (js "0"))) as [| neg mag]; [discriminate Hk |].
    injection Hk as <-. unfold intGt. apply Z.ltb_lt. lia. }
  assert (Hle : intLe (parseInt (orElse answer (js "0")))
                  (Z.of_nat (length wallets)) = false).
  { destruct (parseInt (orElse answer (js "0"))) as [| neg mag]; [discriminate Hk |].
    injection Hk as <-. unfold intLe. apply Z.leb_gt. lia. }
  split.
  - destruct (removeWallet_above s content answer rest Hf Hin Hall Hgt Hle)
      as (events & e & He & Hs).
    cbv zeta. rewrite Hs. split; [reflexivity |]. split; [reflexivity |].
    rewrite (printedSince_exact s (withStdin rest (printing (events ++ [e]) s))
               (events ++ [e]) eq_refl).
    now apply reportsError_last.
  - destruct (setPrimaryWallet_above s content answer rest Hf Hin Hall Hgt Hle)
      as (events & e & He & Hs).
    cbv zeta. rewrite Hs. split; [reflexivity |]. split; [reflexivity |].
    rewrite (printedSince_exact s (withStdin rest (printing (events ++ [e]) s))
               (events ++ [e]) eq_refl).
    now apply reportsError_last.
Qed.

Lemma wallet_number_above_listing_is_reported_witness :
  let content := js "WALLET_1_PRIVATE_KEY=abc\nRPC_URL=http://localhost:8899" in
  let s := boot (Regular content) [js "2"] in
  configFile (snd (removeWallet s)) = Regular content /\
  reportsError (printedSince s (snd (removeWallet s))).
Proof.
  intros content s.
  destruct (wallet_number_above_listing_is_reported s content (js "2") [] 2%Z)
    as ((Hfile & _ & Herr) & _); try reflexivity.
  - vm_compute. constructor; [| constructor].
    repeat (first [left; reflexivity | right]).
  - split; [exact Hfile | exact Herr].
Defined.

Lemma differs_remove (w : str) (lines : list str) :
  filter (differs (Some w)) lines = remove str_eq_dec w lines.
Proof.
  induction lines as [| l lines IH]; [reflexivity |]. cbn [filter remove].
  destruct (str_eq_dec w l) as [<- | Hne].
  - assert (H : differs (Some w) w = false) by (unfold differs; now rewrite streq_refl).
    now rewrite H.
  - assert (H : differs (Some w) l = true) by (apply differs_spec; congruence).
    rewrite H. now f_equal.
Qed.

Lemma remove_keeps_others (w : str) (lines : list str) (keep : str -> bool) :
  keep w = false ->
  filter keep (remove str_eq_dec w lines) = filter keep lines.
Proof.
  intros Hw. induction lines as [| l lines IH]; [reflexivity |]. cbn [remove].
  destruct (str_eq_dec w l) as [<- | Hne]; cbn [filter].
  - now rewrite Hw.
  - now rewrite IH.
Qed.

Lemma atMinusOne_succ {A} (xs : list A) (k : nat) :
  atMinusOne xs (Int false (N.of_nat (S k))) = nth_error xs k.
Proof.
  unfold atMinusOne. change (N.of_nat (S k)) with (Npos (Pos.of_succ_nat k)).
  cbv beta iota. rewrite SuccNat2Pos.id_succ.
  now replace (S k - 1) with k by lia.
Qed.

Lemma removeWallet_returns (s : state) (content answer : str) (rest : list str)
      (k : nat) (w : str) :
  configFile s = Regular content -> stdin s = answer :: rest ->
  parseInt (orElse answer (js "0")) = Int false (N.of_nat (S k)) ->
  let lines := split LF content in
  Forall (fun line => In "="%char line) (filter isWalletLine lines) ->
  nth_error (filter isWalletLine lines) k = Some w ->
  exists s',
    removeWallet s = (Return tt, s') /\
    configFile s' = Regular (join (js "\n") (remove str_eq_dec w lines)) /\
    stdin s' = rest /\ status s' = status s.
Proof.
  intros Hf Hin Hparse lines Hall Hnth.
  assert (Hgt : intGt (Int false (N.of_nat (S k))) 0 = true).
  { unfold intGt, intZ. apply Z.ltb_lt. lia. }
  assert (Hle : intLe (Int false (N.of_nat (S k)))
                  (Z.of_nat (length (filter isWalletLine lines))) = true).
  { unfold intLe, intZ. apply Z.leb_le.
    assert (k < length (filter isWalletLine lines)) by (apply nth_error_Some; congruence).
    lia. }
  destruct (viewWallets_returns (emit (Log cyan (js "\n=== Remove Wallet ===")) s) content)
    as [events Hview]; [exact Hf | exact Hall |].
  unfold removeWallet.
  unfold bind at 1. unfold log at 1. unfold modify at 1.
  rewrite (bind_return _ _ _ _ _ Hview).
  rewrite (bind_return _ _ _ _ _
             (prompt_run yellow "\nEnter the number of the wallet to remove: "
                (printing events (emit (Log cyan (js "\n=== Remove Wallet ===")) s))
                answer rest Hin)).
  cbv zeta. rewrite Hparse, Hgt.
  destruct s as [st fee f input out]. simpl in Hf. subst f.
  unfold printing. run.
  fold lines. rewrite Hle. run.
  rewrite atMinusOne_succ, Hnth, differs_remove.
  eexists. split; [reflexivity |]. repeat split.
Qed.

(** X14.  Remove-wallet removes by text: with the number of a listed
    wallet it writes the file without the lines equal to the line of that
    wallet, all of them, and with every other line in its place.  A line
    that does not begin with [WALLET_] is never removed. *)
Theorem removeWallet_removes_equal_lines
        (s : state) (content answer : str) (rest : list str) (k : nat) (w : str) :
  configFile s = Regular content -> stdin s = answer :: rest ->
  parseInt (orElse answer (js "0")) = Int false (N.of_nat (S k)) ->
  let lines := split LF content in
  Forall (fun line => In "="%char line) (filter isWalletLine lines) ->
  nth_error (filter isWalletLine lines) k = Some w ->
  let kept := remove str_eq_dec w lines in
  configFile (snd (removeWallet s)) = Regular (join (js "\n") kept) /\
  filter (fun line => negb (isWalletLine line)) kept =
  filter (fun line => negb (isWalletLine line)) lines /\
  length kept < length lines.
Proof.
  intros Hf Hin Hparse lines Hall Hnth kept.
  destruct (removeWallet_returns s content answer rest k w Hf Hin Hparse Hall Hnth)
    as (s' & Hrun & Hfile & _).
  rewrite Hrun. split; [exact Hfile |].
  assert (Hw : In w (filter isWalletLine lines)) by (eapply nth_error_In; eauto).
  apply filter_In in Hw. destruct Hw as [Hw1 Hw2].
  split.
  - apply remove_keeps_others. now rewrite Hw2.
  - apply remove_length_lt. exact Hw1.
Qed.

Lemma removeWallet_removes_equal_lines_witness :
  let content := js "RPC_URL=u\nWALLET_1_PRIVATE_KEY=a\nNOTE\nWALLET_1_PRIVATE_KEY=a" in
  let s := boot (Regular content) [js "2"] in
  configFile (snd (removeWallet s)) = Regular (js "RPC_URL=u\nNOTE").
Proof.
  intros content s.
  refine (proj1 (removeWallet_removes_equal_lines s content (js "2") [] 1
                   (js "WALLET_1_PRIVATE_KEY=a") _ _ _ _ _)); try reflexivity.
  vm_compute. repeat (constructor; [repeat (first [left; reflexivity | right]) |]).
  constructor.
Defined.

(** ** Numbers typed as they are shown *)

Lemma parseDigits_uint (u : Decimal.uint) (acc : N) :
  parseDigits 10 (Some acc) (list_ascii_of_string (NilEmpty.string_of_uint u)) =
  Some (N.of_nat (Nat.of_uint_acc u (N.to_nat acc))).
Proof.
  revert acc.
  induction u as [| u IH | u IH | u IH | u IH | u IH | u IH | u IH | u IH | u IH | u IH];
    intros acc;
    [simpl; now rewrite N2Nat.id | ..];
    cbn [NilEmpty.string_of_uint list_ascii_of_string parseDigits];
    match goal with |- context [digitValue 10 ?c] =>
      let v := eval vm_compute in (digitValue 10 c) in
      change (digitValue 10 c) with v
    end;
    cbv iota beta; rewrite IH; cbn [Nat.of_uint_acc];
    rewrite Nat.tail_mul_spec; do 3 f_equal; lia.
Qed.

Lemma parseDigits_first (c : ascii) (s : str) :
  isDigit c = true ->
  parseDigits 10 None (c :: s) = parseDigits 10 (Some 0%N) (c :: s).
Proof.
  intros H. cbn [parseDigits].
  destruct (digitValue 10 c) eqn:Hd; [reflexivity |].
  destruct c as [[] [] [] [] [] [] [] []]; vm_compute in H; try discriminate H;
    vm_compute in Hd; discriminate Hd.
Qed.

(** [parseInt] on a text of decimal digits reads all of them. *)
Lemma parseInt_digits (c : ascii) (s : str) :
  isDigit c = true -> Forall (fun d => isDigit d = true) s ->
  parseInt (c :: s) =
  match parseDigits 10 (Some 0%N) (c :: s) with
  | Some n => Int false n
  | None => NotANumber
  end.
Proof.
  intros Hc Hs. rewrite <- (parseDigits_first c s Hc). unfold parseInt.
  destruct c as [[] [] [] [] [] [] [] []]; vm_compute in Hc; try discriminate Hc;
    try reflexivity.
  destruct s as [| d s]; [reflexivity |].
  inversion Hs as [| ? ? Hd _]; subst.
  destruct d as [[] [] [] [] [] [] [] []]; vm_compute in Hd; try discriminate Hd;
    reflexivity.
Qed.

Lemma decimal_nonempty (n : nat) : decimal n <> [].
Proof. unfold decimal. destruct (Nat.to_uint n); discriminate. Qed.

Lemma parseInt_decimal (n : nat) : parseInt (decimal n) = Int false (N.of_nat n).
Proof.
  pose proof (decimal_digits n) as Hd. pose proof (decimal_nonempty n) as Hne.
  assert (Hval : parseDigits 10 (Some 0%N) (decimal n) = Some (N.of_nat n)).
  { unfold decimal, NilZero.string_of_uint.
    pose proof (DecimalNat.Unsigned.of_to n) as Hn. unfold Nat.of_uint in Hn.
    destruct (Nat.to_uint n) eqn:Hu;
      try (rewrite parseDigits_uint; change (N.to_nat 0) with 0; now rewrite Hn).
    simpl in Hn. subst n. reflexivity. }
  destruct (decimal n) as [| c s] eqn:Hdec; [congruence |].
  inversion Hd; subst. rewrite parseInt_digits by assumption. now rewrite Hval.
Qed.

Lemma join_split (s : str) : join (js "\n") (split LF s) = s.
Proof.
  induction s as [| c s IH]; [reflexivity |]. cbn [split].
  pose proof (split_nonempty LF s) as Hne.
  destruct (Ascii.eqb_spec c LF) as [-> | Hc].
  - destruct (split LF s) as [| l ls]; [congruence |].
    cbn [join app]. cbn [join] in IH. now rewrite IH.
  - destruct (split LF s) as [| l ls]; [congruence |].
    cbn [join] in *. destruct ls; cbn [app]; now rewrite <- IH.
Qed.

Lemma addWallet_returns (s : state) (content key : str) (rest : list str) :
  fileText (configFile s) = Some content ->
  stdin s = key :: rest -> 32 <= length key ->
  exists s',
    addWallet s = (Return tt, s') /\
    configFile s' =
      Regular (content ++ js "\n" ++
               (js "WALLET_" ++ decimal (matchCount content numberedWalletKey + 1) ++
                js "_PRIVATE_KEY") ++ js "=" ++ key) /\
    stdin s' = rest /\ status s' = status s.
Proof.
  intros Hf Hin Hlen.
  assert (Hnot : (length key <? 32) = false) by (apply Nat.ltb_ge; exact Hlen).
  destruct s as [st fee f input out]; simpl in Hin, Hf; subst input.
  unfold addWallet. run.
  destruct key as [| c key]; [simpl in Hlen; lia |]. unfold truthy.
  rewrite Hnot.
  destruct f as [| text |]; inversion Hf; subst; run;
    (eexists; split; [reflexivity | repeat split]).
Qed.

Lemma occursIn_suffix (n a b : str) : occursIn n b -> occursIn n (a ++ b).
Proof.
  intros (pre & post & ->). exists (a ++ pre), post. now rewrite <- app_assoc.
Qed.

Lemma occursIn_refl (n : str) : occursIn n n.
Proof. exists [], []. now rewrite app_nil_r. Qed.

(** X15.  Adding a wallet and then removing it gives back the text of the
    file: the new wallet is the last of the listing, and when its number,
    as the listing shows it, is typed to remove-wallet, the added line is
    the only line removed.  This holds when the key was not in the file
    before. *)
Theorem add_then_remove_restores_file
        (s : state) (content key answer : str) (rest : list str) :
  fileText (configFile s) = Some content ->
  stdin s = key :: answer :: rest ->
  32 <= length key -> ~ In LF key -> ~ occursIn key content ->
  let wallets := filter isWalletLine (split LF content) in
  Forall (fun line => In "="%char line) wallets ->
  answer = decimal (length wallets + 1) ->
  configFile (snd ((addWallet ;; removeWallet) s)) = Regular content.
Proof.
  intros Hf Hin Hlen Hlf Hfresh wallets Hall Hanswer.
  assert (Hparse : parseInt (orElse answer (js "0")) =
                   Int false (N.of_nat (S (length wallets)))).
  { subst answer. rewrite orElse_nonempty by apply decimal_nonempty.
    rewrite parseInt_decimal. now rewrite Nat.add_1_r. }
  destruct (addWallet_returns s content key (answer :: rest) Hf Hin Hlen)
    as (s1 & Hadd & Hfile1 & Hin1 & _).
  set (name := js "WALLET_" ++ decimal (matchCount content numberedWalletKey + 1) ++
               js "_PRIVATE_KEY") in *.
  set (line := name ++ js "=" ++ key) in *.
  assert (Hline_lf : ~ In LF line).
  { unfold line, name. intros H.
    repeat (apply in_app_or in H; destruct H as [H | H]);
      try (simpl in H; repeat (destruct H as [H | H]; [discriminate H |]); exact H).
    - pose proof (decimal_digits (matchCount content numberedWalletKey + 1)) as Hd.
      rewrite Forall_forall in Hd. specialize (Hd _ H). discriminate Hd.
    - contradiction. }
  assert (Hlines : split LF (content ++ js "\n" ++ line) = split LF content ++ [line])
    by now apply split_lines_snoc.
  assert (Hwallet : isWalletLine line = true) by reflexivity.
  assert (Habsent : ~ In line (split LF content)).
  { intros H. apply In_split_occurs in H. apply Hfresh.
    apply (occursIn_trans key line content); [| exact H].
    unfold line. rewrite app_assoc. apply occursIn_suffix, occursIn_refl. }
  destruct (removeWallet_returns s1 (content ++ js "\n" ++ line) answer rest
              (length wallets) line Hfile1 Hin1 Hparse) as (s2 & Hrem & Hfile2 & _).
  - rewrite Hlines, filter_app. cbn [filter]. rewrite Hwallet.
    apply Forall_app. split; [exact Hall |]. constructor; [| constructor].
    unfold line. apply in_or_app. right. now left.
  - rewrite Hlines, filter_app. cbn [filter]. rewrite Hwallet.
    fold wallets. rewrite nth_error_app2, Nat.sub_diag; [reflexivity | lia].
  - unfold bind. rewrite Hadd, Hrem. cbn [snd]. rewrite Hfile2, Hlines.
    rewrite remove_app. cbn [remove].
    destruct (str_eq_dec line line) as [_ | Hne]; [| congruence].
    rewrite app_nil_r, notin_remove by exact Habsent.
    now rewrite join_split.
Qed.

Lemma add_then_remove_restores_file_witness :
  let content := js "WALLET_PRIVATE_KEY=abc\nRPC_URL=http://localhost:8899" in
  let key := js "4f3edf983ac636a65a842ce7c78d9aa706d3b113bce9c46f30d7d21715b23b1d" in
  configFile (snd ((addWallet ;; removeWallet) (boot (Regular content) [key; js "2"]))) =
  Regular content.
Proof.
  intros content key.
  apply (add_then_remove_restores_file (boot (Regular content) [key; js "2"])
           content key (js "2") []); try reflexivity.
  - vm_compute. lia.
  - vm_compute. intuition discriminate.
  - apply includes_false. vm_compute. reflexivity.
  - vm_compute. constructor; [| constructor].
    repeat (first [left; reflexivity | right]).
Defined.





(** ** A configuration path that cannot be read or written *)

Ltac last_printed_is_error :=
  eapply pressEnter_reports;
  [ printed | repeat (apply in_or_app; right); left; reflexivity | reflexivity ].

Lemma directory_configureWallet (s : state) (answer : str) (rest : list str) :
  configFile s = Directory -> stdin s = answer :: rest ->
  let s' := snd (handleConfigureWallet s) in
  configFile s' = Directory /\ status s' = status s /\
  reportsError (printedSince s s').
Proof.
  intros Hf Hin.
  destruct s as [st fee f input out]; simpl in Hin, Hf; subst input f.
  unfold handleConfigureWallet. run.
  destruct answer as [| c key]; [| unfold truthy; destruct (length (c :: key) <? 32)]; run;
    (split; [etransitivity; [apply pressEnter_file | reflexivity] |];
     split; [etransitivity; [apply pressEnter_status | reflexivity] |];
     last_printed_is_error).
Qed.

Lemma directory_configureRPC (s : state) (answer : str) (rest : list str) :
  configFile s = Directory -> stdin s = answer :: rest ->
  let s' := snd (handleConfigureRPC s) in
  configFile s' = Directory /\ status s' = status s /\
  reportsError (printedSince s s').
Proof.
  intros Hf Hin.
  destruct s as [st fee f input out]; simpl in Hin, Hf; subst input f.
  unfold handleConfigureRPC. run.
  destruct answer as [| c url]; [| unfold truthy]; run;
    (split; [etransitivity; [apply pressEnter_file | reflexivity] |];
     split; [etransitivity; [apply pressEnter_status | reflexivity] |];
     last_printed_is_error).
Qed.

Lemma directory_addWallet (s : state) (answer : str) (rest : list str) :
  configFile s = Directory -> stdin s = answer :: rest -> answer <> [] ->
  let s' := snd (addWallet s) in
  configFile s' = Directory /\ status s' = status s /\
  reportsError (printedSince s s').
Proof.
  intros Hf Hin Hne.
  destruct s as [st fee f input out]; simpl in Hin, Hf; subst input f.
  unfold addWallet. run.
  destruct answer as [| c key]; [congruence |]. unfold truthy.
  destruct (length (c :: key) <? 32); run;
    (split; [reflexivity |]; split; [reflexivity |];
     unfold printedSince; cbn [stdout];
     rewrite <- !app_assoc, skipn_app, Nat.sub_diag, skipn_all; cbn [skipn];
     change (@nil event ++ ?l) with l; rewrite !app_assoc;
     apply reportsError_last; reflexivity).
Qed.

Section DirectoryFees.

Context {E : Engine}.

Lemma directory_configureFees (s : state) (a1 a2 a3 : str) (rest : list str) :
  configFile s = Directory -> stdin s = a1 :: a2 :: a3 :: rest ->
  let s' := snd (handleConfigureFees s) in
  configFile s' = Directory /\ status s' = status s /\
  feeSettings s' = feeSettings s /\
  reportsError (printedSince s s').
Proof.
  intros Hf Hin.
  destruct s as [st fee f input out]; simpl in Hin, Hf; subst input f.
  unfold handleConfigureFees, displayFeePreview. run.
  destruct (intLt (parseInt (orElse a1 (js "10000"))) 0); run;
    [| destruct (intLt (parseInt (orElse a2 (js "50"))) 0 ||
                 intGt (parseInt (orElse a2 (js "50"))) 100); run;
       [| destruct (length (orElse a3 (js "CebN5WGQ4jvEPvsVU4EoHEpgzq1VV7AbicfhtW4xC9iM"))
                   <? 32); run]];
    (split; [etransitivity; [apply pressEnter_file | reflexivity] |];
     split; [etransitivity; [apply pressEnter_status | reflexivity] |];
     split; [etransitivity; [apply pressEnter_fees | reflexivity] |];
     last_printed_is_error).
Qed.

End DirectoryFees.

(** X17.  When the configuration path cannot be read or written as a file
    (it is a directory), the operations that save a setting catch the
    failure: configure-wallet, configure-RPC, configure-fees and add-wallet
    report an error, whatever the answers, and leave the flags and the fee
    settings as they were. *)
Theorem saving_on_unwritable_path_is_reported
        (E : Engine) (s : state) (a1 a2 a3 : str) (rest : list str) :
  configFile s = Directory -> stdin s = a1 :: a2 :: a3 :: rest ->
  (let s' := snd (handleConfigureWallet s) in
   status s' = status s /\ reportsError (printedSince s s')) /\
  (let s' := snd (handleConfigureRPC s) in
   status s' = status s /\ reportsError (printedSince s s')) /\
  (let s' := snd (handleConfigureFees s) in
   status s' = status s /\ feeSettings s' = feeSettings s /\
   reportsError (printedSince s s')) /\
  (a1 <> [] ->
   let s' := snd (addWallet s) in
   status s' = status s /\ reportsError (printedSince s s')).
Proof.
  intros Hf Hin.
  split; [| split; [| split]].
  - now destruct (directory_configureWallet s a1 (a2 :: a3 :: rest) Hf Hin) as (_ & H1 & H2).
  - now destruct (directory_configureRPC s a1 (a2 :: a3 :: rest) Hf Hin) as (_ & H1 & H2).
  - now destruct (directory_configureFees s a1 a2 a3 rest Hf Hin) as (_ & H1 & H2 & H3).
  - intros Hne.
    now destruct (directory_addWallet s a1 (a2 :: a3 :: rest) Hf Hin Hne) as (_ & H1 & H2).
Qed.

Lemma saving_on_unwritable_path_is_reported_witness :
  let s := {| status := initialStatus; feeSettings := defaultFeeSettings;
              configFile := Directory;
              stdin := [js "http://localhost:8899"; []; []];
              stdout := [] |} in
  reportsError (printedSince s (snd (handleConfigureRPC s))).
Proof.
  intros s.
  refine (proj2 (proj1 (proj2 (saving_on_unwritable_path_is_reported plainEngine s
                                 (js "http://localhost:8899") [] [] [] _ _))));
    reflexivity.
Defined.

(** ** The tip and the minimum tip *)

Lemma SFcompare_swap (x y : number) :
  SFcompare y x = option_map CompOpp (SFcompare x y).
Proof.
  destruct x as [sx | sx | | sx mx ex], y as [sy | sy | | sy my ey];
    try reflexivity; try (destruct sx; reflexivity); try (destruct sy; reflexivity);
    try (destruct sx, sy; reflexivity).
  cbn [SFcompare option_map].
  change (PosDef.Pos.compare_cont Eq mx my) with (Pos.compare mx my).
  change (PosDef.Pos.compare_cont Eq my mx) with (Pos.compare my mx).
  rewrite (Z.compare_antisym ex ey), (Pos.compare_antisym mx my).
  destruct sx, sy; try reflexivity;
    destruct (ex ?= ey)%Z; try reflexivity;
    destruct (mx ?= my)%positive; reflexivity.
Qed.

Lemma SFcompare_refl (x : number) : x <> S754_nan -> SFcompare x x = Some Eq.
Proof.
  destruct x as [s | s | | s m e]; intros H; try congruence;
    [reflexivity | destruct s; reflexivity |].
  cbn [SFcompare].
  change (PosDef.Pos.compare_cont Eq m m) with (Pos.compare m m).
  rewrite Z.compare_refl, Pos.compare_refl. destruct s; reflexivity.
Qed.

Lemma SFcompare_nan (x y : number) :
  SFcompare x y = None <-> x = S754_nan \/ y = S754_nan.
Proof.
  destruct x as [sx | sx | | sx mx ex], y as [sy | sy | | sy my ey]; simpl;
    split; intros H; try discriminate H; auto;
    destruct H as [H | H]; discriminate H.
Qed.

(** [Math.max] of two numbers is one of them, and neither is above it. *)
Lemma Math_max_spec (x y : number) :
  x <> S754_nan -> y <> S754_nan ->
  let m := Math_max x y in
  (m = x \/ m = y) /\ le x m = true /\ le y m = true.
Proof.
  intros Hx Hy m. unfold m, Math_max, le, SFleb.
  pose proof (SFcompare_swap x y) as Hswap.
  pose proof (SFcompare_refl x Hx) as Hxx. pose proof (SFcompare_refl y Hy) as Hyy.
  destruct (SFcompare x y) as [[| |] |] eqn:Hc; cbn [option_map CompOpp] in Hswap.
  - destruct x as [[] | | |]; rewrite ?Hxx, ?Hyy, ?Hswap, ?Hc; auto.
  - rewrite Hyy, Hc. auto.
  - rewrite Hxx, Hswap. auto.
  - apply SFcompare_nan in Hc. tauto.
Qed.

(** X18.  The tip of a preview is the larger of the minimum tip and the
    rounded-down share of the amount: it is one of the two, and neither is
    above it, so no preview has a tip below the minimum tip.  The only
    exception is a tip that is not a number, which happens exactly when
    the minimum tip or the share is not a number. *)
Theorem tip_is_never_below_minimum (E : Engine) (this : FeeSettings) (amount : number) :
  let share := Math_floor (mul amount (div (tipPercent this) (ofZ 100))) in
  let tip := tipAmount (calculateTransactionPreview this amount) in
  (tip = S754_nan <-> minTipLamports this = S754_nan \/ share = S754_nan) /\
  (tip <> S754_nan ->
   (tip = minTipLamports this \/ tip = share) /\
   le (minTipLamports this) tip = true /\ le share tip = true).
Proof.
  intros share tip.
  assert (Htip : tip = Math_max (minTipLamports this) share) by reflexivity.
  split.
  - rewrite Htip. unfold Math_max. rewrite <- SFcompare_nan.
    destruct (SFcompare (minTipLamports this) share) as [[| |] |] eqn:Hc.
    + assert (Hn : ~ (minTipLamports this = S754_nan \/ share = S754_nan))
        by (rewrite <- SFcompare_nan; congruence).
      split; [| discriminate]. intros H. exfalso. apply Hn.
      destruct (minTipLamports this) as [[] | | |]; auto; discriminate H.
    + assert (Hn : ~ (minTipLamports this = S754_nan \/ share = S754_nan))
        by (rewrite <- SFcompare_nan; congruence).
      split; [| discriminate]. intros H. exfalso. apply Hn. auto.
    + assert (Hn : ~ (minTipLamports this = S754_nan \/ share = S754_nan))
        by (rewrite <- SFcompare_nan; congruence).
      split; [| discriminate]. intros H. exfalso. apply Hn. auto.
    + split; reflexivity.
  - intros Hnum. rewrite Htip in *.
    destruct (SFcompare (minTipLamports this) share) eqn:Hc.
    + assert (Hn : ~ (minTipLamports this = S754_nan \/ share = S754_nan))
        by (rewrite <- SFcompare_nan; congruence).
      apply Math_max_spec; intros H; apply Hn; auto.
    + exfalso. apply Hnum. unfold Math_max. now rewrite Hc.
Qed.

Lemma tip_is_never_below_minimum_witness :
  let tip := tipAmount (calculateTransactionPreview (E := plainEngine)
                          defaultFeeSettings (ofZ 1000)) in
  tip = ofZ 10000 /\ le (ofZ 10000) tip = true.
Proof.
  intros tip.
  destruct (proj2 (tip_is_never_below_minimum plainEngine defaultFeeSettings (ofZ 1000)))
    as (_ & Hmin & _).
  - vm_compute. discriminate.
  - split; [vm_compute; reflexivity | exact Hmin].
Defined.

(** ** Fee settings saved for the first time *)

Lemma startsWith_before_sep (a b n : str) (c : ascii) :
  ~ In c n -> startsWith (a ++ c :: b) n = true -> startsWith a n = true.
Proof.
  revert a. induction n as [| d n IH]; intros a Hc H; [reflexivity |].
  destruct a as [| e a]; cbn [app startsWith] in *.
  - apply andb_true_iff in H. destruct H as [H _]. apply Ascii.eqb_eq in H.
    subst d. destruct Hc. now left.
  - apply andb_true_iff in H. destruct H as [H1 H2]. rewrite H1. cbn [andb].
    apply IH; [| exact H2]. intros Hin. apply Hc. now right.
Qed.

(** A text without the separator occurs on one side of it. *)
Lemma occursIn_app_sep (n a b : str) (c : ascii) :
  ~ In c n -> occursIn n (a ++ c :: b) -> occursIn n a \/ occursIn n b.
Proof.
  intros Hc H. apply includes_spec in H. rewrite <- !includes_spec.
  induction a as [| e a IH]; cbn [app] in H.
  - rewrite includes_cons in H. apply orb_true_iff in H. destruct H as [H | H]; [| now right].
    right. destruct n as [| d n]; [destruct b; reflexivity |].
    cbn [startsWith] in H. apply andb_true_iff in H. destruct H as [H _].
    apply Ascii.eqb_eq in H. subst d. destruct Hc. now left.
  - rewrite includes_cons in H. apply orb_true_iff in H. destruct H as [H | H].
    + left. rewrite includes_cons. apply orb_true_iff. left.
      exact (startsWith_before_sep (e :: a) b n c Hc H).
    + destruct (IH H) as [H' | H']; [| now right].
      left. rewrite includes_cons. apply orb_true_iff. now right.
Qed.

(** A text that ends with a character the value does not hold occurs in a
    line only inside what stands before the value. *)
Lemma occursIn_before_value (k p v : str) (c : ascii) :
  ~ In c v -> occursIn (k ++ [c]) (p ++ v) -> occursIn (k ++ [c]) p.
Proof.
  intros Hc (pre & post & H).
  rewrite app_assoc in H. symmetry in H. apply app_eq_app in H.
  destruct H as [l [[H1 H2] | [H1 H2]]].
  - destruct l as [| e l] using rev_ind.
    + rewrite app_nil_r in H1. exists pre, []. now rewrite app_nil_r.
    + clear IHl. rewrite !app_assoc in H1. apply app_inj_tail in H1.
      destruct H1 as [_ <-]. destruct Hc. rewrite H2.
      apply in_or_app. left. apply in_or_app. right. now left.
  - exists pre, l. now rewrite app_assoc.
Qed.

Lemma decimalN_digits (n : N) : Forall (fun c => isDigit c = true) (decimalN n).
Proof.
  unfold decimalN, NilZero.string_of_uint.
  destruct (N.to_uint n) eqn:Hu; try (rewrite <- Hu; apply string_of_uint_digits).
  repeat constructor.
Qed.

Section NumberTexts.

Context {E : Engine}.

Hypothesis engine_prints_plainly :
  forall x, ~ In "="%char (toStringLong x) /\ ~ In LF (toStringLong x).

Lemma Number_toString_plain (x : number) :
  ~ In "="%char (Number_toString x) /\ ~ In LF (Number_toString x).
Proof.
  assert (Hd : forall n, ~ In "="%char (decimalN n) /\ ~ In LF (decimalN n)).
  { intros n. pose proof (decimalN_digits n) as H. rewrite Forall_forall in H.
    split; intros Hin; specialize (H _ Hin); discriminate H. }
  assert (Hs : forall z n, ~ In "="%char ((if (z <? 0)%Z then js "-" else []) ++ decimalN n) /\
                           ~ In LF ((if (z <? 0)%Z then js "-" else []) ++ decimalN n)).
  { intros z n. destruct (Hd n) as [H1 H2].
    destruct (z <? 0)%Z; split; intros H; cbn [app] in H;
      try (destruct H as [H | H]; [discriminate H |]); tauto. }
  unfold Number_toString.
  destruct x as [s | [] | | s m e];
    try (split; intros H; simpl in H;
         repeat (destruct H as [H | H]; [discriminate H |]); exact H);
    destruct (integerValue _) as [z |]; try apply engine_prints_plainly;
    destruct (Z.abs z <? 2 ^ 53)%Z; first [apply Hs | apply engine_prints_plainly].
Qed.

End NumberTexts.

Ltac literal_fact :=
  match goal with
  | |- ~ In _ (js _) => vm_compute; intuition discriminate
  | |- includes (js _ ++ js _) (js _ ++ js _) = false => vm_compute; reflexivity
  end.

Lemma fresh_after_line (key content name value : str) :
  ~ In LF key -> ~ In "="%char value ->
  ~ occursIn (key ++ js "=") content ->
  includes (name ++ js "=") (key ++ js "=") = false ->
  ~ occursIn (key ++ js "=") (content ++ js "\n" ++ name ++ js "=" ++ value).
Proof.
  intros Hlf Hv Hfresh Hname H.
  change (content ++ js "\n" ++ name ++ js "=" ++ value)
    with (content ++ LF :: name ++ js "=" ++ value) in H.
  apply occursIn_app_sep in H.
  - destruct H as [H | H]; [contradiction |].
    rewrite app_assoc in H. apply occursIn_before_value in H; [| exact Hv].
    apply includes_spec in H.
    change (includes (name ++ js "=") (key ++ js "=") = true) in H. congruence.
  - intros Hin. apply in_app_or in Hin. destruct Hin as [Hin | Hin]; [contradiction |].
    simpl in Hin. destruct Hin as [Hin | Hin]; [discriminate | contradiction].
Qed.

Lemma line_without_LF (name value : str) :
  ~ In LF name -> ~ In LF value -> ~ In LF (name ++ js "=" ++ value).
Proof.
  intros H1 H2 H. apply in_app_or in H. destruct H as [H | H]; [contradiction |].
  simpl in H. destruct H as [H | H]; [discriminate | contradiction].
Qed.

(** X19.  Fee settings saved for the first time.  On a file that holds none
    of the three keys, configure-fees with answers that pass the checks
    adds three lines, for the minimum tip, the percent and the recipient,
    in this order, after the lines the file had.  The next start finds the
    three keys and shows the fee settings as configured; the values
    themselves are not read back: a new instance starts with the default
    minimum tip, percent and recipient, whatever was saved. *)
Theorem fees_saved_on_fresh_file
        (E : Engine) (s : state) (content a1 a2 a3 : str) (rest input : list str) :
  (forall x, ~ In "="%char (toStringLong x) /\ ~ In LF (toStringLong x)) ->
  fileText (configFile s) = Some content ->
  stdin s = a1 :: a2 :: a3 :: rest -> ~ In LF a3 ->
  ~ occursIn (js "MIN_TIP_LAMPORTS=") content ->
  ~ occursIn (js "TIP_PERCENT=") content ->
  ~ occursIn (js "FEE_RECIPIENT=") content ->
  let minTip := parseInt (orElse a1 (js "10000")) in
  let percent := parseInt (orElse a2 (js "50")) in
  let recipient := orElse a3 (js "CebN5WGQ4jvEPvsVU4EoHEpgzq1VV7AbicfhtW4xC9iM") in
  intLt minTip 0 = false -> intLt percent 0 || intGt percent 100 = false ->
  32 <= length recipient ->
  let s' := snd (handleConfigureFees s) in
  let restarted := snd (constructor (boot (configFile s') input)) in
  (exists text,
     configFile s' = Regular text /\
     split LF text =
       split LF content ++
       [ js "MIN_TIP_LAMPORTS=" ++ Number_toString (toNumber minTip);
         js "TIP_PERCENT=" ++ Number_toString (toNumber percent);
         js "FEE_RECIPIENT=" ++ recipient ]) /\
  feeSettingsConfigured (status restarted) = true /\
  feeSettings restarted = defaultFeeSettings.
Proof.
  intros Hengine Hf Hin Hlf F1 F2 F3 minTip percent recipient H1 H2 H3 s' restarted.
  apply Nat.ltb_ge in H3.
  destruct (configureFees_run s content a1 a2 a3 rest Hf Hin H1 H2 H3)
    as (_ & _ & Hfile & _).
  fold minTip percent recipient s' in Hfile.
  set (t1 := Number_toString (toNumber minTip)) in *.
  set (t2 := Number_toString (toNumber percent)) in *.
  destruct (Number_toString_plain Hengine (toNumber minTip)) as [T1e T1l].
  destruct (Number_toString_plain Hengine (toNumber percent)) as [T2e T2l].
  fold t1 in T1e, T1l. fold t2 in T2e, T2l.
  assert (Hrl : ~ In LF recipient).
  { unfold recipient, orElse. destruct (truthy a3); [exact Hlf | literal_fact]. }
  set (c1 := content ++ js "\n" ++ js "MIN_TIP_LAMPORTS" ++ js "=" ++ t1).
  set (c2 := c1 ++ js "\n" ++ js "TIP_PERCENT" ++ js "=" ++ t2).
  set (c3 := c2 ++ js "\n" ++ js "FEE_RECIPIENT" ++ js "=" ++ recipient).
  change (js "MIN_TIP_LAMPORTS=") with (js "MIN_TIP_LAMPORTS" ++ js "=") in F1.
  change (js "TIP_PERCENT=") with (js "TIP_PERCENT" ++ js "=") in F2.
  change (js "FEE_RECIPIENT=") with (js "FEE_RECIPIENT" ++ js "=") in F3.
  assert (G2 : ~ occursIn (js "TIP_PERCENT" ++ js "=") c1)
    by (apply fresh_after_line; first [assumption | literal_fact]).
  assert (G3 : ~ occursIn (js "FEE_RECIPIENT" ++ js "=") c2).
  { apply fresh_after_line; try first [assumption | literal_fact].
    apply fresh_after_line; first [assumption | literal_fact]. }
  assert (Htext : fold_left upsertSetting
                    [ js "MIN_TIP_LAMPORTS=" ++ t1; js "TIP_PERCENT=" ++ t2;
                      js "FEE_RECIPIENT=" ++ recipient ] content = c3).
  { cbn [fold_left].
    change (js "MIN_TIP_LAMPORTS=" ++ t1) with (js "MIN_TIP_LAMPORTS" ++ js "=" ++ t1).
    change (js "TIP_PERCENT=" ++ t2) with (js "TIP_PERCENT" ++ js "=" ++ t2).
    change (js "FEE_RECIPIENT=" ++ recipient) with (js "FEE_RECIPIENT" ++ js "=" ++ recipient).
    rewrite (upsert_fresh content); [| exact F1 | literal_fact].
    fold c1.
    rewrite (upsert_fresh c1); [| exact G2 | literal_fact].
    fold c2.
    rewrite (upsert_fresh c2); [| exact G3 | literal_fact].
    reflexivity. }
  rewrite Htext in Hfile.
  assert (Hlines : split LF c3 =
                   split LF content ++
                   [ js "MIN_TIP_LAMPORTS=" ++ t1; js "TIP_PERCENT=" ++ t2;
                     js "FEE_RECIPIENT=" ++ recipient ]).
  { unfold c3, c2, c1.
    rewrite !split_lines_snoc;
      try (apply line_without_LF; first [assumption | literal_fact]).
    rewrite <- !app_assoc. reflexivity. }
  split; [exists c3; split; [exact Hfile | exact Hlines] |].
  unfold restarted. rewrite Hfile.
  rewrite (constructor_regular c3 (boot (Regular c3) input) eq_refl).
  cbn [snd status feeSettings feeSettingsConfigured]. split; [| reflexivity].
  assert (O1 : occursIn (js "MIN_TIP_LAMPORTS=") c3).
  { exists (content ++ js "\n"),
           (t1 ++ js "\n" ++ js "TIP_PERCENT" ++ js "=" ++ t2 ++
            js "\n" ++ js "FEE_RECIPIENT" ++ js "=" ++ recipient).
    unfold c3, c2, c1. rewrite <- !app_assoc. reflexivity. }
  assert (O2 : occursIn (js "TIP_PERCENT=") c3).
  { exists (c1 ++ js "\n"), (t2 ++ js "\n" ++ js "FEE_RECIPIENT" ++ js "=" ++ recipient).
    unfold c3, c2. rewrite <- !app_assoc. reflexivity. }
  assert (O3 : occursIn (js "FEE_RECIPIENT=") c3).
  { exists (c2 ++ js "\n"), recipient. unfold c3. rewrite <- !app_assoc. reflexivity. }
  apply includes_spec in O1, O2, O3. now rewrite O1, O2, O3.
Qed.

Lemma fees_saved_on_fresh_file_witness :
  let s := boot (Regular (js "RPC_URL=http://localhost:8899")) [js "20000"; js "75"; []; []] in
  let s' := snd (handleConfigureFees (E := plainEngine) s) in
  let restarted := snd (constructor (boot (configFile s') [])) in
  feeSettingsConfigured (status restarted) = true /\
  tipPercent (feeSettings s') = ofZ 75 /\
  tipPercent (feeSettings restarted) = ofZ 50.
Proof.
  intros s s' restarted.
  destruct (fees_saved_on_fresh_file plainEngine s (js "RPC_URL=http://localhost:8899")
              (js "20000") (js "75") [] [[]] [])
    as (_ & Hflag & Hfees); try reflexivity;
    try (apply includes_false; vm_compute; reflexivity).
  - intros x. split; intros H; exact H.
  - intros H; exact H.
  - vm_compute. lia.
  - fold s' restarted in Hflag, Hfees. split; [exact Hflag |].
    split; [vm_compute; reflexivity |]. now rewrite Hfees.
Defined.

(** ** A setting configured a second time *)

Lemma configureWallet_run (s : state) (content key enter : str) (rest : list str) :
  fileText (configFile s) = Some content ->
  stdin s = key :: enter :: rest -> 32 <= length key ->
  exists s',
    handleConfigureWallet s = (Return tt, s') /\
    configFile s' = Regular (upsertSetting content (js "WALLET_PRIVATE_KEY=" ++ key)) /\
    stdin s' = rest.
Proof.
  intros Hf Hin Hlen.
  assert (Hnot : (length key <? 32) = false) by (apply Nat.ltb_ge; exact Hlen).
  destruct s as [st fee f input out]; simpl in Hin, Hf; subst input.
  unfold handleConfigureWallet, pressEnterToContinue. run.
  destruct key as [| c key]; [simpl in Hlen; lia |]. unfold truthy.
  rewrite Hnot.
  destruct f as [| text |]; inversion Hf; subst; run;
    (eexists; split; [reflexivity | split; reflexivity]).
Qed.

(** X20.  A setting configured twice is replaced in place: when the file
    did not hold the key, the first answer holds no line terminator and
    the second answer holds no dollar sign, the file after the second
    configuration is the file that configuring the second answer alone
    would have given, with one line for the key.  The texts are 8-bit, so
    the line terminators an answer can hold here are line feed and
    carriage return; an answer with U+2028 or U+2029, where the dot stops
    as well, is not among them. *)
Theorem second_answer_replaces_first
        (s : state) (content v1 v2 e1 e2 : str) (rest : list str) :
  fileText (configFile s) = Some content ->
  stdin s = v1 :: e1 :: v2 :: e2 :: rest ->
  Forall (fun c => isLineTerminator c = false) v1 -> ~ In "$"%char v2 ->
  (v1 <> [] -> v2 <> [] -> ~ occursIn (js "RPC_URL=") content ->
   configFile (snd ((handleConfigureRPC ;; handleConfigureRPC) s)) =
   Regular (content ++ js "\nRPC_URL=" ++ v2)) /\
  (32 <= length v1 -> 32 <= length v2 -> ~ occursIn (js "WALLET_PRIVATE_KEY=") content ->
   configFile (snd ((handleConfigureWallet ;; handleConfigureWallet) s)) =
   Regular (content ++ js "\nWALLET_PRIVATE_KEY=" ++ v2)).
Proof.
  intros Hf Hin Hline Hdollar. split.
  - intros Hv1 Hv2 Hfresh.
    destruct (configureRPC_run s content v1 e1 (v2 :: e2 :: rest) Hf Hin Hv1)
      as (s1 & Hrun1 & Hfile1 & Hin1).
    assert (Hf1 : fileText (configFile s1) =
                  Some (upsertSetting content (js "RPC_URL=" ++ v1)))
      by (now rewrite Hfile1).
    destruct (configureRPC_run s1 _ v2 e2 rest Hf1 Hin1 Hv2) as (s2 & Hrun2 & Hfile2 & _).
    unfold bind. rewrite Hrun1, Hrun2. cbn [snd]. rewrite Hfile2. f_equal.
    change (js "RPC_URL=" ++ v1) with (js "RPC_URL" ++ js "=" ++ v1).
    change (js "RPC_URL=" ++ v2) with (js "RPC_URL" ++ js "=" ++ v2).
    rewrite (upsert_fresh content); [| exact Hfresh | vm_compute; intuition discriminate].
    apply upsert_again; trivial; vm_compute; intuition discriminate.
  - intros Hv1 Hv2 Hfresh.
    destruct (configureWallet_run s content v1 e1 (v2 :: e2 :: rest) Hf Hin Hv1)
      as (s1 & Hrun1 & Hfile1 & Hin1).
    assert (Hf1 : fileText (configFile s1) =
                  Some (upsertSetting content (js "WALLET_PRIVATE_KEY=" ++ v1)))
      by (now rewrite Hfile1).
    destruct (configureWallet_run s1 _ v2 e2 rest Hf1 Hin1 Hv2) as (s2 & Hrun2 & Hfile2 & _).
    unfold bind. rewrite Hrun1, Hrun2. cbn [snd]. rewrite Hfile2. f_equal.
    change (js "WALLET_PRIVATE_KEY=" ++ v1) with (js "WALLET_PRIVATE_KEY" ++ js "=" ++ v1).
    change (js "WALLET_PRIVATE_KEY=" ++ v2) with (js "WALLET_PRIVATE_KEY" ++ js "=" ++ v2).
    rewrite (upsert_fresh content); [| exact Hfresh | vm_compute; intuition discriminate].
    apply upsert_again; trivial; vm_compute; intuition discriminate.
Qed.

Lemma second_answer_replaces_first_witness :
  let s := boot (Regular (js "NETWORK=devnet"))
             [js "http://localhost:8899"; []; js "https://rpc.example.org"; []] in
  configFile (snd ((handleConfigureRPC ;; handleConfigureRPC) s)) =
  Regular (js "NETWORK=devnet\nRPC_URL=https://rpc.example.org").
Proof.
  intros s.
  refine (proj1 (second_answer_replaces_first s (js "NETWORK=devnet")
                   (js "http://localhost:8899") (js "https://rpc.example.org") [] [] []
                   _ _ _ _) _ _ _); try reflexivity; try discriminate.
  - vm_compute. repeat constructor.
  - vm_compute. intuition discriminate.
  - apply includes_false. vm_compute. reflexivity.
Defined.

(** ** Operations that let no exception through *)

Lemma catchesAll_bind A B (m : M A) (f : A -> M B) :
  catchesAll m -> (forall a, catchesAll (f a)) -> catchesAll (bind m f).
Proof.
  intros Hm Hf s. unfold bind. specialize (Hm s).
  destruct (m s) as [[a | e | h] s']; simpl in *; [apply Hf | exact Hm | reflexivity].
Qed.

(** What is thrown inside a [try] is the handler's to deal with. *)
Lemma catchesAll_tryCatch A (m : M A) (handler : error -> M A) :
  (forall e, catchesAll (handler e)) -> catchesAll (tryCatch m handler).
Proof.
  intros Hh s. unfold tryCatch.
  destruct (m s) as [[a | e | h] s']; simpl; [reflexivity | apply Hh | reflexivity].
Qed.

Lemma catchesAll_prompt c question : catchesAll (prompt c question).
Proof.
  intros [st fee f input out]. unfold prompt. run. destruct input; reflexivity.
Qed.

Ltac caught_step :=
  match goal with
  | |- catchesAll (bind _ _) => apply catchesAll_bind; [| intros ?]
  | |- catchesAll (tryCatch _ _) => apply catchesAll_tryCatch; intros ?
  | |- catchesAll (when ?c _) => destruct c; cbv beta iota delta [when]
  | |- catchesAll (prompt _ _) => apply catchesAll_prompt
  | |- catchesAll (if ?c then _ else _) => destruct c
  | |- catchesAll (let _ := _ in _) => cbv zeta
  | |- catchesAll (throw _) => fail 1
  | |- catchesAll readFileSync => fail 1
  | |- catchesAll (writeFileSync _) => fail 1
  | |- catchesAll _ => solve [intros ?; reflexivity]
  end.

Ltac caught := repeat caught_step.

Section Caught.

Context {E : Engine}.

Lemma handlers_catch :
  catchesAll handleConfigureWallet /\ catchesAll handleConfigureRPC /\
  catchesAll handleConfigureFees /\ catchesAll handleCreateKeypairs /\
  catchesAll handleCreatePoolBundle /\ catchesAll addWallet.
Proof.
  unfold handleConfigureWallet, handleConfigureRPC, handleConfigureFees,
    handleCreateKeypairs, handleCreatePoolBundle, addWallet, displayFeePreview,
    pressEnterToContinue.
  repeat match goal with |- _ /\ _ => split end; caught.
Qed.

End Caught.

(** X21.  Six operations let no exception through, whatever the file and
    the answers are: configure-wallet, configure-RPC, configure-fees,
    create-keypairs, create-pool-bundle and add-wallet end by returning,
    or waiting for input, never by throwing.  (The listing of the wallets
    and view-configuration are not among them.) *)
Theorem six_operations_catch_every_error (E : Engine) (s : state) (e : error) :
  fst (handleConfigureWallet s) <> Throw e /\
  fst (handleConfigureRPC s) <> Throw e /\
  fst (handleConfigureFees s) <> Throw e /\
  fst (handleCreateKeypairs s) <> Throw e /\
  fst (handleCreatePoolBundle s) <> Throw e /\
  fst (addWallet s) <> Throw e.
Proof.
  assert (H : forall (m : M unit), catchesAll m -> fst (m s) <> Throw e).
  { intros m Hm Heq. specialize (Hm s). rewrite Heq in Hm. discriminate Hm. }
  destruct handlers_catch as (H1 & H2 & H3 & H4 & H5 & H6).
  repeat match goal with |- _ /\ _ => split end; now apply H.
Qed.

(** ** What the module falls back to *)

Lemma assigns_dec (line key : str) :
  (exists v, assigns line key v) \/ (forall v, ~ assigns line key v).
Proof.
  destruct (readLine_cases [] line) as [(k & v & Hkv & _) | [Hnone _]].
  - destruct (str_eq_dec k key) as [<- | Hne].
    + left. now exists v.
    + right. intros v' Hv'. destruct (assigns_key_unique _ _ _ _ _ Hkv Hv'). contradiction.
  - right. intros v. apply Hnone.
Qed.

Lemma last_assignment_exists (lines : list str) (key : str) :
  (exists line v, In line lines /\ assigns line key v) ->
  exists v, lastAssigned lines key v.
Proof.
  induction lines as [| x l IH] using rev_ind.
  - intros (line & v & [] & _).
  - intros (line & v & Hin & Hv).
    destruct (assigns_dec x key) as [[vx Hx] | Hx].
    + exists vx, l, x, []. repeat split; trivial.
    + apply in_app_or in Hin. destruct Hin as [Hin | [<- | []]]; [| destruct (Hx _ Hv)].
      destruct IH as (v' & before & line' & after & -> & Hl & Hafter); [now exists line, v |].
      exists v', before, line', (after ++ [x]). split; [| split; trivial].
      * now rewrite <- app_assoc.
      * apply Forall_app. split; trivial. now constructor.
Qed.

Lemma setting_empty (lines : list str) (key : str) :
  key <> js "__proto__" ->
  orEmpty (property (fold_left readLine lines []) key) = [] <->
  (forall line v, In line lines -> ~ assigns line key v).
Proof.
  intros Hkey. split.
  - intros Hempty line v Hin Hv.
    destruct (last_assignment_exists lines key) as [v' Hlast]; [now exists line, v |].
    apply (setting_spec lines key v' Hkey) in Hlast. destruct Hlast as [Heq Hne].
    congruence.
  - intros Hnone.
    destruct (orEmpty (property (fold_left readLine lines []) key)) as [| c t] eqn:Hv;
      [reflexivity |].
    assert (Hlast : lastAssigned lines key (c :: t))
      by (apply (setting_spec lines key (c :: t) Hkey); split; [exact Hv | discriminate]).
    destruct Hlast as (before & line & after & -> & Hl & _).
    destruct (Hnone line (c :: t)); [| exact Hl]. apply in_or_app. right. now left.
Qed.

(** An initialiser of a keypair: it generates one exactly when no line
    assigns the key, and it throws exactly when the last value assigned to
    the key does not decode. *)
Lemma keypairOf_cases (decodes : str -> bool) (lines : list str) (key : str) :
  key <> js "__proto__" ->
  let k := keypairOf (orEmpty (property (fold_left readLine lines []) key)) in
  (k = Generated <-> forall line v, In line lines -> ~ assigns line key v) /\
  (returns decodes k = false <-> exists v, lastAssigned lines key v /\ decodes v = false).
Proof.
  intros Hkey k. unfold k. split.
  - rewrite <- (setting_empty lines key Hkey). unfold keypairOf.
    destruct (orEmpty _); simpl; split; congruence.
  - unfold keypairOf.
    destruct (orEmpty (property (fold_left readLine lines []) key)) as [| c t] eqn:Hv; simpl.
    + split; [discriminate |]. intros (v & Hlast & _).
      apply (setting_spec lines key v Hkey) in Hlast. destruct Hlast as [Heq Hne].
      rewrite Hv in Heq. congruence.
    + split.
      * intros Hd. exists (c :: t). split; [| exact Hd].
        apply (setting_spec lines key (c :: t) Hkey). split; [exact Hv | discriminate].
      * intros (v & Hlast & Hd).
        apply (setting_spec lines key v Hkey) in Hlast. destruct Hlast as [Heq _].
        rewrite Hv in Heq. now rewrite Heq.
Qed.

(** X22.  What the module falls back to, and where its loading ends.
    Reading the file never makes the module fail: for a missing file
    nothing is reported, for a path that cannot be read the failure is
    given to a warning and nothing else happens.  The initialisers then
    run in order, and the first call into the library that throws ends the
    loading: the deployer's when the last value assigned to
    [WALLET_PRIVATE_KEY] does not decode, else the fee payer's when the
    last value assigned to [PAYER_PRIVATE_KEY] does not decode, else the
    connection's when the library does not take the endpoint.  The
    endpoint is the last value assigned to [RPC_URL], or the public mainnet
    endpoint when no line assigns one, and never empty.  When the module
    is loaded, the deployer and the fee payer have a newly generated
    keypair, instead of one decoded from a key, exactly when the file is
    not read or no line of it assigns their key. *)
Theorem module_falls_back_to_defaults (decodes connects : str -> bool) (f : file) :
  let lines := match f with Regular content => split LF content | _ => [] end in
  let unassigned key := forall line v, In line lines -> ~ assigns line key v in
  let undecodable key := exists v, lastAssigned lines key v /\ decodes v = false in
  let mainnet := js "https://api.mainnet-beta.solana.com" in
  (snd (loadSettings f) <> None <-> f = Directory) /\
  match loadModule decodes connects f with
  | Exports deployer feePayer endpoint =>
      ~ undecodable (js "WALLET_PRIVATE_KEY") /\ ~ undecodable (js "PAYER_PRIVATE_KEY") /\
      connects endpoint = true /\
      (deployer = Generated <-> unassigned (js "WALLET_PRIVATE_KEY")) /\
      (feePayer = Generated <-> unassigned (js "PAYER_PRIVATE_KEY")) /\
      endpoint <> [] /\
      (lastAssigned lines (js "RPC_URL") endpoint \/
       unassigned (js "RPC_URL") /\ endpoint = mainnet)
  | Thrown WalletInitialiser => undecodable (js "WALLET_PRIVATE_KEY")
  | Thrown PayerInitialiser =>
      ~ undecodable (js "WALLET_PRIVATE_KEY") /\ undecodable (js "PAYER_PRIVATE_KEY")
  | Thrown ConnectionInitialiser =>
      ~ undecodable (js "WALLET_PRIVATE_KEY") /\ ~ undecodable (js "PAYER_PRIVATE_KEY") /\
      exists endpoint,
        (lastAssigned lines (js "RPC_URL") endpoint \/
         unassigned (js "RPC_URL") /\ endpoint = mainnet) /\
        connects endpoint = false
  end.
Proof.
  intros lines unassigned undecodable mainnet.
  split; [destruct f; simpl; split; congruence |].
  set (c := fst (loadSettings f)).
  assert (Hc : c = {| walletKey := orEmpty (property (fold_left readLine lines []) (js "WALLET_PRIVATE_KEY"));
                      payerKey := orEmpty (property (fold_left readLine lines []) (js "PAYER_PRIVATE_KEY"));
                      rpcUrl := orEmpty (property (fold_left readLine lines []) (js "RPC_URL")) |})
    by (destruct f; reflexivity).
  destruct (keypairOf_cases decodes lines (js "WALLET_PRIVATE_KEY") ltac:(discriminate))
    as [Wgen Wthrows].
  destruct (keypairOf_cases decodes lines (js "PAYER_PRIVATE_KEY") ltac:(discriminate))
    as [Pgen Pthrows].
  assert (Hrpc : rpc c <> [] /\
                 (lastAssigned lines (js "RPC_URL") (rpc c) \/
                  unassigned (js "RPC_URL") /\ rpc c = mainnet)).
  { rewrite Hc. unfold rpc, orElse. cbn [rpcUrl].
    destruct (orEmpty (property (fold_left readLine lines []) (js "RPC_URL"))) as [| ch t] eqn:Hv;
      cbn [truthy].
    - split; [discriminate |]. right. split; [| reflexivity].
      unfold unassigned.
      apply (proj1 (setting_empty lines (js "RPC_URL") ltac:(discriminate))). exact Hv.
    - split; [discriminate |]. left.
      apply (proj1 (setting_spec lines (js "RPC_URL") (ch :: t) ltac:(discriminate))).
      split; [exact Hv | discriminate]. }
  unfold loadModule. fold c.
  assert (Hw : wallet c = keypairOf (orEmpty (property (fold_left readLine lines [])
                                               (js "WALLET_PRIVATE_KEY"))))
    by (rewrite Hc; reflexivity).
  assert (Hp : payer c = keypairOf (orEmpty (property (fold_left readLine lines [])
                                              (js "PAYER_PRIVATE_KEY"))))
    by (rewrite Hc; reflexivity).
  rewrite <- Hw in Wgen, Wthrows. rewrite <- Hp in Pgen, Pthrows.
  destruct (returns decodes (wallet c)) eqn:Rw; cbn [negb].
  - assert (Wok : ~ undecodable (js "WALLET_PRIVATE_KEY"))
      by (intros H; apply Wthrows in H; discriminate).
    destruct (returns decodes (payer c)) eqn:Rp; cbn [negb].
    + assert (Pok : ~ undecodable (js "PAYER_PRIVATE_KEY"))
        by (intros H; apply Pthrows in H; discriminate).
      destruct (connects (rpc c)) eqn:Rc; cbn [negb].
      * destruct Hrpc as [Hne Hfrom].
        split; [exact Wok |]. split; [exact Pok |]. split; [exact Rc |].
        split; [exact Wgen |]. split; [exact Pgen |]. split; [exact Hne | exact Hfrom].
      * split; [exact Wok |]. split; [exact Pok |]. exists (rpc c). split; [apply Hrpc | exact Rc].
    + split; [exact Wok | now apply Pthrows].
  - now apply Wthrows.
Qed.

(** A file whose wallet key does not decode, for a library that takes
    keys of 32 characters or more. *)
Lemma module_falls_back_to_defaults_witness :
  let lines := split LF (js "RPC_URL=http://localhost:8899\nWALLET_PRIVATE_KEY=abc") in
  (exists v, lastAssigned lines (js "WALLET_PRIVATE_KEY") v /\ (32 <=? length v) = false) /\
  loadModule (fun key => 32 <=? length key) (fun _ => true)
    (Regular (js "RPC_URL=http://localhost:8899\nWALLET_PRIVATE_KEY=abc")) =
  Thrown WalletInitialiser.
Proof.
  split; [| vm_compute; reflexivity].
  exact (proj2 (module_falls_back_to_defaults (fun key => 32 <=? length key) (fun _ => true)
                  (Regular (js "RPC_URL=http://localhost:8899\nWALLET_PRIVATE_KEY=abc")))).
Defined.

(** ** Where an exception can come from *)

Lemma showWallet_throws (line : str) (index : nat) (s : state) :
  ~ In "="%char line ->
  exists e events, showWallet line index s = (Throw e, printing events s).
Proof.
  intros H. unfold showWallet. cbv zeta. rewrite (split_no_sep _ line H). cbn [nth_error].
  eexists; eexists. unfold bind, logText, modify, throw.
  rewrite ?emit_printing, ?printing_printing. reflexivity.
Qed.

Lemma forEach_throws (xs : list str) :
  Exists (fun line => ~ In "="%char line) xs ->
  forall index s, exists e events,
    forEach showWallet index xs s = (Throw e, printing events s).
Proof.
  induction xs as [| x xs IH]; intros Hex index s; [inversion Hex |].
  cbn [forEach]. unfold bind.
  destruct (in_dec ascii_dec "="%char x) as [Hin | Hout].
  - destruct (showWallet_returns x index s Hin) as [e1 H1]. rewrite H1.
    assert (Hrest : Exists (fun line => ~ In "="%char line) xs)
      by (inversion Hex; [contradiction | assumption]).
    destruct (IH Hrest (S index) (printing e1 s)) as (e & e2 & H2).
    exists e, (e1 ++ e2). rewrite H2, printing_printing. reflexivity.
  - destruct (showWallet_throws x index s Hout) as (e & e1 & H1). rewrite H1.
    now exists e, e1.
Qed.

Lemma pressEnter_catches : catchesAll pressEnterToContinue.
Proof. unfold pressEnterToContinue. caught. Qed.

(** X23.  The two operations that can let an exception through, and when
    they do.  The listing of the wallets throws exactly when the
    configuration path cannot be read as a file or some line that begins
    with [WALLET_] holds no [=]; view-configuration throws exactly when
    the path cannot be read as a file. *)
Theorem listing_throws_on_malformed_wallet_line (E : Engine) (s : state) :
  ((exists e, fst (viewWallets s) = Throw e) <->
   configFile s = Directory \/
   exists content line,
     configFile s = Regular content /\ In line (split LF content) /\
     isWalletLine line = true /\ ~ In "="%char line) /\
  ((exists e, fst (handleViewConfiguration s) = Throw e) <-> configFile s = Directory).
Proof.
  split.
  - split.
    + intros [e He]. destruct (configFile s) as [| content |] eqn:Hf; [| | now left].
      * exfalso. destruct s as [st fee f input out]. simpl in Hf. subst f.
        discriminate He.
      * right.
        destruct (Forall_Exists_dec (fun line => In "="%char line)
                    (fun line => in_dec ascii_dec "="%char line)
                    (filter isWalletLine (split LF content))) as [Hall | Hex].
        -- destruct (viewWallets_returns s content Hf Hall) as [events Hv].
           rewrite Hv in He. discriminate He.
        -- apply Exists_exists in Hex. destruct Hex as (line & Hin & Hno).
           apply filter_In in Hin. destruct Hin as [Hin Hw].
           now exists content, line.
    + intros [Hd | (content & line & Hf & Hin & Hw & Hno)];
        destruct s as [st fee f input out]; simpl in *; subst f.
      * eexists. reflexivity.
      * assert (Hex : Exists (fun line => ~ In "="%char line)
                        (filter isWalletLine (split LF content))).
        { apply Exists_exists. exists line. split; [| exact Hno].
          apply filter_In. now split. }
        unfold viewWallets. run.
        destruct (length (filter isWalletLine (split LF content)) =? 0) eqn:Hlen.
        -- apply Nat.eqb_eq, length_zero_iff_nil in Hlen. rewrite Hlen in Hex. inversion Hex.
        -- match goal with |- context [forEach showWallet 0 ?xs ?s0] =>
             destruct (forEach_throws xs Hex 0 s0) as (e & events & Hev)
           end.
           exists e. now rewrite Hev.
  - destruct s as [st fee f input out]. unfold handleViewConfiguration, displayStatus. run.
    destruct f as [| content |]; run; cbn [configFile].
    + split; [| discriminate]. intros [e He].
      match type of He with context [pressEnterToContinue ?s0] =>
        pose proof (pressEnter_catches s0) as Hc end.
      unfold fst in Hc. rewrite He in Hc. discriminate Hc.
    + split; [| discriminate]. intros [e He].
      match type of He with context [pressEnterToContinue ?s0] =>
        pose proof (pressEnter_catches s0) as Hc end.
      unfold fst in Hc. rewrite He in Hc. discriminate Hc.
    + split; [reflexivity |]. intros _. eexists. reflexivity.
Qed.

Lemma listing_throws_on_malformed_wallet_line_witness :
  exists e, fst (viewWallets (boot (Regular (js "RPC_URL=u\nWALLET_BACKUP")) [])) = Throw e.
Proof.
  apply (proj2 (proj1 (listing_throws_on_malformed_wallet_line plainEngine
                         (boot (Regular (js "RPC_URL=u\nWALLET_BACKUP")) [])))).
  right. exists (js "RPC_URL=u\nWALLET_BACKUP"), (js "WALLET_BACKUP").
  split; [reflexivity |]. split; [vm_compute; auto |]. split; [reflexivity |].
  vm_compute. intuition discriminate.
Defined.

Section Fatal.

Context {E : Engine}.

Lemma display_catches :
  catchesAll clearScreen /\ catchesAll displayHeader /\ catchesAll displayStatus /\
  catchesAll displayMenu.
Proof.
  unfold clearScreen, displayHeader, displayStatus, displayMenu.
  repeat match goal with |- _ /\ _ => split end; caught.
Qed.

(** An exception of a sequence whose first part throws none is one of what
    follows. *)
Lemma bind_fatal A (m : M A) (f : A -> M unit) (s : state) (e : error) :
  catchesAll m -> preserves inputConsumed m ->
  (forall a s', fst (f a s') = Throw e ->
                In (js "6") (stdin s') \/ In (js "7") (stdin s')) ->
  fst (bind m f s) = Throw e ->
  In (js "6") (stdin s) \/ In (js "7") (stdin s).
Proof.
  intros Hc Hm Hk. unfold bind. pose proof (Hm s) as [used Hs]. pose proof (Hc s) as Hcs.
  destruct (m s) as [[a | e' | h] s']; simpl in *; try discriminate.
  intros H. rewrite Hs. destruct (Hk a s' H) as [Hin | Hin]; [left | right];
    apply in_or_app; now right.
Qed.

Lemma prompt_fatal c question (f : str -> M unit) (s : state) (e : error) :
  (forall line s', fst (f line s') = Throw e ->
      line = js "6" \/ line = js "7" \/
      In (js "6") (stdin s') \/ In (js "7") (stdin s')) ->
  fst (bind (prompt c question) f s) = Throw e ->
  In (js "6") (stdin s) \/ In (js "7") (stdin s).
Proof.
  intros Hk. destruct s as [st fee file input out]. unfold prompt. run.
  destruct input as [| line rest]; [discriminate |].
  intros H. destruct (Hk _ _ H) as [-> | [-> | [Hin | Hin]]]; simpl; auto.
Qed.

Lemma menuLoop_fatal (fuel : nat) (s : state) (e : error) :
  fst (menuLoop fuel s) = Throw e ->
  In (js "6") (stdin s) \/ In (js "7") (stdin s).
Proof.
  destruct display_consumes as (D1 & D2 & D3 & D4 & D5).
  destruct display_catches as (K1 & K2 & K3 & K4).
  destruct handlers_consume as (H1 & H2 & H3 & H4 & H5 & H6).
  destruct handlers_catch as (C1 & C2 & C4 & C3 & C5 & _).
  revert s. induction fuel as [| fuel IH]; intros s; [discriminate |].
  cbn [menuLoop].
  apply bind_fatal; trivial. intros _ s1.
  apply bind_fatal; trivial. intros _ s2.
  apply bind_fatal; trivial. intros _ s3.
  apply bind_fatal; trivial. intros _ s4.
  apply prompt_fatal. intros answer s5.
  assert (Hnext : forall (h : M unit) (s' : state),
            catchesAll h -> preserves inputConsumed h ->
            fst ((h ;; menuLoop fuel) s') = Throw e ->
            answer = js "6" \/ answer = js "7" \/
            In (js "6") (stdin s') \/ In (js "7") (stdin s')).
  { intros h s' Hc Hh Hthrow. right. right.
    exact (bind_fatal unit h (fun _ => menuLoop fuel) s' e Hc Hh (fun _ => IH) Hthrow). }
  destruct (streq answer (js "1")); [now apply Hnext |].
  destruct (streq answer (js "2")); [now apply Hnext |].
  destruct (streq answer (js "3")); [now apply Hnext |].
  destruct (streq answer (js "4")); [now apply Hnext |].
  destruct (streq answer (js "5")); [now apply Hnext |].
  destruct (streq answer (js "6")) eqn:A6;
    [intros _; left; now apply streq_spec |].
  destruct (streq answer (js "7")) eqn:A7;
    [intros _; right; left; now apply streq_spec |].
  destruct (streq answer (js "8")); [discriminate |].
  intros Hthrow. right. right.
  revert Hthrow. apply bind_fatal; [caught | consumes |]. intros _ s6.
  apply bind_fatal; [apply pressEnter_catches | exact D5 |]. intros _. apply IH.
Qed.

Lemma start_fatal (s : state) (e : error) :
  fst (start s) = Throw e -> In (js "6") (stdin s) \/ In (js "7") (stdin s).
Proof. unfold start, bind, get. cbn [fst snd]. apply menuLoop_fatal. Qed.

End Fatal.

(** X24.  A fatal error has one of three origins.  When [main] ends the
    process with the code 1, either the configuration path could not be
    read at startup, or view-configuration (choice 6) or the wallet
    submenu (choice 7) was entered: a line [6] or [7] is among the lines
    typed.  No other operation of the menu can end the session. *)
Theorem fatal_error_has_three_origins (E : Engine) (s : state) :
  fst (main s) = Halt (Exited 1) ->
  configFile s = Directory \/ In (js "6") (stdin s) \/ In (js "7") (stdin s).
Proof.
  unfold main, tryCatch.
  pose proof (start_stays_alive s) as Halive.
  destruct s as [st fee f input out].
  destruct f as [| content |]; [| | now left]; intros H; right;
    unfold constructor, loadStatus in *; revert H Halive; run;
    match goal with |- context [start ?s0] => set (s1 := s0) end;
    change input with (stdin s1);
    pose proof (start_fatal s1) as Hfatal;
    (destruct (start s1) as [[[] | e | h] s2]; cbn [fst] in *; intros H Halive;
     [discriminate H | now apply (Hfatal e) | destruct h; discriminate]).
Qed.

Lemma fatal_error_has_three_origins_witness :
  let s := boot (Regular (js "WALLET_BACKUP")) [js "7"; js "1"] in
  configFile s = Directory \/ In (js "6") (stdin s) \/ In (js "7") (stdin s).
Proof.
  intros s. apply (fatal_error_has_three_origins plainEngine s).
  vm_compute. reflexivity.
Defined.
